(** * Portfolio visualisations: volatility surface and hover charts

    A shallow embedding of [js/volatility-surface.js],
    [js/project-visualizations.js] and [main.js].

    Numbers.  [IEEE] is the rounding of a rational to the nearest
    number of a binary format, ties to even, with overflow to an
    infinity.  The interpolator is embedded with it, operation by
    operation, as [Binary64.interpolateSigma]: every result is the
    nearest binary64 number, and a decimal of the JSON text is read
    as the nearest binary64 number.  The vertex positions live in a
    Float32Array: what is stored there is rounded to binary32
    ([VolatilitySurface.Float32]).

    The rest of the program is embedded over [JS.num], an exact
    rational or [NaN]: the same operations in the same order, without
    the rounding of each result.  What is stated over [JS.num] are
    counts, positions in arrays, which value is read or written where,
    and equations between results of the program's own expressions.
    What the program does with [undefined] is kept: a missing array
    element reads as [Undefined], turns into [NaN] in arithmetic, and
    a property read on [Undefined] raises a [TypeError].

    Host functions that are not part of the repository ([Math.sin],
    [Math.cos], the number-to-string conversion of template literals,
    and the pieces of d3 the charts call) are parameters of the
    definitions that use them.

    Time and events.  [main.js] works through timers and listeners.
    The timers the window holds are a value, [Main.window], that
    [setTimeout] and [clearTimeout] pass on; what happens to the page
    is a list of events (a listener is called, time passes, the window
    runs a timer that is due), and [run] applies [step] to each.  A
    step is [None] where the window could not have done it: a timer
    runs only if it is pending and due.  When a due timer runs is left
    open, so what is proved of every history holds however late the
    window is. *)

From Stdlib Require Import QArith Qround Qminmax Qabs Qpower Lqa ZArith Lia.
From Stdlib Require Import String Ascii DecimalString.
From stdpp Require Import base list strings.

Open Scope string_scope.
Open Scope list_scope.
Open Scope Q_scope.

(** ** JavaScript values used by the program *)

Module JS.

Inductive num : Type :=
| NaN
| Fin (q : Q).

Definition lift2 (f : Q -> Q -> Q) (a b : num) : num :=
  match a, b with
  | Fin x, Fin y => Fin (f x y)
  | _, _ => NaN
  end.

Definition add : num -> num -> num := lift2 Qplus.
Definition sub : num -> num -> num := lift2 Qminus.
Definition mul : num -> num -> num := lift2 Qmult.

(** [a / b].  Infinities are not part of the model: a division by zero
    is [NaN], which is what JavaScript gives for [0 / 0].  The program
    divides by non-zero constants, by the render-grid size (a counter
    [j <= size], so [0 / 0] when the size is 0) and by the length of a
    list while it visits an element of that list. *)
Definition div (a b : num) : num :=
  match a, b with
  | Fin x, Fin y => if Qeq_bool y 0 then NaN else Fin (x / y)
  | _, _ => NaN
  end.

Definition Math_floor (a : num) : num :=
  match a with
  | Fin x => Fin (inject_Z (Qfloor x))
  | NaN => NaN
  end.

Definition Math_min : num -> num -> num := lift2 Qmin.
Definition Math_max : num -> num -> num := lift2 Qmax.

(** [Math.pow(a, n)] for a literal non-negative integer exponent. *)
Fixpoint Math_pow (a : num) (n : nat) : num :=
  match n with
  | O => Fin 1
  | S n' => mul a (Math_pow a n')
  end.

(** [a > b]; any comparison with [NaN] is false. *)
Definition gt (a b : num) : bool :=
  match a, b with
  | Fin x, Fin y => negb (Qle_bool x y)
  | _, _ => false
  end.

(** The binary64 value of [Math.PI], which is a rational. *)
Definition Math_PI : num := Fin (884279719003555 # 281474976710656).

Definition of_Z (z : Z) : num := Fin (inject_Z z).
Definition of_nat (n : nat) : num := of_Z (Z.of_nat n).

(** A value read out of an array: a number, or [undefined]. *)
Inductive value : Type :=
| Undefined
| Num (n : num).

Definition ToNumber (v : value) : num :=
  match v with
  | Undefined => NaN
  | Num n => n
  end.

Inductive exn : Type :=
| TypeError.

(** Completion of an evaluation: a result or a thrown exception. *)
Inductive completion (A : Type) : Type :=
| Normal (a : A)
| Throw (e : exn).
Arguments Normal {A} a.
Arguments Throw {A} e.

Definition bind {A B : Type} (c : completion A) (k : A -> completion B)
  : completion B :=
  match c with
  | Normal a => k a
  | Throw e => Throw e
  end.

(** A number used as a property key of an array names an element only
    when it is a non-negative integer. *)
Definition array_index (k : num) : option nat :=
  match k with
  | Fin q =>
      if Qeq_bool q (inject_Z (Qfloor q)) && (0 <=? Qfloor q)%Z
      then Some (Z.to_nat (Qfloor q))
      else None
  | NaN => None
  end.

(** [arr[k]]: [None] stands for [undefined]. *)
Definition get {A : Type} (arr : list A) (k : num) : option A :=
  match array_index k with
  | Some n => arr !! n
  | None => None
  end.

(** [grid[y][x]] on an array of arrays of numbers: reading [[x]] of an
    [undefined] row throws, an absent element of a row is [undefined]. *)
Definition get2 (grid : list (list Q)) (y x : num) : completion value :=
  match get grid y with
  | None => Throw TypeError
  | Some row =>
      Normal (match get row x with
              | Some q => Num (Fin q)
              | None => Undefined
              end)
  end.

(** The host's [Math.sin] and [Math.cos] (implementation-approximated
    in ECMAScript) and the number-to-string conversion used by
    template literals. *)
Class Host : Type := {
  Math_sin : num -> num;
  Math_cos : num -> num;
  Number_toString : num -> string
}.

Fixpoint zeros (k : nat) : string :=
  match k with
  | O => EmptyString
  | S k' => String "0" (zeros k')
  end.

(** [x.toFixed(f)] (ECMAScript Number.prototype.toFixed): the integer
    [n] nearest to [|x| * 10^f], the larger one on a tie, printed with
    [f] digits after the point. *)
Definition toFixed `{Host} (x : num) (f : nat) : string :=
  match x with
  | NaN => "NaN"
  | Fin q =>
      let neg := negb (Qle_bool 0 q) in
      let a := if neg then - q else q in
      let m :=
        if Qle_bool (inject_Z (10 ^ 21)) a then Number_toString (Fin a)
        else
          let n := Qfloor (a * inject_Z (10 ^ Z.of_nat f) + (1 # 2)) in
          let m := NilZero.string_of_uint (N.to_uint (Z.to_N n)) in
          if (f =? 0)%nat then m
          else
            let k := String.length m in
            let m := if (k <=? f)%nat then zeros (f + 1 - k) +:+ m else m in
            let k := if (k <=? f)%nat then (f + 1)%nat else k in
            substring 0 (k - f) m +:+ "." +:+ substring (k - f) f m
      in
      (if neg then "-" else "") +:+ m
  end.

(** [s.split(' ')[0]]: the text before the first space. *)
Fixpoint first_word (s : string) : string :=
  match s with
  | EmptyString => EmptyString
  | String c s' =>
      if Ascii.eqb c " " then EmptyString else String c (first_word s')
  end.

(** What [fetch(url)] followed by [response.json()] can do: the request
    is rejected, the body is not JSON, or a document arrives ([None] is
    the JSON value [null]). *)
Inductive fetched (D : Type) : Type :=
| FetchRejected
| BodyNotJson
| Json (doc : option D).
Arguments FetchRejected {D}.
Arguments BodyNotJson {D}.
Arguments Json {D} doc.

(** A number or [-Infinity], which is what [Math.max()] of no arguments
    returns. *)
Inductive xnum : Type :=
| NegInfinity
| Finite (n : num).

(** [Math.max(...xs)]. *)
Definition Math_max_spread (xs : list num) : xnum :=
  match xs with
  | [] => NegInfinity
  | x :: rest => Finite (foldl Math_max x rest)
  end.

(** [x * c] for a literal [c].  The program multiplies a possibly
    infinite number only by positive literals; for another [c] the
    product with [-Infinity] is not a number of the model. *)
Definition xmul (x : xnum) (c : Q) : xnum :=
  match x with
  | NegInfinity => if Qle_bool c 0 then Finite NaN else NegInfinity
  | Finite n => Finite (mul n (Fin c))
  end.

End JS.

(** ** Rounding *)

(** The numbers of an IEEE 754 binary format and the rounding of a
    rational to the nearest of them, ties to the even significand.  A
    format has [prec] significand bits, least exponent [emin] (the
    smallest positive number is [2^emin]) and overflows at [2^emax].
    The sign of zero is not kept. *)
Module IEEE.

Inductive value : Type :=
| NaN
| Infinity (negative : bool)
| Fin (q : Q).

(** [floor (log2 q)] for [q > 0]. *)
Definition ilog2 (q : Q) : Z :=
  let e := (Z.log2 (Qnum q) - Z.log2 (Zpos (Qden q)))%Z in
  if Qle_bool (2 ^ e) q then e else (e - 1)%Z.

(** The integer nearest to [q], the even one on a tie. *)
Definition nearest_even (q : Q) : Z :=
  let f := Qfloor q in
  match Qcompare (q - inject_Z f) (1 # 2) with
  | Lt => f
  | Gt => (f + 1)%Z
  | Eq => if Z.even f then f else (f + 1)%Z
  end.

(** [q > 0] rounded to a multiple of its unit in the last place. *)
Definition round_pos (prec emin : Z) (q : Q) : Q :=
  let e := Z.max (ilog2 q - (prec - 1)) emin in
  inject_Z (nearest_even (q / 2 ^ e)) * 2 ^ e.

Definition round_finite (prec emin : Z) (q : Q) : Q :=
  match Qcompare q 0 with
  | Eq => 0
  | Gt => round_pos prec emin q
  | Lt => - round_pos prec emin (- q)
  end.

Definition round (prec emin emax : Z) (q : Q) : value :=
  let r := round_finite prec emin q in
  if Qle_bool (2 ^ emax) (Qabs r) then Infinity (negb (Qle_bool 0 q))
  else Fin (Qred r).

Definition binary64 : Q -> value := round 53 (-1074) 1024.
Definition binary32 : Q -> value := round 24 (-149) 128.

End IEEE.

Declare Scope js_scope.
Delimit Scope js_scope with js.
Bind Scope js_scope with JS.num.
Notation "a + b" := (JS.add a b) : js_scope.
Notation "a - b" := (JS.sub a b) : js_scope.
Notation "a * b" := (JS.mul a b) : js_scope.
Notation "a / b" := (JS.div a b) : js_scope.

#[global] Instance completion_ret : MRet JS.completion := @JS.Normal.
#[global] Instance completion_bind : MBind JS.completion :=
  fun A B k c => JS.bind c k.

Coercion JS.Fin : Q >-> JS.num.

(** ** binary64 arithmetic *)

(** The arithmetic of JavaScript numbers with its rounding: every
    operation gives the binary64 number nearest to the exact result.
    The sign of zero is not kept. *)
Module Binary64.
Import IEEE.

Definition opp (a : value) : value :=
  match a with
  | NaN => NaN
  | Infinity s => Infinity (negb s)
  | Fin x => Fin (- x)
  end.

Definition add (a b : value) : value :=
  match a, b with
  | Fin x, Fin y => binary64 (x + y)
  | NaN, _ | _, NaN => NaN
  | Infinity s, Fin _ | Fin _, Infinity s => Infinity s
  | Infinity s, Infinity s' => if Bool.eqb s s' then Infinity s else NaN
  end.

Definition sub (a b : value) : value := add a (opp b).

Definition mul (a b : value) : value :=
  match a, b with
  | Fin x, Fin y => binary64 (x * y)
  | NaN, _ | _, NaN => NaN
  | Infinity s, Fin y | Fin y, Infinity s =>
      match Qcompare y 0 with
      | Eq => NaN
      | Lt => Infinity (negb s)
      | Gt => Infinity s
      end
  | Infinity s, Infinity s' => Infinity (xorb s s')
  end.

Definition Math_floor (a : value) : value :=
  match a with
  | Fin x => Fin (inject_Z (Qfloor x))
  | _ => a
  end.

Definition Math_min (a b : value) : value :=
  match a, b with
  | NaN, _ | _, NaN => NaN
  | Fin x, Fin y => Fin (Qmin x y)
  | Infinity true, _ | _, Infinity true => Infinity true
  | Infinity false, c | c, Infinity false => c
  end.

(** A value read out of an array: a number, or [undefined]. *)
Inductive val : Type :=
| Undefined
| Num (n : value).

Definition ToNumber (v : val) : value :=
  match v with
  | Undefined => NaN
  | Num n => n
  end.

Definition array_index (k : value) : option nat :=
  match k with
  | Fin q =>
      if Qeq_bool q (inject_Z (Qfloor q)) && (0 <=? Qfloor q)%Z
      then Some (Z.to_nat (Qfloor q))
      else None
  | _ => None
  end.

Definition get {A : Type} (arr : list A) (k : value) : option A :=
  match array_index k with
  | Some n => arr !! n
  | None => None
  end.

(** [grid[y][x]].  The grid holds the decimal numbers of the JSON
    text; what is read is the number [JSON.parse] made of them, the
    nearest binary64 number. *)
Definition get2 (grid : list (list Q)) (y x : value) : JS.completion val :=
  match get grid y with
  | None => JS.Throw JS.TypeError
  | Some row =>
      JS.Normal (match get row x with
                 | Some q => Num (binary64 q)
                 | None => Undefined
                 end)
  end.

(** [interpolateSigma(u, v, grid, nRows, nCols)] in binary64
    arithmetic. *)
Definition interpolateSigma (u v : value) (grid : list (list Q))
    (nRows nCols : value) : JS.completion value :=
  let gx := mul u (sub nCols (Fin 1)) in
  let gy := mul v (sub nRows (Fin 1)) in
  let x0 := Math_floor gx in
  let y0 := Math_floor gy in
  let x1 := Math_min (add x0 (Fin 1)) (sub nCols (Fin 1)) in
  let y1 := Math_min (add y0 (Fin 1)) (sub nRows (Fin 1)) in
  let fx := sub gx x0 in
  let fy := sub gy y0 in
  v00 ← get2 grid y0 x0;
  v10 ← get2 grid y0 x1;
  v01 ← get2 grid y1 x0;
  v11 ← get2 grid y1 x1;
  mret (add (add (add (mul (mul (sub (Fin 1) fx) (sub (Fin 1) fy))
                           (ToNumber v00))
                      (mul (mul fx (sub (Fin 1) fy)) (ToNumber v10)))
                 (mul (mul (sub (Fin 1) fx) fy) (ToNumber v01)))
            (mul (mul fx fy) (ToNumber v11))).

End Binary64.

(** ** js/volatility-surface.js *)

Module VolatilitySurface.
Import JS.

(** [interpolateSigma(u, v, grid, nRows, nCols)]: bilinear
    interpolation on the data grid. *)
Definition interpolateSigma (u v : num) (grid : list (list Q))
    (nRows nCols : num) : completion num :=
  (let gx := u * (nCols - Fin 1) in
   let gy := v * (nRows - Fin 1) in
   let x0 := Math_floor gx in
   let y0 := Math_floor gy in
   let x1 := Math_min (x0 + Fin 1) (nCols - Fin 1) in
   let y1 := Math_min (y0 + Fin 1) (nRows - Fin 1) in
   let fx := gx - x0 in
   let fy := gy - y0 in
   v00 ← get2 grid y0 x0;
   v10 ← get2 grid y0 x1;
   v01 ← get2 grid y1 x0;
   v11 ← get2 grid y1 x1;
   mret ((Fin 1 - fx) * (Fin 1 - fy) * ToNumber v00 +
           fx * (Fin 1 - fy) * ToNumber v10 +
           (Fin 1 - fx) * fy * ToNumber v01 +
           fx * fy * ToNumber v11))%js.

(** [for (const x of xs) s = body(x, s)], stopping at the first throw. *)
Fixpoint for_each {A S : Type} (xs : list A)
    (body : A -> S -> completion S) (s : S) : completion S :=
  match xs with
  | [] => mret s
  | x :: xs' => s' ← body x s; for_each xs' body s'
  end.

Record Config : Type := {
  renderGrid_x : nat;
  renderGrid_y : nat;
  rotation_x : num;
  rotation_y : num;
  waveSpeed : num;
  waveAmplitude : num;
  color : Z;
  opacity : num;
  scaleX : num;
  scaleY : num;
  scaleZ : num
}.

(** [this.config] as the constructor sets it; [mobile] is
    [window.innerWidth < 768]. *)
Definition default_config (mobile : bool) : Config :=
  {| renderGrid_x := if mobile then 20 else 40;
     renderGrid_y := if mobile then 12 else 24;
     rotation_x := 0.0002;
     rotation_y := 0.0003;
     waveSpeed := 0.0008;
     waveAmplitude := 0.15;
     color := 0xffffff;
     opacity := 0.85;
     scaleX := 12;
     scaleY := 10;
     scaleZ := 20 |}.

(** [data/health-surface-data.json]: the document [response.json()]
    delivers.  [metadata] is [None] for a document without a [metadata]
    object. *)
Record Metadata : Type := {
  title : string
}.

Record SurfaceData : Type := {
  metadata : option Metadata;
  surface_grid : list (list Q)
}.

(** What a [Float32Array] holds after a number is stored in it: the
    number, which is a binary64 number, converted to the nearest
    binary32 number. *)
Definition Float32 (x : num) : IEEE.value :=
  match x with
  | NaN => IEEE.NaN
  | Fin q =>
      match IEEE.binary64 q with
      | IEEE.Fin d => IEEE.binary32 d
      | other => other
      end
  end.

(** The buffer geometry of [this.surface]: the position attribute (a
    Float32Array, three numbers per vertex) and the index list. *)
Record Geometry : Type := {
  position : list IEEE.value;
  index : list nat
}.

Inductive console_entry : Type :=
| console_log (msg : string)
| console_warn (msg : string).

(** The fields of a [VolatilitySurface] instance the methods below read
    or write.  [renderer] tells whether [this.renderer] is set or still
    [null]; [surfaceGroup] holds the rotation of the group. *)
Record t : Type := {
  config : Config;
  renderer : bool;
  surfaceData : option SurfaceData;
  baseHeights : option (list num);
  surface : option Geometry;
  surfaceGroup : option (num * num);
  time : num;
  console : list console_entry
}.

Definition new (mobile : bool) : t :=
  {| config := default_config mobile;
     renderer := false;
     surfaceData := None;
     baseHeights := None;
     surface := None;
     surfaceGroup := None;
     time := 0;
     console := [] |}.

(** [setupRenderer()]. *)
Definition setupRenderer (s : t) : t :=
  {| config := config s;
     renderer := true;
     surfaceData := surfaceData s;
     baseHeights := baseHeights s;
     surface := surface s;
     surfaceGroup := surfaceGroup s;
     time := time s;
     console := console s |}.

(** The synthetic fallback height of [createSurface]. *)
Definition synthetic (u v : num) : num :=
  (let smile := Math_pow ((u - 0.5) * 2) 2 * 1.5 in
   let term := v * 0.5 in
   (smile + term) * 2)%js.

(** The height [z] of the vertex at [(u, v)]: the [if (grid)] of
    [createSurface]. *)
Definition height (cfg : Config) (grid : option (list (list Q)))
    (nRows nCols : num) (u v : num) : completion num :=
  match grid with
  | Some g =>
      sigma ← interpolateSigma u v g nRows nCols;
      mret (sigma * scaleZ cfg)%js
  | None => mret (synthetic u v)
  end.

(** Body of the vertex loops of [createSurface]; the state is
    [(this.baseHeights, vertices)]. *)
Definition vertex_step (cfg : Config) (grid : option (list (list Q)))
    (nRows nCols : num) (i j : nat) (acc : list num * list num)
    : completion (list num * list num) :=
  (let u := of_nat j / of_nat (renderGrid_x cfg) in
   let v := of_nat i / of_nat (renderGrid_y cfg) in
   let x := (u - 0.5) * scaleX cfg in
   let y := (v - 0.5) * scaleY cfg in
   z ← height cfg grid nRows nCols u v;
   mret (acc.1 ++ [z], acc.2 ++ [x; z; y]))%js.

(** Body of the wireframe index loops of [createSurface]. *)
Definition index_step (gridX : nat) (i j : nat) (indices : list nat)
    : list nat :=
  let a := (i * (gridX + 1) + j)%nat in
  let b := (a + gridX + 1)%nat in
  (indices ++ [a; b]) ++ [a; (a + 1)%nat].

(** [createSurface()].  The position attribute is a
    [Float32BufferAttribute]: it holds the vertices as binary32 numbers.
    [createAxes()] and the light only add children to the scene and are
    left out. *)
Definition createSurface (s : t) : completion t :=
  let cfg := config s in
  let gridX := renderGrid_x cfg in
  let gridY := renderGrid_y cfg in
  let grid := surface_grid <$> surfaceData s in
  let nRows :=
    match grid with
    | Some g => of_nat (length g)
    | None => Fin 0
    end in
  nCols ← match grid with
          | Some g =>
              match g !! 0%nat with
              | Some row => mret (of_nat (length row))
              | None => Throw TypeError
              end
          | None => mret (Fin 0)
          end;
  bv ← for_each (seq 0 (S gridY))
         (fun i => for_each (seq 0 (S gridX))
                     (vertex_step cfg grid nRows nCols i))
         ([], []);
  let indices :=
    foldl (fun acc i => foldl (fun acc j => index_step gridX i j acc)
                              acc (seq 0 gridX))
          [] (seq 0 gridY) in
  mret {| config := cfg;
          renderer := renderer s;
          surfaceData := surfaceData s;
          baseHeights := Some bv.1;
          surface := Some {| position := Float32 <$> bv.2;
                             index := indices |};
          surfaceGroup := Some (Fin 0, Fin 0);
          time := time s;
          console := console s |}.

(** The [catch] of [init()]. *)
Definition load_failed (s : t) : t :=
  {| config := config s;
     renderer := renderer s;
     surfaceData := None;
     baseHeights := baseHeights s;
     surface := surface s;
     surfaceGroup := surfaceGroup s;
     time := time s;
     console := console s ++
       [console_warn "Could not load surface data, using synthetic fallback"] |}.

(** The [try]/[catch] of [init()].  The [try] stores the document and
    then logs [this.surfaceData.metadata.title]: on [null] and on a
    document without [metadata] that read throws, and the [catch]
    discards the document. *)
Definition load (s : t) (f : fetched SurfaceData) : t :=
  match f with
  | Json (Some d) =>
      match metadata d with
      | Some m =>
          {| config := config s;
             renderer := renderer s;
             surfaceData := Some d;
             baseHeights := baseHeights s;
             surface := surface s;
             surfaceGroup := surfaceGroup s;
             time := time s;
             console := console s ++
               [console_log ("Loaded health surface data: " +:+ title m)] |}
      | None => load_failed s
      end
  | _ => load_failed s
  end.

Section Animation.
Context `{Host}.

(** The wave overlay of [animate()] at [(u, v)] and time [t]. *)
Definition wave (cfg : Config) (u v t : num) : num :=
  (Math_sin (u * Math_PI * 3 + t) *
   Math_cos (v * Math_PI * 2 + t * 0.7) *
   waveAmplitude cfg)%js.

(** Body of the vertex loops of [animate()]; the state is the
    position array, a [Float32Array]: a store rounds to binary32 and a
    store past its end is ignored. *)
Definition animate_step (cfg : Config) (bh : list num) (t : num)
    (i j : nat) (positions : list IEEE.value) : list IEEE.value :=
  (let idx := (i * (renderGrid_x cfg + 1) + j)%nat in
   let posIdx := (idx * 3)%nat in
   let u := of_nat j / of_nat (renderGrid_x cfg) in
   let v := of_nat i / of_nat (renderGrid_y cfg) in
   let baseZ := match bh !! idx with
                | Some z => Num z
                | None => Undefined
                end in
   <[(posIdx + 1)%nat := Float32 (ToNumber baseZ + wave cfg u v t)]>
     positions)%js.

(** [this.renderer.render(this.scene, this.camera)], the last
    statement of [animate()]: a call on [null] while no renderer is
    set.  What the renderer draws is outside the model. *)
Definition render (s : t) : completion t :=
  if renderer s then mret s else Throw TypeError.

(** [animate()]: one frame. *)
Definition animate (s : t) : completion t :=
  let cfg := config s in
  let time' := (time s + waveSpeed cfg)%js in
  match surfaceGroup s, baseHeights s with
  | Some rot, Some bh =>
      match surface s with
      | None => Throw TypeError
      | Some geo =>
          let positions :=
            foldl (fun acc i =>
                     foldl (fun acc j => animate_step cfg bh time' i j acc)
                           acc (seq 0 (S (renderGrid_x cfg))))
                  (position geo) (seq 0 (S (renderGrid_y cfg))) in
          render {| config := cfg;
                    renderer := renderer s;
                    surfaceData := surfaceData s;
                    baseHeights := baseHeights s;
                    surface := Some {| position := positions;
                                       index := index geo |};
                    surfaceGroup := Some ((rot.1 + rotation_x cfg)%js,
                                          (rot.2 + rotation_y cfg)%js);
                    time := time';
                    console := console s |}
      end
  | _, _ =>
      render {| config := cfg;
                renderer := renderer s;
                surfaceData := surfaceData s;
                baseHeights := baseHeights s;
                surface := surface s;
                surfaceGroup := surfaceGroup s;
                time := time';
                console := console s |}
  end.

(** [n] animation frames in a row. *)
Fixpoint frames (n : nat) (s : t) : completion t :=
  match n with
  | O => mret s
  | S n' => s' ← animate s; frames n' s'
  end.

(** [init()]: set up the renderer (the scene and the camera are
    outside the model), load, build the mesh, draw the first frame
    (later frames come from [requestAnimationFrame]). *)
Definition init (s : t) (f : fetched SurfaceData) : completion t :=
  s' ← createSurface (load (setupRenderer s) f); animate s'.

End Animation.

(** *** createAxes *)

(** What [createAxes()] adds to the surface group: lines between two
    points and text sprites. *)
Definition point : Type := xnum * xnum * xnum.

Inductive scene_object : Type :=
| Line (from to : point)
| Sprite (text : string) (position : point) (scale : num * num * num)
         (color : string) (fontSize : nat).

(** [new THREE.Vector3(x, y, z)] for three numbers. *)
Definition Vector3 (x y z : num) : point := (Finite x, Finite y, Finite z).

(** [createTextSprite(text, position, { scale, color })]. *)
Definition createTextSprite (text : string) (position : point)
    (scale : num) (color : string) : scene_object :=
  Sprite text position ((4 * scale)%js, (1 * scale)%js, Fin 1) color 36.

(** [createAxes()], as the list of the objects it adds, in order. *)
Definition createAxes (cfg : Config) (baseHeights : list num)
    : list scene_object :=
  (let halfX := scaleX cfg / 2 in
   let halfZ := scaleY cfg / 2 in
   let maxH := Math_max_spread (filter (fun h => gt h 0) baseHeights) in
   let tickLen : num := 0.25 in
   let tickColor := "rgba(255, 255, 255, 0.55)" in
   let labelColor := "rgba(255, 76, 76, 0.85)" in
   [Line (Vector3 (0 - halfX) 0 halfZ) (Vector3 halfX 0 halfZ);
    Line (Vector3 halfX 0 (0 - halfZ)) (Vector3 halfX 0 halfZ);
    Line (Vector3 halfX 0 halfZ) (Finite halfX, xmul maxH 1.15, Finite halfZ)]
   ++
   flat_map (fun tick : num * string =>
               let x := (tick.1 - 0.5) * scaleX cfg in
               [Line (Vector3 x 0 halfZ) (Vector3 x 0 (halfZ + tickLen));
                createTextSprite tick.2 (Vector3 x (-0.4) (halfZ + 1.0))
                  0.35 tickColor])
            [(Fin 0, "25%"); (Fin 4 / Fin 8, "35%"); (Fin 1, "45%")]
   ++
   flat_map (fun tick : num * string =>
               let z := (tick.1 - 0.5) * scaleY cfg in
               [Line (Vector3 halfX 0 z) (Vector3 (halfX + tickLen) 0 z);
                createTextSprite tick.2 (Vector3 (halfX + 1.0) (-0.4) z)
                  0.35 tickColor])
            [(Fin 0, "1y"); (Fin 3 / Fin 5, "5y"); (Fin 1, "10y")]
   ++
   [createTextSprite "Obesity Threshold (Strike K)"
      (Vector3 0 (-1.0) (halfZ + 2.0)) 0.7 labelColor;
    createTextSprite "Horizon (Maturity T)"
      (Vector3 (halfX + 2.5) (-1.0) 0) 0.7 labelColor;
    createTextSprite "Implied σ"
      (Finite (halfX + 1.5), xmul maxH 0.6, Finite (halfZ + 1.0))
      0.6 labelColor])%js.

End VolatilitySurface.


(** ** js/project-visualizations.js *)

Module ProjectVisualizations.
Import JS.

(** SVG output: an element with its attributes in the order they are
    set, its text and its children. *)
Inductive attr : Type :=
| ANum (n : num)
| AStr (s : string).

#[local] Unset Elimination Schemes.
Inductive node : Type :=
| Element (tag : string) (attrs : list (string * attr))
          (text : option string) (children : list node).
#[local] Set Elimination Schemes.

Definition node_tag (n : node) : string :=
  match n with Element t _ _ _ => t end.
Definition node_attrs (n : node) : list (string * attr) :=
  match n with Element _ a _ _ => a end.
Definition node_text (n : node) : option string :=
  match n with Element _ _ x _ => x end.
Definition node_children (n : node) : list node :=
  match n with Element _ _ _ c => c end.

(** The value of attribute [name], if set. *)
Fixpoint attr_lookup (name : string) (attrs : list (string * attr))
    : option attr :=
  match attrs with
  | [] => None
  | (k, v) :: rest =>
      if String.eqb k name then Some v else attr_lookup name rest
  end.

(** [.attr(name, v)] on an element that exists already. *)
Fixpoint attr_set (name : string) (v : attr)
    (attrs : list (string * attr)) : list (string * attr) :=
  match attrs with
  | [] => [(name, v)]
  | (k, w) :: rest =>
      if String.eqb k name then (k, v) :: rest
      else (k, w) :: attr_set name v rest
  end.

Definition set_attr (name : string) (v : attr) (n : node) : node :=
  match n with
  | Element t a x c => Element t (attr_set name v a) x c
  end.

(** [.selectAll(tag).attr(name, v)]: every descendant with that tag. *)
Fixpoint selectAll_attr (tag name : string) (v : attr) (n : node) : node :=
  match n with
  | Element t a x cs =>
      Element t a x
        (map (fun c =>
                let c' := selectAll_attr tag name v c in
                if String.eqb (node_tag c') tag then set_attr name v c'
                else c')
             cs)
  end.

(** The parts of d3 the charts call.  A scale is given by its domain
    and its range; an axis decorates the group it is called on. *)
Class D3 : Type := {
  scaleLinear : num * num -> num * num -> num -> num;
  scaleSequential : num * num -> (num -> string) -> num -> string;
  interpolateReds : num -> string;
  d3_max : list num -> value;
  d3_min : list num -> value;
  line_curveMonotoneX : list (num * num) -> string;
  axisBottom : (num -> num) -> nat -> node -> node;
  axisLeft : (num -> num) -> nat -> node -> node
}.

(** *** BaseViz *)

Inductive console_entry : Type :=
| console_error (msg : string).

Record BaseViz (D : Type) : Type := {
  containerId : string;
  container : list node;
  data : option D;
  console : list console_entry
}.
Arguments containerId {D} _.
Arguments container {D} _.
Arguments data {D} _.
Arguments console {D} _.

Definition margin_top : num := 15.
Definition margin_right : num := 15.
Definition margin_bottom : num := 25.
Definition margin_left : num := 40.
Definition width : num := (300 - margin_left - margin_right)%js.
Definition height : num := (200 - margin_top - margin_bottom)%js.

Definition new {D : Type} (containerId : string) : BaseViz D :=
  {| containerId := containerId;
     container := [];
     data := None;
     console := [] |}.

(** [loadData(url)]. *)
Definition loadData {D : Type} (url : string) (f : fetched D)
    (s : BaseViz D) : BaseViz D :=
  match f with
  | Json d =>
      {| containerId := containerId s;
         container := container s;
         data := d;
         console := console s |}
  | FetchRejected | BodyNotJson =>
      {| containerId := containerId s;
         container := container s;
         data := data s;
         console := console s ++
           [console_error ("Error loading data from " +:+ url +:+ ":")] |}
  end.

Section Charts.
Context `{Host} `{D3}.

(** [clear()] followed by [createSVG()] and the appends to
    [this.svg]: the container holds one [svg] whose group has the
    given children. *)
Definition createSVG (children : list node) : node :=
  Element "svg"
    [("width", ANum (width + margin_left + margin_right)%js);
     ("height", ANum (height + margin_top + margin_bottom)%js)]
    None
    [Element "g"
       [("transform",
         AStr ("translate(" +:+ Number_toString margin_left +:+ "," +:+
               Number_toString margin_top +:+ ")"))]
       None children].

Definition draw {D : Type} (children : list node) (s : BaseViz D)
    : BaseViz D :=
  {| containerId := containerId s;
     container := [createSVG children];
     data := data s;
     console := console s |}.

(** *** KalmanViz *)

Record sample : Type := { s_time : Q; s_value : Q }.
Record signal : Type := { g_time : Q; g_value : Q; g_type : string }.
Record KalmanData : Type := {
  spread : list sample;
  signals : list signal
}.

Definition Kalman_children (d : KalmanData) : list node :=
  (let xScale :=
     scaleLinear (Fin 0, ToNumber (d3_max (map (fun p => Fin (s_time p)) (spread d))))
                 (Fin 0, width) in
   let yScale :=
     scaleLinear
       (ToNumber (d3_min (map (fun p => Fin (s_value p)) (spread d))) - 0.1,
        ToNumber (d3_max (map (fun p => Fin (s_value p)) (spread d))) + 0.1)
       (height, Fin 0) in
   [Element "line"
      [("x1", ANum 0); ("x2", ANum width);
       ("y1", ANum (yScale 0)); ("y2", ANum (yScale 0));
       ("stroke", AStr "#555"); ("stroke-width", ANum 1);
       ("stroke-dasharray", AStr "3,3")] None [];
    Element "rect"
      [("x", ANum 0); ("y", ANum 0); ("width", ANum width);
       ("height", ANum (yScale 0.5 - yScale 0.8));
       ("transform",
        AStr ("translate(0, " +:+ Number_toString (yScale 0.8) +:+ ")"));
       ("fill", AStr "#ff4c4c"); ("opacity", ANum 0.1)] None [];
    Element "rect"
      [("x", ANum 0); ("y", ANum (yScale (-0.5))); ("width", ANum width);
       ("height", ANum (yScale (-0.5) - yScale (-0.8)));
       ("fill", AStr "#4cff4c"); ("opacity", ANum 0.1)] None [];
    Element "path"
      [("fill", AStr "none"); ("stroke", AStr "#ff4c4c");
       ("stroke-width", ANum 2);
       ("d", AStr (line_curveMonotoneX
                     (map (fun p => (xScale (s_time p), yScale (s_value p)))
                          (spread d))))] None []]
   ++
   map (fun g =>
          let color :=
            if String.eqb (g_type g) "short" then "#ff4c4c"
            else if String.eqb (g_type g) "long" then "#4cff4c"
            else "#ffcc00" in
          let symbol :=
            if String.eqb (g_type g) "short" then "▼"
            else if String.eqb (g_type g) "long" then "▲"
            else "×" in
          Element "text"
            [("x", ANum (xScale (g_time g)));
             ("y", ANum (yScale (g_value g) - 8));
             ("text-anchor", AStr "middle"); ("fill", AStr color);
             ("font-size", AStr "14px"); ("font-weight", AStr "bold")]
            (Some symbol) [])
       (signals d)
   ++
   [selectAll_attr "text" "fill" (AStr "#ccc")
      (set_attr "color" (AStr "#888")
         (axisBottom xScale 5
            (Element "g"
               [("transform",
                 AStr ("translate(0," +:+ Number_toString height +:+ ")"))]
               None [])));
    selectAll_attr "text" "fill" (AStr "#ccc")
      (set_attr "color" (AStr "#888")
         (axisLeft yScale 5 (Element "g" [] None [])));
    Element "text"
      [("x", ANum (width / 2)); ("y", ANum (height + 20));
       ("text-anchor", AStr "middle"); ("fill", AStr "#aaa");
       ("font-size", AStr "10px")] (Some "Time (days)") [];
    Element "text"
      [("transform", AStr "rotate(-90)");
       ("x", ANum (0 - height / 2)); ("y", ANum (-28));
       ("text-anchor", AStr "middle"); ("fill", AStr "#aaa");
       ("font-size", AStr "10px")] (Some "Spread") [];
    Element "text"
      [("x", ANum (width / 2)); ("y", ANum (-5));
       ("text-anchor", AStr "middle"); ("fill", AStr "#ff4c4c");
       ("font-size", AStr "11px"); ("font-weight", AStr "bold")]
      (Some "Kalman Filter Spread Tracking") []])%js.

Definition Kalman_render (s : BaseViz KalmanData) (d : KalmanData)
    : BaseViz KalmanData :=
  draw (Kalman_children d) s.

(** [KalmanViz.init()]. *)
Definition Kalman_init (f : fetched KalmanData) (s : BaseViz KalmanData)
    : BaseViz KalmanData :=
  let s' := loadData "data/kalman-data.json" f s in
  match data s' with
  | Some d => Kalman_render s' d
  | None => s'
  end.

(** *** MarkovViz *)

Record state_probability : Type := {
  sp_state : string;
  sp_probability : Q
}.
Record MarkovData : Type := {
  transitionMatrix : list (list Q);
  states : list string;
  stateDistribution : list state_probability
}.

Definition heatmapHeight : num := Math_max (height * 0.55)%js 60.
Definition barChartHeight : num := Math_max (height * 0.35)%js 40.
Definition gap : num := (height * 0.10)%js.
Definition cellSize : num :=
  Math_min (width / 2.5)%js (heatmapHeight / 2.5)%js.

Definition colorScale : num -> string :=
  scaleSequential (Fin 0, Fin 1) interpolateReds.

(** The rectangle and the label of the cell in row [i], column [j]. *)
Definition heatmap_cell (i j : nat) (value : Q) : list node :=
  (let x := of_nat j * cellSize + (width - cellSize * 2) / 2 in
   let y := of_nat i * cellSize in
   [Element "rect"
      [("x", ANum x); ("y", ANum y);
       ("width", ANum cellSize); ("height", ANum cellSize);
       ("fill", AStr (colorScale value));
       ("stroke", AStr "#333"); ("stroke-width", ANum 1)] None [];
    Element "text"
      [("x", ANum (x + cellSize / 2));
       ("y", ANum (y + cellSize / 2 + 5));
       ("text-anchor", AStr "middle");
       ("fill", AStr (if gt value 0.5 then "#fff" else "#333"));
       ("font-size", AStr "14px"); ("font-weight", AStr "bold")]
      (Some (toFixed value 2)) []])%js.

(** The row label and the column label of state [i]. *)
Definition state_labels (i : nat) (state : string) : list node :=
  ([Element "text"
      [("x", ANum ((width - cellSize * 2) / 2 - 5));
       ("y", ANum (of_nat i * cellSize + cellSize / 2 + 4));
       ("text-anchor", AStr "end"); ("fill", AStr "#ccc");
       ("font-size", AStr "9px")] (Some (first_word state)) [];
    Element "text"
      [("x", ANum (of_nat i * cellSize + cellSize / 2 +
                   (width - cellSize * 2) / 2));
       ("y", ANum (-5));
       ("text-anchor", AStr "middle"); ("fill", AStr "#ccc");
       ("font-size", AStr "9px")] (Some (first_word state)) []])%js.

(** The children of [heatmapGroup], in the order they are appended. *)
Definition heatmapGroup (d : MarkovData) : list node :=
  concat (imap (fun i row => concat (imap (heatmap_cell i) row))
               (transitionMatrix d))
  ++ concat (imap state_labels (states d))
  ++ [Element "text"
        [("x", ANum (width / 2)%js); ("y", ANum (-15));
         ("text-anchor", AStr "middle"); ("fill", AStr "#ff4c4c");
         ("font-size", AStr "11px"); ("font-weight", AStr "bold")]
        (Some "Transition Probability Matrix") []].

(** The bar, the percentage label and the state label of entry [i]
    of a distribution with [n] entries. *)
Definition bar (n : nat) (i : nat) (d : state_probability) : list node :=
  (let barWidth := width / of_nat n - 10 in
   let barScale := scaleLinear (Fin 0, Fin 1) (Fin 0, barChartHeight) in
   let x := of_nat i * (barWidth + 10) +
            (width - (barWidth + 10) * of_nat n + 10) / 2 in
   let barHeight := Math_max 0 (barScale (sp_probability d)) in
   [Element "rect"
      [("x", ANum x);
       ("y", ANum (Math_max 0 (barChartHeight - barHeight)));
       ("width", ANum (Math_max 0 barWidth));
       ("height", ANum barHeight);
       ("fill", AStr (if (i =? 0)%nat then "#4cff4c" else "#ff4c4c"));
       ("opacity", ANum 0.7)] None [];
    Element "text"
      [("x", ANum (x + barWidth / 2));
       ("y", ANum (barChartHeight - barHeight - 5));
       ("text-anchor", AStr "middle"); ("fill", AStr "#ccc");
       ("font-size", AStr "10px"); ("font-weight", AStr "bold")]
      (Some (toFixed (sp_probability d * 100) 1 +:+ "%")) [];
    Element "text"
      [("x", ANum (x + barWidth / 2));
       ("y", ANum (barChartHeight + 12));
       ("text-anchor", AStr "middle"); ("fill", AStr "#aaa");
       ("font-size", AStr "9px")]
      (Some (first_word (sp_state d))) []])%js.

(** The children of [barChartGroup], in the order they are appended. *)
Definition barChartGroup (d : MarkovData) : list node :=
  concat (imap (bar (length (stateDistribution d))) (stateDistribution d))
  ++ [Element "text"
        [("x", ANum (width / 2)%js); ("y", ANum (-5));
         ("text-anchor", AStr "middle"); ("fill", AStr "#aaa");
         ("font-size", AStr "9px")]
        (Some "Steady-State Distribution") []].

Definition Markov_children (d : MarkovData) : list node :=
  [Element "g" [] None (heatmapGroup d);
   Element "g"
     [("transform",
       AStr ("translate(0, " +:+
             Number_toString (heatmapHeight + gap)%js +:+ ")"))]
     None (barChartGroup d)].

Definition Markov_render (s : BaseViz MarkovData) (d : MarkovData)
    : BaseViz MarkovData :=
  draw (Markov_children d) s.

(** [MarkovViz.init()]. *)
Definition Markov_init (f : fetched MarkovData) (s : BaseViz MarkovData)
    : BaseViz MarkovData :=
  let s' := loadData "data/markov-data.json" f s in
  match data s' with
  | Some d => Markov_render s' d
  | None => s'
  end.

End Charts.

End ProjectVisualizations.

(** ** main.js *)

Module Main.

(** *** The timers of the window *)

(** [setTimeout] and [clearTimeout] work on the timers the window
    holds: those set and neither run nor cleared yet, each with its
    handle, the time at which it falls due and its callback.  Times are
    in milliseconds; [clock] is the time now. *)
Record window (C : Type) : Type := {
  clock : nat;
  next_handle : nat;
  pending : list (nat * (nat * C))
}.
Arguments clock {C} _.
Arguments next_handle {C} _.
Arguments pending {C} _.

Definition fresh_window {C : Type} : window C :=
  {| clock := 0; next_handle := 1; pending := [] |}.

Definition setTimeout {C : Type} (callback : C) (delay : nat) (w : window C)
    : nat * window C :=
  (next_handle w,
   {| clock := clock w;
      next_handle := S (next_handle w);
      pending :=
        pending w ++ [(next_handle w, ((clock w + delay)%nat, callback))] |}).

(** [clearTimeout(handle)]; [None] is [undefined].  A handle that is
    not pending clears nothing. *)
Definition clearTimeout {C : Type} (handle : option nat) (w : window C)
    : window C :=
  match handle with
  | None => w
  | Some h =>
      {| clock := clock w;
         next_handle := next_handle w;
         pending := filter (fun e => e.1 <> h) (pending w) |}
  end.

Definition elapse {C : Type} (ms : nat) (w : window C) : window C :=
  {| clock := (clock w + ms)%nat;
     next_handle := next_handle w;
     pending := pending w |}.

Fixpoint timer {C : Type} (handle : nat) (l : list (nat * (nat * C)))
    : option (nat * C) :=
  match l with
  | [] => None
  | (h, e) :: l' => if (h =? handle)%nat then Some e else timer handle l'
  end.

(** The window takes a timer off its list to run the callback.  It does
    so only for a timer that is pending and due. *)
Definition take {C : Type} (handle : nat) (w : window C)
    : option (C * window C) :=
  match timer handle (pending w) with
  | Some (due, callback) =>
      if (due <=? clock w)%nat
      then Some (callback, clearTimeout (Some handle) w)
      else None
  | None => None
  end.

(** *** debounce *)

(** [debounce(func, wait)] returns [executedFunction], which shares the
    variable [timeout] with the closures [later] it makes.  [timeout]
    is passed in and out; [callback args] is the closure [later] of a
    call with [args], as the window stores it, and [later] is what
    running it does. *)
Section Debounce.
Context {Args C U : Type}.
Variable func : Args -> window C * U -> window C * U.
Variable wait : nat.
Variable callback : Args -> C.

Definition later (args : Args) (timeout : option nat) (s : window C * U)
    : window C * U :=
  func args (clearTimeout timeout s.1, s.2).

Definition executedFunction (args : Args) (timeout : option nat)
    (w : window C) : option nat * window C :=
  let w := clearTimeout timeout w in
  let (h, w) := setTimeout (callback args) wait w in
  (Some h, w).

End Debounce.

(** A debounced function on its own: [func] works on a state [U] of its
    own and sets no timers.  The events are the calls of the debounced
    function, the passing of time and the window running a timer. *)
Module Debounced.
Section Debounced.
Context {Args U : Type}.
Variable func : Args -> U -> U.
Variable wait : nat.

Record t : Type := {
  timeout : option nat;
  win : window Args;
  user : U
}.

Inductive event : Type :=
| Call (args : Args)
| Elapse (ms : nat)
| Run (handle : nat).

Definition new (u : U) : t :=
  {| timeout := None; win := fresh_window; user := u |}.

Definition step (e : event) (s : t) : option t :=
  match e with
  | Call args =>
      let (timeout', w) := executedFunction wait id args (timeout s) (win s) in
      Some {| timeout := timeout'; win := w; user := user s |}
  | Elapse ms =>
      Some {| timeout := timeout s; win := elapse ms (win s); user := user s |}
  | Run handle =>
      match take handle (win s) with
      | Some (args, w) =>
          let (w, u) :=
            later (fun a s => (s.1, func a s.2)) args (timeout s) (w, user s) in
          Some {| timeout := timeout s; win := w; user := u |}
      | None => None
      end
  end.

Definition run (events : list event) (s : t) : option t :=
  foldl (fun s e => s ≫= step e) (Some s) events.

End Debounced.
Arguments t : clear implicits.
Arguments event : clear implicits.
Arguments Elapse {Args} ms.
Arguments Run {Args} handle.
End Debounced.

(** *** setupProjectInteractions *)

(** The inline style of a chart container, as far as the listeners
    write it. *)
Record style : Type := {
  opacity : string;
  pointerEvents : string
}.

Definition shown : style := {| opacity := "1"; pointerEvents := "auto" |}.
Definition hidden : style := {| opacity := "0"; pointerEvents := "none" |}.

(** What the [click] listener asks of [e.target]. *)
Record target : Type := {
  tagName : string;
  closest_a : bool
}.

(** The variables of the listeners one run of
    [setupProjectInteractions] adds to a card: [isHovering] and the
    [timeout] of the debounced [mouseenter] listener on a window wider
    than 768, [isVisible] otherwise. *)
Inductive closure : Type :=
| Hover (isHovering : bool) (timeout : option nat)
| Tap (isVisible : bool).

(** The callbacks the listeners of a card give to [setTimeout]; [k]
    tells of which run they are. *)
Inductive callback : Type :=
| Later (k : nat)   (* the closure [later] of the debounced listener *)
| Reveal (k : nat). (* the arrow function of the inner [setTimeout] *)

(** One card: its chart container, if it has one, the listeners added
    so far, oldest first, and for every click whether a listener
    called [preventDefault]. *)
Record card : Type := {
  vizContainer : option style;
  listeners : list closure;
  defaultPrevented : list bool
}.

Record page : Type := {
  win : window callback;
  this : card
}.

Definition new (vizContainer : option style) : page :=
  {| win := fresh_window;
     this := {| vizContainer := vizContainer;
                listeners := [];
                defaultPrevented := [] |} |}.

Definition set_style (v : style) (c : card) : card :=
  {| vizContainer := Some v;
     listeners := listeners c;
     defaultPrevented := defaultPrevented c |}.

Definition set_listener (k : nat) (l : closure) (c : card) : card :=
  {| vizContainer := vizContainer c;
     listeners := <[k := l]> (listeners c);
     defaultPrevented := defaultPrevented c |}.

(** The card's part of [setupProjectInteractions]. *)
Definition setupProjectInteractions (innerWidth : Q) (c : card) : card :=
  match vizContainer c with
  | None => c
  | Some _ =>
      {| vizContainer := vizContainer c;
         listeners :=
           listeners c ++
           [if Qlt_le_dec 768 innerWidth then Hover false None else Tap false];
         defaultPrevented := defaultPrevented c |}
  end.

(** The function given to [debounce] by run [k]. *)
Definition mouseenter (k : nat) (_ : unit) (s : window callback * card)
    : window callback * card :=
  let c :=
    match listeners s.2 !! k with
    | Some (Hover _ timeout) => set_listener k (Hover true timeout) s.2
    | _ => s.2
    end in
  let (_, w) := setTimeout (Reveal k) 100 s.1 in
  (w, c).

Definition reveal (k : nat) (c : card) : card :=
  match listeners c !! k with
  | Some (Hover true _) => set_style shown c
  | _ => c
  end.

(** The listeners of run [k], each a no-op on a run that did not add
    it. *)
Definition on_mouseenter (s : page) (k : nat) : page :=
  match listeners (this s) !! k with
  | Some (Hover isHovering timeout) =>
      let (timeout', w) :=
        executedFunction 50 (fun _ : unit => Later k) tt timeout (win s) in
      {| win := w;
         this := set_listener k (Hover isHovering timeout') (this s) |}
  | _ => s
  end.

Definition on_mouseleave (s : page) (k : nat) : page :=
  match listeners (this s) !! k with
  | Some (Hover _ timeout) =>
      {| win := win s;
         this := set_style hidden (set_listener k (Hover false timeout) (this s)) |}
  | _ => s
  end.

Definition on_click (e : target) (s : card * bool) (k : nat) : card * bool :=
  match listeners s.1 !! k with
  | Some (Tap isVisible) =>
      if String.eqb (tagName e) "A" || closest_a e then s
      else
        let isVisible' := negb isVisible in
        (set_style (if isVisible' then shown else hidden)
           (set_listener k (Tap isVisible') s.1),
         true)
  | _ => s
  end.

(** An event reaches the listeners in the order in which they were
    added. *)
Definition dispatch {S : Type} (f : S -> nat -> S) (c : card) (s : S) : S :=
  foldl f s (seq 0 (length (listeners c))).

Inductive event : Type :=
| Setup (innerWidth : Q)
| MouseEnter
| MouseLeave
| Click (e : target)
| Elapse (ms : nat)
| Run (handle : nat).

Definition step (e : event) (s : page) : option page :=
  match e with
  | Setup innerWidth =>
      Some {| win := win s; this := setupProjectInteractions innerWidth (this s) |}
  | MouseEnter => Some (dispatch on_mouseenter (this s) s)
  | MouseLeave => Some (dispatch on_mouseleave (this s) s)
  | Click e =>
      let (c, prevented) := dispatch (on_click e) (this s) (this s, false) in
      Some {| win := win s;
              this := {| vizContainer := vizContainer c;
                         listeners := listeners c;
                         defaultPrevented := defaultPrevented c ++ [prevented] |} |}
  | Elapse ms => Some {| win := elapse ms (win s); this := this s |}
  | Run handle =>
      match take handle (win s) with
      | Some (Later k, w) =>
          let timeout :=
            match listeners (this s) !! k with
            | Some (Hover _ timeout) => timeout
            | _ => None
            end in
          let (w, c) := later (mouseenter k) tt timeout (w, this s) in
          Some {| win := w; this := c |}
      | Some (Reveal k, w) => Some {| win := w; this := reveal k (this s) |}
      | None => None
      end
  end.

Definition run (events : list event) (s : page) : option page :=
  foldl (fun s e => s ≫= step e) (Some s) events.

(** *** initializeWhenReady *)

Module Boot.

Inductive console_entry : Type :=
| console_log (msg : string)
| console_error (msg : string).

(** What a run of [initializeWhenReady] finds: whether [THREE] and [d3]
    are defined, and whether each constructor returns or throws. *)
Record host : Type := {
  THREE : bool;
  d3 : bool;
  new_VolatilitySurface : bool;
  new_KalmanViz : bool;
  new_MarkovViz : bool
}.

(** The globals, [true] for an instance and [false] for [null]. *)
Record globals : Type := {
  volatilitySurface : bool;
  kalmanViz : bool;
  markovViz : bool
}.

(** The globals; the console; how many promises of
    [volatilitySurface.init()] are awaited by a [then] callback; how
    often [setupProjectInteractions] has run; the timers. *)
Record app : Type := {
  vars : globals;
  console : list console_entry;
  awaited : nat;
  interactions : nat;
  win : window unit
}.

Definition new : app :=
  {| vars := {| volatilitySurface := false;
                kalmanViz := false;
                markovViz := false |};
     console := [];
     awaited := 0;
     interactions := 0;
     win := fresh_window |}.

Definition say (e : console_entry) (s : app) : app :=
  {| vars := vars s;
     console := console s ++ [e];
     awaited := awaited s;
     interactions := interactions s;
     win := win s |}.

Definition assign (g : globals) (s : app) : app :=
  {| vars := g;
     console := console s;
     awaited := awaited s;
     interactions := interactions s;
     win := win s |}.

(** The first [try]. *)
Definition surface (h : host) (s : app) : app :=
  if new_VolatilitySurface h
  then
    let s := assign {| volatilitySurface := true;
                       kalmanViz := kalmanViz (vars s);
                       markovViz := markovViz (vars s) |} s in
    {| vars := vars s;
       console := console s;
       awaited := S (awaited s);
       interactions := interactions s;
       win := win s |}
  else say (console_error "Error initializing Three.js surface:") s.

(** The second [try]. *)
Definition charts (h : host) (s : app) : app :=
  if new_KalmanViz h
  then
    let s := assign {| volatilitySurface := volatilitySurface (vars s);
                       kalmanViz := true;
                       markovViz := markovViz (vars s) |} s in
    if new_MarkovViz h
    then
      let s := assign {| volatilitySurface := volatilitySurface (vars s);
                         kalmanViz := kalmanViz (vars s);
                         markovViz := true |} s in
      say (console_log "✓ D3.js visualizations initialized") s
    else say (console_error "Error initializing D3.js visualizations:") s
  else say (console_error "Error initializing D3.js visualizations:") s.

Definition interact (s : app) : app :=
  {| vars := vars s;
     console := console s;
     awaited := awaited s;
     interactions := S (interactions s);
     win := win s |}.

Definition initializeWhenReady (h : host) (s : app) : app :=
  if negb (THREE h) || negb (d3 h)
  then
    let s := say (console_log "Waiting for libraries to load...") s in
    let (_, w) := setTimeout tt 100 (win s) in
    {| vars := vars s;
       console := console s;
       awaited := awaited s;
       interactions := interactions s;
       win := w |}
  else
    let s := say (console_log "Initializing Quant Portfolio...") s in
    let s := surface h s in
    let s := charts h s in
    let s := interact s in
    say (console_log "✓ Portfolio initialization complete") s.

(** The document fires [DOMContentLoaded]; time passes; the window runs
    a timer; a promise of [init()] is fulfilled and its [then] callback
    runs.  [h] is what [initializeWhenReady] finds when it runs. *)
Inductive event : Type :=
| DOMContentLoaded (h : host)
| Elapse (ms : nat)
| Run (handle : nat) (h : host)
| Fulfilled.

Definition step (e : event) (s : app) : option app :=
  match e with
  | DOMContentLoaded h => Some (initializeWhenReady h s)
  | Elapse ms =>
      Some {| vars := vars s;
              console := console s;
              awaited := awaited s;
              interactions := interactions s;
              win := elapse ms (win s) |}
  | Run handle h =>
      match take handle (win s) with
      | Some (_, w) =>
          Some (initializeWhenReady h
                  {| vars := vars s;
                     console := console s;
                     awaited := awaited s;
                     interactions := interactions s;
                     win := w |})
      | None => None
      end
  | Fulfilled =>
      match awaited s with
      | O => None
      | S n =>
          Some (say (console_log "✓ Three.js volatility surface initialized")
                  {| vars := vars s;
                     console := console s;
                     awaited := n;
                     interactions := interactions s;
                     win := win s |})
      end
  end.

Definition run (events : list event) (s : app) : option app :=
  foldl (fun s e => s ≫= step e) (Some s) events.

End Boot.

End Main.

(** ** Vocabulary of the statements *)

Import JS VolatilitySurface.

(** A natural number as a rational. *)
Definition Qn (n : nat) : Q := inject_Z (Z.of_nat n).

(** The stored value of row [y], column [x] of a grid, if there is one. *)
Definition stored (grid : list (list Q)) (y x : Z) : option Q :=
  if ((0 <=? y) && (0 <=? x))%Z
  then row ← grid !! Z.to_nat y; row !! Z.to_nat x
  else None.

(** A grid of [R] rows that all have [C] columns. *)
Definition rectangular (grid : list (list Q)) (R C : nat) : Prop :=
  length grid = R /\ Forall (fun row => length row = C) grid.

(** [grid[y][x]] at integers [y], [x]. *)
Definition cell (grid : list (list Q)) (y x : Z) : completion value :=
  match (if (0 <=? y)%Z then grid !! Z.to_nat y else None) with
  | None => Throw TypeError
  | Some row =>
      Normal (match (if (0 <=? x)%Z then row !! Z.to_nat x else None) with
              | Some q => Num (Fin q)
              | None => Undefined
              end)
  end.

(** *** binary64 vocabulary *)

(** The binary64 number nearest to [q], as a rational: what
    [IEEE.binary64 q] holds when it does not overflow. *)
Definition r64 (q : Q) : Q := Qred (IEEE.round_finite 53 (-1074) q).

(** Half the smallest positive binary64 number: the largest rounding
    error of a subnormal result. *)
Definition eta : Q := 2 ^ (-1075).

(** Results below [huge] in magnitude do not overflow. *)
Definition huge : Q := 2 ^ 1023.

(** The largest magnitude of a stored grid value the statements about
    binary64 results cover. *)
Definition limit : Q := 2 ^ 1000.

Definition bounded (grid : list (list Q)) : Prop :=
  Forall (Forall (fun q => - limit <= q <= limit)) grid.

(** The sample position [t * (n - 1)] as the program computes it. *)
Definition sample_position (t : Q) (n : nat) : IEEE.value :=
  Binary64.mul (IEEE.Fin t) (Binary64.sub (IEEE.Fin (Qn n)) (IEEE.Fin 1)).

(** The computed position is a number inside the index range. *)
Definition in_range (t : Q) (n : nat) : Prop :=
  exists g : Q, sample_position t n = IEEE.Fin g /\ 0 <= g /\ g < Qn n.

(** The normalised coordinate [k / n] of the mesh loops. *)
Definition coord (k n : nat) : num := (of_nat k / of_nat n)%js.

(** The height computed for the vertex in row [i], column [j]. *)
Definition height_at (cfg : Config) (grid : option (list (list Q)))
    (nRows nCols : num) (i j : nat) : completion num :=
  VolatilitySurface.height cfg grid nRows nCols
    (coord j (renderGrid_x cfg)) (coord i (renderGrid_y cfg)).

Definition height_or_NaN (cfg : Config) (grid : option (list (list Q)))
    (nRows nCols : num) (i j : nat) : num :=
  match height_at cfg grid nRows nCols i j with
  | Normal z => z
  | Throw _ => NaN
  end.

(** The three numbers pushed to [vertices] for row [i], column [j]. *)
Definition vertex_triple (cfg : Config) (grid : option (list (list Q)))
    (nRows nCols : num) (i j : nat) : list num :=
  [((coord j (renderGrid_x cfg) - 0.5) * scaleX cfg)%js;
   height_or_NaN cfg grid nRows nCols i j;
   ((coord i (renderGrid_y cfg) - 0.5) * scaleY cfg)%js].

(** The index of the vertex in row [i], column [j]. *)
Definition vertex_index (cfg : Config) (i j : nat) : nat :=
  (i * (renderGrid_x cfg + 1) + j)%nat.

(** [grid], [nRows] and [nCols] as [createSurface] computes them. *)
Definition grid_of (s : t) : option (list (list Q)) :=
  surface_grid <$> surfaceData s.

Definition nRows_of (s : t) : num :=
  match grid_of s with
  | Some g => of_nat (length g)
  | None => Fin 0
  end.

Definition nCols_of (s : t) : completion num :=
  match grid_of s with
  | Some g =>
      match g !! 0%nat with
      | Some row => mret (of_nat (length row))
      | None => Throw TypeError
      end
  | None => mret (Fin 0)
  end.

(** The wireframe index list of a [gridX] by [gridY] render grid. *)
Definition wireframe (gridX gridY : nat) : list nat :=
  foldl (fun acc i => foldl (fun acc j => index_step gridX i j acc)
                            acc (seq 0 gridX))
        [] (seq 0 gridY).

(** A surface with another render grid and the default constants. *)
Definition with_renderGrid (x y : nat) (s : t) : t :=
  {| config :=
       {| renderGrid_x := x;
          renderGrid_y := y;
          rotation_x := rotation_x (config s);
          rotation_y := rotation_y (config s);
          waveSpeed := waveSpeed (config s);
          waveAmplitude := waveAmplitude (config s);
          color := color (config s);
          opacity := opacity (config s);
          scaleX := scaleX (config s);
          scaleY := scaleY (config s);
          scaleZ := scaleZ (config s) |};
     renderer := renderer s;
     surfaceData := surfaceData s;
     baseHeights := baseHeights s;
     surface := surface s;
     surfaceGroup := surfaceGroup s;
     time := time s;
     console := console s |}.

(** The dataset, when there is one, is a grid of at least 2 by 2. *)
Definition well_formed (s : t) : Prop :=
  forall d, surfaceData s = Some d ->
    exists R C : nat,
      (2 <= R)%nat /\ (2 <= C)%nat /\ rectangular (surface_grid d) R C.





(** A stand-in host, to run the definitions on examples. *)
Definition example_host : Host :=
  {| Math_sin := fun x => x;
     Math_cos := fun _ => Fin 1;
     Number_toString := fun _ => "" |}.


(** A 2 by 2 dataset. *)
Definition example_data : SurfaceData :=
  {| metadata := Some {| title := "example" |};
     surface_grid := [[1; 2]; [3; 4]] |}.


(** The fallback height in the words of the specification:
    [z = (smile(u) + term(v)) * 2] with
    [smile(u) = ((u - 0.5) * 2)^2 * 1.5] and [term(v) = v * 0.5]. *)
Definition smile (u : Q) : Q := ((u - 0.5) * 2) ^ 2 * 1.5.
Definition term (v : Q) : Q := v * 0.5.

(** A stand-in for d3 in exact arithmetic, to run the charts on
    examples: linear scales as d3 documents them, a constant colour. *)
Definition example_d3 : ProjectVisualizations.D3 :=
  {| ProjectVisualizations.scaleLinear := fun d r x =>
       (let t := (x - d.1) / (d.2 - d.1) in r.1 * (Fin 1 - t) + r.2 * t)%js;
     ProjectVisualizations.scaleSequential := fun d interpolator x =>
       interpolator ((x - d.1) / (d.2 - d.1))%js;
     ProjectVisualizations.interpolateReds := fun _ => "rgb(103, 0, 13)";
     ProjectVisualizations.d3_max := fun xs =>
       match xs with
       | [] => Undefined
       | x :: rest => Num (foldl Math_max x rest)
       end;
     ProjectVisualizations.d3_min := fun xs =>
       match xs with
       | [] => Undefined
       | x :: rest => Num (foldl Math_min x rest)
       end;
     ProjectVisualizations.line_curveMonotoneX := fun _ => "";
     ProjectVisualizations.axisBottom := fun _ _ g => g;
     ProjectVisualizations.axisLeft := fun _ _ g => g |}.

(** The matrix and the states of the 2 by 2 example of the charts. *)
Definition example_markov (dist : list ProjectVisualizations.state_probability)
    : ProjectVisualizations.MarkovData :=
  {| ProjectVisualizations.transitionMatrix := [[0.7; 0.3]; [0.4; 0.6]];
     ProjectVisualizations.states := ["Up"; "Down"];
     ProjectVisualizations.stateDistribution := dist |}.

(** Tag, fill and text of an element. *)
Definition summary (n : ProjectVisualizations.node)
    : string * option ProjectVisualizations.attr * option string :=
  (ProjectVisualizations.node_tag n,
   ProjectVisualizations.attr_lookup "fill" (ProjectVisualizations.node_attrs n),
   ProjectVisualizations.node_text n).

Definition is_rect (n : ProjectVisualizations.node) : bool :=
  String.eqb (ProjectVisualizations.node_tag n) "rect".

(** A distribution with probabilities outside [[0,1]]. *)
Definition example_distribution : list ProjectVisualizations.state_probability :=
  [ {| ProjectVisualizations.sp_state := "Up";
       ProjectVisualizations.sp_probability := 1.5 |};
    {| ProjectVisualizations.sp_state := "Down";
       ProjectVisualizations.sp_probability := -0.5 |} ].

(** The four index entries [createSurface] pushes for the cell in row
    [i], column [j]. *)
Definition cell_segments (gridX i j : nat) : list nat :=
  let a := (i * (gridX + 1) + j)%nat in
  [a; (a + gridX + 1)%nat; a; (a + 1)%nat].

(** The rational the synthetic fallback computes at [(u, v)]. *)
Definition synthetic_value (u v : Q) : Q :=
  ((u - 0.5) * 2 * ((u - 0.5) * 2 * 1) * 1.5 + v * 0.5) * 2.

(** A surface state in which only the clock differs. *)
Definition with_time (t' : num) (s : t) : t :=
  {| config := config s;
     renderer := renderer s;
     surfaceData := surfaceData s;
     baseHeights := baseHeights s;
     surface := surface s;
     surfaceGroup := surfaceGroup s;
     time := t';
     console := console s |}.

(** *** Histories of events *)

(** The time at the end of a history of a debounced function, and the
    time and arguments of its latest call. *)
Definition debounce_history {Args : Type}
    (events : list (Main.Debounced.event Args)) : nat * option (nat * Args) :=
  foldl (fun h e =>
           match e with
           | Main.Debounced.Call a => (h.1, Some (h.1, a))
           | Main.Debounced.Elapse ms => ((h.1 + ms)%nat, h.2)
           | Main.Debounced.Run _ => h
           end)
        (0%nat, None) events.

Definition is_call {Args : Type} (e : Main.Debounced.event Args) : bool :=
  match e with Main.Debounced.Call _ => true | _ => false end.

Definition is_run {Args : Type} (e : Main.Debounced.event Args) : bool :=
  match e with Main.Debounced.Run _ => true | _ => false end.

Definition calls {Args : Type} (events : list (Main.Debounced.event Args))
    : nat :=
  length (filter is_call events).

Definition runs {Args : Type} (events : list (Main.Debounced.event Args))
    : nat :=
  length (filter is_run events).

(** What holds after every history of a debounced function: the clock,
    the single timer of the latest call, if it has not run yet, and the
    count of runs. *)
Definition debounce_invariant {Args U : Type} (wait : nat)
    (events : list (Main.Debounced.event Args)) (s : Main.Debounced.t Args U)
    : Prop :=
  Main.clock (Main.Debounced.win s) = (debounce_history events).1 /\
  (Main.pending (Main.Debounced.win s) = [] \/
   exists (h t0 : nat) (a : Args),
     Main.pending (Main.Debounced.win s) = [(h, ((t0 + wait)%nat, a))] /\
     Main.Debounced.timeout s = Some h /\
     (debounce_history events).2 = Some (t0, a)) /\
  (runs events + length (Main.pending (Main.Debounced.win s))
   <= calls events)%nat.

(** The time a history of a card takes, and the time of its first
    [mouseenter]. *)
Fixpoint time_after (t : nat) (events : list Main.event) : nat :=
  match events with
  | [] => t
  | Main.Elapse ms :: events => time_after (t + ms) events
  | _ :: events => time_after t events
  end.

Fixpoint first_enter (t : nat) (events : list Main.event) : option nat :=
  match events with
  | [] => None
  | Main.MouseEnter :: _ => Some t
  | Main.Elapse ms :: events => first_enter (t + ms) events
  | _ :: events => first_enter t events
  end.

Definition is_hover (l : Main.closure) : bool :=
  match l with Main.Hover _ _ => true | Main.Tap _ => false end.

Definition wide (innerWidth : Q) : bool :=
  if Qlt_le_dec 768 innerWidth then true else false.

(** The runs of [setupProjectInteractions] in a history: for each,
    whether the window was wider than 768. *)
Fixpoint setups (events : list Main.event) : list bool :=
  match events with
  | [] => []
  | Main.Setup innerWidth :: events => wide innerWidth :: setups events
  | _ :: events => setups events
  end.



Section CardVocabulary.

Import Main.

Definition kinds_are (K : list bool) (c : card) : Prop :=
  is_hover <$> listeners c = K /\ vizContainer c <> None.

Definition delay_of (cb : callback) : nat :=
  match cb with Later _ => 50%nat | Reveal _ => 150%nat end.

(** [since T d t]: the first [mouseenter] was at least [d] before
    [t]. *)
Definition since (T : option nat) (d t : nat) : Prop :=
  exists t1 : nat, T = Some t1 /\ (t1 + d <= t)%nat.

(** What holds of a card whose listeners are all hover listeners. *)
Definition hover_invariant (T : option nat) (s : page) : Prop :=
  (forall h due cb,
      (h, (due, cb)) ∈ pending (win s) -> since T (delay_of cb) due) /\
  (forall k t,
      listeners (this s) !! k = Some (Hover true t) ->
      since T 50 (clock (win s))) /\
  (forall sty,
      vizContainer (this s) = Some sty -> opacity sty = "1" ->
      since T 150 (clock (win s))) /\
  (forall k b, listeners (this s) !! k <> Some (Tap b)).

(** A card with the hover listeners of one set-up. *)
Definition one_hover (w : window callback) (v : style) (b : bool)
    (t : option nat) (p : list bool) : page :=
  {| win := w;
     this := {| vizContainer := Some v;
                listeners := [Hover b t];
                defaultPrevented := p |} |}.


End CardVocabulary.

Definition waiting : Main.Boot.console_entry :=
  Main.Boot.console_log "Waiting for libraries to load...".

Definition is_loaded (e : Main.Boot.event) : bool :=
  match e with Main.Boot.DOMContentLoaded _ => true | _ => false end.

(** Both libraries missing at [DOMContentLoaded]; [d3] still missing
    100 ms later; both there after another 120 ms, when the
    constructor of the Kalman chart throws. *)
Definition example_libraries (THREE d3 charts : bool) : Main.Boot.host :=
  {| Main.Boot.THREE := THREE;
     Main.Boot.d3 := d3;
     Main.Boot.new_VolatilitySurface := true;
     Main.Boot.new_KalmanViz := charts;
     Main.Boot.new_MarkovViz := true |}.

Definition example_polls : list Main.Boot.event :=
  [Main.Boot.Elapse 100;
   Main.Boot.Run 1 (example_libraries true false true);
   Main.Boot.Elapse 120;
   Main.Boot.Run 2 (example_libraries true true false);
   Main.Boot.Fulfilled].

Section BootVocabulary.

Import Main.
Import Main.Boot.

(** The page before and after the libraries are found, [W] polls
    having found one missing. *)
Definition polling (W : nat) (s : app) : Prop :=
  interactions s = 0%nat /\ awaited s = 0%nat /\
  vars s = vars new /\
  console s = repeat waiting W /\
  exists handle due : nat,
    pending (win s) = [(handle, (due, tt))] /\ (100 * W <= due)%nat.

Definition initialized (W : nat) (s : app) : Prop :=
  interactions s = 1%nat /\
  pending (win s) = [] /\
  (100 * W <= clock (win s))%nat /\
  (markovViz (vars s) = true -> kalmanViz (vars s) = true) /\
  exists rest : list console_entry,
    console s = repeat waiting W
                ++ console_log "Initializing Quant Portfolio..." :: rest /\
    waiting ∉ rest.

End BootVocabulary.

(** ** Arithmetic facts *)

Section Arithmetic.

Lemma convex_combination (a b c d m M fx fy : Q) :
  0 <= fx <= 1 -> 0 <= fy <= 1 ->
  m <= a <= M -> m <= b <= M -> m <= c <= M -> m <= d <= M ->
  m <= (1 - fx) * (1 - fy) * a + fx * (1 - fy) * b +
       (1 - fx) * fy * c + fx * fy * d <= M.
Proof.
  intros Hfx Hfy Ha Hb Hc Hd.
  assert (W : forall w x y : Q, 0 <= w -> y <= x -> 0 <= w * (x - y))
    by (intros; apply Qmult_le_0_compat; lra).
  assert (W1 : 0 <= (1 - fx) * (1 - fy)) by (apply Qmult_le_0_compat; lra).
  assert (W2 : 0 <= fx * (1 - fy)) by (apply Qmult_le_0_compat; lra).
  assert (W3 : 0 <= (1 - fx) * fy) by (apply Qmult_le_0_compat; lra).
  assert (W4 : 0 <= fx * fy) by (apply Qmult_le_0_compat; lra).
  split.
  - pose proof (W _ a m W1 ltac:(lra)). pose proof (W _ b m W2 ltac:(lra)).
    pose proof (W _ c m W3 ltac:(lra)). pose proof (W _ d m W4 ltac:(lra)).
    lra.
  - pose proof (W _ M a W1 ltac:(lra)). pose proof (W _ M b W2 ltac:(lra)).
    pose proof (W _ M c W3 ltac:(lra)). pose proof (W _ M d W4 ltac:(lra)).
    lra.
Qed.

Lemma Qmin_succ_pred (a c : Z) :
  Qmin (inject_Z a + 1) (inject_Z c - 1) == inject_Z (Z.min (a + 1) (c - 1)).
Proof.
  assert (E1 : inject_Z a + 1 == inject_Z (a + 1))
    by (unfold Qeq; simpl; lia).
  assert (E2 : inject_Z c - 1 == inject_Z (c - 1))
    by (unfold Qeq; simpl; lia).
  rewrite E1, E2.
  destruct (Z.min_spec (a + 1) (c - 1)) as [[Hlt ->] | [Hle ->]].
  - apply Q.min_l. rewrite <- Zle_Qle. lia.
  - apply Q.min_r. rewrite <- Zle_Qle. lia.
Qed.


Lemma floor_frac (q : Q) :
  0 <= q - inject_Z (Qfloor q) /\ q - inject_Z (Qfloor q) < 1.
Proof.
  pose proof (Qfloor_le q) as Hle. pose proof (Qlt_floor q) as Hlt.
  rewrite inject_Z_plus in Hlt. change (inject_Z 1) with 1 in Hlt.
  set (f := inject_Z (Qfloor q)) in *. split; lra.
Qed.

End Arithmetic.

(** ** Array reads at integer positions *)

Section Reads.

Lemma array_index_int (q : Q) (z : Z) :
  q == inject_Z z ->
  array_index (Fin q) = if (0 <=? z)%Z then Some (Z.to_nat z) else None.
Proof.
  intros E. unfold array_index.
  rewrite (Qfloor_comp _ _ E), Qfloor_Z.
  replace (Qeq_bool q (inject_Z z)) with true
    by (symmetry; apply Qeq_bool_iff; exact E).
  reflexivity.
Qed.

Lemma get_int {A : Type} (arr : list A) (q : Q) (z : Z) :
  q == inject_Z z ->
  get arr (Fin q) = if (0 <=? z)%Z then arr !! Z.to_nat z else None.
Proof.
  intros E. unfold get. rewrite (array_index_int q z E).
  destruct (0 <=? z)%Z; reflexivity.
Qed.

Lemma get2_int (grid : list (list Q)) (qy qx : Q) (y x : Z) :
  qy == inject_Z y -> qx == inject_Z x ->
  get2 grid (Fin qy) (Fin qx) = cell grid y x.
Proof.
  intros Ey Ex. unfold get2, cell. rewrite (get_int grid qy y Ey).
  destruct (if (0 <=? y)%Z then grid !! Z.to_nat y else None) as [row|];
    [|reflexivity].
  rewrite (get_int row qx x Ex). reflexivity.
Qed.

Lemma cell_inside (grid : list (list Q)) (R C : nat) (y x : Z) :
  rectangular grid R C ->
  (0 <= y < Z.of_nat R)%Z -> (0 <= x < Z.of_nat C)%Z ->
  exists q, stored grid y x = Some q /\ cell grid y x = Normal (Num (Fin q)).
Proof.
  intros [HR HC] Hy Hx.
  destruct (lookup_lt_is_Some_2 grid (Z.to_nat y)) as [row Hrow]; [lia|].
  assert (Hlen : length row = C).
  { rewrite Forall_forall in HC. apply HC.
    eapply list_elem_of_lookup_2; eauto. }
  destruct (lookup_lt_is_Some_2 row (Z.to_nat x)) as [q Hq]; [lia|].
  exists q. unfold stored, cell.
  replace (0 <=? y)%Z with true by (symmetry; apply Z.leb_le; lia).
  replace (0 <=? x)%Z with true by (symmetry; apply Z.leb_le; lia).
  simpl. rewrite Hrow. simpl. rewrite Hq. auto.
Qed.

End Reads.

(** ** The bilinear interpolator *)

Import VolatilitySurface.

Section Interpolator.

Variables (grid : list (list Q)) (R C : nat) (u v : Q).

Let gx : Q := u * (Qn C - 1).
Let gy : Q := v * (Qn R - 1).
Let x0 : Z := Qfloor gx.
Let y0 : Z := Qfloor gy.
Let x1 : Z := Z.min (x0 + 1) (Z.of_nat C - 1).
Let y1 : Z := Z.min (y0 + 1) (Z.of_nat R - 1).
Let fx : Q := gx - inject_Z x0.
Let fy : Q := gy - inject_Z y0.

(** On finite arguments the interpolator reads the four cells at the
    integer positions [x0], [x1], [y0], [y1]. *)
Lemma interpolateSigma_cells :
  interpolateSigma (Fin u) (Fin v) grid (of_nat R) (of_nat C) =
    (v00 ← cell grid y0 x0;
     v10 ← cell grid y0 x1;
     v01 ← cell grid y1 x0;
     v11 ← cell grid y1 x1;
     mret ((Fin 1 - Fin fx) * (Fin 1 - Fin fy) * ToNumber v00 +
           Fin fx * (Fin 1 - Fin fy) * ToNumber v10 +
           (Fin 1 - Fin fx) * Fin fy * ToNumber v01 +
           Fin fx * Fin fy * ToNumber v11)%js).
Proof.
  unfold interpolateSigma, of_nat, of_Z. cbn [sub mul add lift2 Math_floor Math_min].
  fold (Qn C) (Qn R). fold gx gy. fold x0 y0. fold fx fy.
  pose proof (Qmin_succ_pred x0 (Z.of_nat C)) as Ex.
  pose proof (Qmin_succ_pred y0 (Z.of_nat R)) as Ey.
  fold (Qn C) x1 in Ex. fold (Qn R) y1 in Ey.
  rewrite (get2_int grid (inject_Z y0) (inject_Z x0) y0 x0) by reflexivity.
  rewrite (get2_int grid (inject_Z y0) _ y0 x1 ltac:(reflexivity) Ex).
  rewrite (get2_int grid _ (inject_Z x0) y1 x0 Ey ltac:(reflexivity)).
  rewrite (get2_int grid _ _ y1 x1 Ey Ex).
  reflexivity.
Qed.

End Interpolator.

Section Corners.

Lemma corners_bounds (a b c d : Q) :
  let m := Qmin (Qmin a b) (Qmin c d) in
  let M := Qmax (Qmax a b) (Qmax c d) in
  (m <= a <= M) /\ (m <= b <= M) /\ (m <= c <= M) /\ (m <= d <= M).
Proof.
  intros m M.
  pose proof (Q.le_min_l (Qmin a b) (Qmin c d)).
  pose proof (Q.le_min_r (Qmin a b) (Qmin c d)).
  pose proof (Q.le_min_l a b). pose proof (Q.le_min_r a b).
  pose proof (Q.le_min_l c d). pose proof (Q.le_min_r c d).
  pose proof (Q.le_max_l (Qmax a b) (Qmax c d)).
  pose proof (Q.le_max_r (Qmax a b) (Qmax c d)).
  pose proof (Q.le_max_l a b). pose proof (Q.le_max_r a b).
  pose proof (Q.le_max_l c d). pose proof (Q.le_max_r c d).
  fold m in H, H0. fold M in H5, H6.
  repeat split; lra.
Qed.

(** A normalised coordinate in [[0,1]] lands on a position between the
    first and the last index. *)
Lemma position_range (t : Q) (n : nat) :
  (1 <= n)%nat -> 0 <= t <= 1 ->
  0 <= t * (Qn n - 1) /\ t * (Qn n - 1) <= inject_Z (Z.of_nat n - 1).
Proof.
  intros Hn [Ht0 Ht1].
  assert (E : inject_Z (Z.of_nat n - 1) == Qn n - 1)
    by (unfold Qn, Qeq; simpl; lia).
  assert (Hc : 0 <= Qn n - 1).
  { rewrite <- E. change 0 with (inject_Z 0). rewrite <- Zle_Qle. lia. }
  rewrite E. split.
  - apply Qmult_le_0_compat; assumption.
  - assert (0 <= (1 - t) * (Qn n - 1)) by (apply Qmult_le_0_compat; lra).
    lra.
Qed.

End Corners.

(** ** binary64 rounding *)

Section Rounding.
Import IEEE.

Lemma pow2_pos (e : Z) : 0 < 2 ^ e.
Proof. apply Qpower_0_lt. reflexivity. Qed.

Lemma pow2_plus (a b : Z) : 2 ^ (a + b) == 2 ^ a * 2 ^ b.
Proof. apply Qpower_plus. discriminate. Qed.

Lemma pow2_Z (n : Z) : (0 <= n)%Z -> inject_Z (2 ^ n) == 2 ^ n.
Proof. intros Hn. rewrite Zpower_Qpower by exact Hn. reflexivity. Qed.

Lemma pow2_le (a b : Z) : (a <= b)%Z -> 2 ^ a <= 2 ^ b.
Proof.
  intros Hab. replace b with (a + (b - a))%Z by lia.
  rewrite pow2_plus.
  assert (H1 : 1 <= 2 ^ (b - a)).
  { rewrite <- pow2_Z by lia. change 1 with (inject_Z 1).
    rewrite <- Zle_Qle. pose proof (Z.pow_pos_nonneg 2 (b - a)). lia. }
  pose proof (pow2_pos a). nra.
Qed.

Lemma ilog2_le (q : Q) : 0 < q -> 2 ^ (ilog2 q) <= q.
Proof.
  intros Hq. unfold ilog2.
  destruct (Qle_bool _ q) eqn:E; [apply Qle_bool_iff, E|].
  destruct q as [n d]. cbn [Qnum Qden] in *.
  assert (Hn : (0 < n)%Z) by (unfold Qlt in Hq; cbn in Hq; lia).
  pose proof (Z.log2_spec n Hn) as [Hn1 _].
  pose proof (Z.log2_spec (Zpos d) eq_refl) as [_ Hd2].
  pose proof (Z.log2_nonneg n). pose proof (Z.log2_nonneg (Zpos d)).
  set (a := Z.log2 n) in *. set (b := Z.log2 (Zpos d)) in *.
  replace (a - b - 1)%Z with (a + - (b + 1))%Z by lia.
  rewrite pow2_plus, Qpower_opp.
  rewrite (Qmake_Qdiv n d).
  assert (H1 : 2 ^ a <= inject_Z n)
    by (rewrite <- pow2_Z by lia; rewrite <- Zle_Qle; exact Hn1).
  assert (H2 : inject_Z (Zpos d) <= 2 ^ (b + 1)).
  { rewrite <- pow2_Z by lia. rewrite <- Zle_Qle.
    unfold Z.succ in Hd2. lia. }
  assert (H3 : 0 < inject_Z (Zpos d)) by (rewrite <- (Zlt_Qlt 0); lia).
  pose proof (pow2_pos a) as Ha. pose proof (pow2_pos (b + 1)) as Hb.
  set (X := 2 ^ a) in *. set (Y := 2 ^ (b + 1)) in *.
  set (N := inject_Z n) in *. set (D := inject_Z (Zpos d)) in *.
  apply Qle_shift_div_l; [exact H3|].
  assert (E' : X * / Y * D == X * D / Y) by (field; lra).
  rewrite E'. apply Qle_shift_div_r; [exact Hb|]. nra.
Qed.

Lemma nearest_even_close (x : Q) :
  x - (1 # 2) <= inject_Z (nearest_even x) <= x + (1 # 2).
Proof.
  unfold nearest_even.
  pose proof (Qfloor_le x) as H1. pose proof (Qlt_floor x) as H2.
  rewrite inject_Z_plus in H2. change (inject_Z 1) with 1 in H2.
  destruct (Qcompare _ _) eqn:E.
  - apply Qeq_alt in E.
    destruct (Z.even _); rewrite ?inject_Z_plus; change (inject_Z 1) with 1; lra.
  - apply Qlt_alt in E. lra.
  - apply Qgt_alt in E. rewrite inject_Z_plus. change (inject_Z 1) with 1. lra.
Qed.

Lemma nearest_even_int (x : Q) (k : Z) :
  x == inject_Z k -> nearest_even x = k.
Proof.
  intros Hx. unfold nearest_even.
  assert (Hf : Qfloor x = k) by (rewrite Hx; apply Qfloor_Z).
  rewrite Hf.
  assert (E : Qcompare (x - inject_Z k) (1 # 2) = Lt)
    by (apply (proj1 (Qlt_alt _ _)); lra).
  rewrite E. reflexivity.
Qed.

Lemma nearest_even_nonneg (x : Q) : 0 <= x -> (0 <= nearest_even x)%Z.
Proof.
  intros Hx. unfold nearest_even.
  assert (0 <= Qfloor x)%Z.
  { change 0%Z with (Qfloor 0). apply Qfloor_resp_le, Hx. }
  destruct (Qcompare _ _); [destruct (Z.even _)| |]; lia.
Qed.

(** The rounding of a positive number: the error is at most half a
    unit in the last place, which is at most [q * 2^-prec] for a normal
    number and [2^(emin-1)] for a subnormal one. *)
Lemma round_pos_close (prec emin : Z) (q : Q) :
  0 < q ->
  Qabs (round_pos prec emin q - q) <= q * 2 ^ (- prec) + 2 ^ (emin - 1).
Proof.
  intros Hq. unfold round_pos.
  set (e := Z.max _ _).
  pose proof (pow2_pos e) as He.
  pose proof (nearest_even_close (q / 2 ^ e)) as Hn.
  set (m := inject_Z (nearest_even (q / 2 ^ e))) in *.
  assert (Hqe : q == q / 2 ^ e * 2 ^ e) by (field; lra).
  assert (Hhalf : Qabs (m * 2 ^ e - q) <= (1 # 2) * 2 ^ e).
  { apply Qabs_Qle_condition.
    set (x := q / 2 ^ e) in *. split; nra. }
  apply Qle_trans with (1 := Hhalf).
  assert (H2 : (1 # 2) * 2 ^ e == 2 ^ (e - 1)).
  { replace (e - 1)%Z with (e + -1)%Z by lia. rewrite pow2_plus.
    change (2 ^ (-1)) with (/ 2). field. }
  rewrite H2.
  pose proof (pow2_pos (emin - 1)). pose proof (pow2_pos (- prec)).
  pose proof (ilog2_le q Hq) as Hl.
  destruct (Z.max_spec (ilog2 q - (prec - 1)) emin) as [[_ Hm]|[_ Hm]];
    fold e in Hm; rewrite Hm.
  - nra.
  - replace (ilog2 q - (prec - 1) - 1)%Z with (ilog2 q + - prec)%Z by lia.
    rewrite pow2_plus. nra.
Qed.

Lemma round_pos_nonneg (prec emin : Z) (q : Q) :
  0 < q -> 0 <= round_pos prec emin q.
Proof.
  intros Hq. unfold round_pos. set (e := Z.max _ _).
  pose proof (pow2_pos e).
  apply Qmult_le_0_compat; [|lra].
  change 0 with (inject_Z 0). rewrite <- Zle_Qle.
  apply nearest_even_nonneg.
  apply Qle_shift_div_l; lra.
Qed.

(** A positive integer below [2^prec] is a floating-point number. *)
Lemma round_pos_int (prec emin : Z) (q : Q) (k : Z) :
  (0 <= prec)%Z -> (emin <= 0)%Z ->
  q == inject_Z k -> 0 < q -> q < 2 ^ prec ->
  round_pos prec emin q == q.
Proof.
  intros Hp Hemin Hk Hq Hlt. unfold round_pos.
  set (e := Z.max _ _).
  assert (He : (e <= 0)%Z).
  { subst e. apply Z.max_lub; [|exact Hemin].
    destruct (Z_le_gt_dec (ilog2 q) (prec - 1)) as [|Hgt]; [lia|].
    exfalso. pose proof (ilog2_le q Hq).
    pose proof (pow2_le prec (ilog2 q) ltac:(lia)). lra. }
  pose proof (pow2_pos e) as Hpe.
  assert (Hinv : / 2 ^ e == inject_Z (2 ^ (- e))).
  { rewrite pow2_Z by lia. rewrite Qpower_opp. reflexivity. }
  rewrite (nearest_even_int _ (k * 2 ^ (- e))).
  - rewrite inject_Z_mult, <- Hinv, <- Hk. field. lra.
  - unfold Qdiv. rewrite Hinv, inject_Z_mult, Hk. reflexivity.
Qed.

End Rounding.

Section Binary64Laws.
Import IEEE.

Local Abbreviation eps := (1 # 9007199254740992).

Lemma eta_facts : 0 < eta /\ eta <= eps.
Proof. split; vm_compute; first [reflexivity | discriminate]. Qed.

Lemma huge_facts : 0 < limit /\ 64 * limit + 64 <= huge /\ 2 * huge == 2 ^ 1024.
Proof. repeat split; vm_compute; first [reflexivity | discriminate]. Qed.

Lemma limit_large : 9007199254740992 <= limit.
Proof. vm_compute. discriminate. Qed.

Lemma round_finite_err (q b : Q) :
  - b <= q <= b ->
  q - (b * eps + eta) <= round_finite 53 (-1074) q <= q + (b * eps + eta).
Proof.
  intros Hb. destruct eta_facts as [He0 _].
  assert (E53 : 2 ^ (-53) == eps) by reflexivity.
  unfold round_finite. destruct (Qcompare q 0) eqn:E.
  - apply Qeq_alt in E. split; nra.
  - apply Qlt_alt in E.
    pose proof (round_pos_close 53 (-1074) (- q) ltac:(lra)) as H.
    change (2 ^ (-1074 - 1)) with eta in H. rewrite E53 in H.
    apply Qabs_Qle_condition in H. split; nra.
  - apply Qgt_alt in E.
    pose proof (round_pos_close 53 (-1074) q ltac:(lra)) as H.
    change (2 ^ (-1074 - 1)) with eta in H. rewrite E53 in H.
    apply Qabs_Qle_condition in H. split; nra.
Qed.

Lemma r64_err (q b : Q) :
  - b <= q <= b ->
  q - (b * eps + eta) <= r64 q <= q + (b * eps + eta).
Proof.
  intros Hb. unfold r64. rewrite Qred_correct.
  apply round_finite_err, Hb.
Qed.

Lemma r64_nonneg (q : Q) : 0 <= q -> 0 <= r64 q.
Proof.
  intros Hq. unfold r64, round_finite. rewrite Qred_correct.
  destruct (Qcompare q 0) eqn:E.
  - lra.
  - apply Qlt_alt in E. lra.
  - apply Qgt_alt in E. apply round_pos_nonneg. lra.
Qed.

Lemma r64_int (q : Q) (k : Z) :
  q == inject_Z k -> - (9007199254740992) < q < 9007199254740992 ->
  r64 q == q.
Proof.
  intros Hk Hq. unfold r64, round_finite. rewrite Qred_correct.
  assert (E53 : 2 ^ 53 == 9007199254740992) by reflexivity.
  destruct (Qcompare q 0) eqn:E.
  - apply Qeq_alt in E. lra.
  - apply Qlt_alt in E.
    rewrite (round_pos_int 53 (-1074) (- q) (- k)); try lia; try lra.
    rewrite inject_Z_opp, Hk. reflexivity.
  - apply Qgt_alt in E.
    apply (round_pos_int 53 (-1074) q k); try lia; try lra; exact Hk.
Qed.

Lemma binary64_Fin (q : Q) :
  - huge <= q <= huge -> binary64 q = Fin (r64 q).
Proof.
  intros Hq. unfold binary64, round, r64.
  pose proof (round_finite_err q huge Hq) as Hr.
  set (r := round_finite 53 (-1074) q) in *.
  destruct eta_facts as [He0 He1]. destruct huge_facts as (Hl & Hh & H2).
  destruct (Qle_bool _ (Qabs r)) eqn:E; [|reflexivity].
  exfalso. apply Qle_bool_iff in E. rewrite <- H2 in E.
  assert (Qabs r <= huge + (huge * eps + eta)).
  { apply Qabs_Qle_condition. split; lra. }
  lra.
Qed.

Lemma add_Fin (x y : Q) :
  - huge <= x + y <= huge ->
  Binary64.add (Fin x) (Fin y) = Fin (r64 (x + y)).
Proof. apply binary64_Fin. Qed.

Lemma sub_Fin (x y : Q) :
  - huge <= x - y <= huge ->
  Binary64.sub (Fin x) (Fin y) = Fin (r64 (x - y)).
Proof. apply binary64_Fin. Qed.

Lemma mul_Fin (x y : Q) :
  - huge <= x * y <= huge ->
  Binary64.mul (Fin x) (Fin y) = Fin (r64 (x * y)).
Proof. apply binary64_Fin. Qed.

Lemma mul_NaN (a : value) : Binary64.mul a NaN = NaN.
Proof. destruct a; reflexivity. Qed.

Lemma add_NaN_l (b : value) : Binary64.add NaN b = NaN.
Proof. destruct b; reflexivity. Qed.

Lemma add_NaN_r (b : value) : Binary64.add b NaN = NaN.
Proof. destruct b; reflexivity. Qed.

End Binary64Laws.

Section ErrorAnalysis.
Import IEEE.

Local Abbreviation eps := (1 # 9007199254740992).

Lemma prod_abs (p q x y : Q) :
  - x <= p <= x -> - y <= q <= y -> - (x * y) <= p * q <= x * y.
Proof.
  intros [Hp0 Hp1] [Hq0 Hq1].
  pose proof (Qmult_le_0_compat (x - p) (y - q) ltac:(lra) ltac:(lra)).
  pose proof (Qmult_le_0_compat (x + p) (y + q) ltac:(lra) ltac:(lra)).
  pose proof (Qmult_le_0_compat (x - p) (y + q) ltac:(lra) ltac:(lra)).
  pose proof (Qmult_le_0_compat (x + p) (y - q) ltac:(lra) ltac:(lra)).
  split; lra.
Qed.

Lemma mul_close (a a' b b' da db Ca Cb : Q) :
  - da <= a' - a <= da -> - db <= b' - b <= db ->
  - Ca <= a <= Ca -> - Cb <= b' <= Cb ->
  - (da * Cb + Ca * db) <= a' * b' - a * b <= da * Cb + Ca * db.
Proof.
  intros Ha Hb HCa HCb.
  pose proof (prod_abs (a' - a) b' da Cb Ha HCb).
  pose proof (prod_abs a (b' - b) Ca db HCa Hb).
  split; lra.
Qed.

(** The fractional part [fx = gx - x0] as computed. *)
Lemma frac_weight (d : Q) :
  0 <= d -> d < 1 ->
  0 <= r64 d /\ - (2 * eps) <= r64 d - d <= 2 * eps.
Proof.
  intros H0 H1. destruct eta_facts as [He0 He1].
  pose proof (r64_nonneg d H0). pose proof (r64_err d 1 ltac:(lra)).
  split; [assumption | split; lra].
Qed.

(** The weight [1 - fx] as computed. *)
Lemma one_minus_weight (d f : Q) :
  0 <= d -> d < 1 -> 0 <= f -> - (2 * eps) <= f - d <= 2 * eps ->
  - (4 * eps) <= r64 (1 - f) - (1 - d) <= 4 * eps.
Proof.
  intros H0 H1 Hf Hfd. destruct eta_facts as [He0 He1].
  pose proof (r64_err (1 - f) 1 ltac:(lra)). split; lra.
Qed.

(** One term [w_a * w_b * v] of the sum, as computed. *)
Lemma weighted_term (wa wb Wa Wb V A : Q) :
  0 <= Wa <= 1 -> 0 <= Wb <= 1 ->
  - (4 * eps) <= wa - Wa <= 4 * eps ->
  - (4 * eps) <= wb - Wb <= 4 * eps ->
  - A <= V <= A -> A <= 2 * limit ->
  exists t : Q,
    Binary64.mul (Binary64.mul (Fin wa) (Fin wb)) (Fin V) = Fin t /\
    - (18 * eps * A + eta) <= t - Wa * Wb * V <= 18 * eps * A + eta /\
    - A <= Wa * Wb * V <= A.
Proof.
  intros HWa HWb Hwa Hwb HV HA.
  destruct eta_facts as [He0 He1]. destruct huge_facts as (Hl & Hh & _).
  assert (HW : 0 <= Wa * Wb <= 1).
  { split; [apply Qmult_le_0_compat; lra|].
    pose proof (Qmult_le_0_compat (1 - Wa) Wb ltac:(lra) ltac:(lra)). lra. }
  pose proof (mul_close Wa wa Wb wb (4 * eps) (4 * eps) 1 (1 + 4 * eps)
                ltac:(lra) ltac:(lra) ltac:(lra) ltac:(lra)) as H1.
  set (e1 := wa * wb) in *.
  pose proof (r64_err e1 2 ltac:(lra)) as H2.
  rewrite (mul_Fin wa wb) by (fold e1; lra). fold e1.
  set (p := r64 e1) in *.
  assert (Hp : - (16 * eps) <= p - Wa * Wb <= 16 * eps) by (split; lra).
  pose proof (mul_close (Wa * Wb) p V V (16 * eps) 0 1 A
                Hp ltac:(lra) ltac:(lra) HV) as H3.
  pose proof (prod_abs (Wa * Wb) V 1 A ltac:(lra) HV) as H4.
  set (e2 := p * V) in *.
  assert (HA0 : 0 <= A) by lra.
  pose proof (r64_err e2 (2 * A) ltac:(lra)) as H5.
  rewrite (mul_Fin p V) by (fold e2; lra). fold e2.
  exists (r64 e2). split; [reflexivity|].
  split; [split; lra|]. rewrite <- Qmult_assoc in H4 |- *.
  split; lra.
Qed.

(** The three additions of the sum, as computed. *)
Lemma blend_sum (t1 t2 t3 t4 P1 P2 P3 P4 A : Q) :
  - (18 * eps * A + eta) <= t1 - P1 <= 18 * eps * A + eta ->
  - (18 * eps * A + eta) <= t2 - P2 <= 18 * eps * A + eta ->
  - (18 * eps * A + eta) <= t3 - P3 <= 18 * eps * A + eta ->
  - (18 * eps * A + eta) <= t4 - P4 <= 18 * eps * A + eta ->
  - A <= P1 <= A -> - A <= P2 <= A -> - A <= P3 <= A -> - A <= P4 <= A ->
  A <= 2 * limit ->
  exists r : Q,
    Binary64.add (Binary64.add (Binary64.add (Fin t1) (Fin t2)) (Fin t3))
      (Fin t4) = Fin r /\
    - (128 * eps * A + 16 * eta) <= r - (P1 + P2 + P3 + P4)
      <= 128 * eps * A + 16 * eta.
Proof.
  intros H1 H2 H3 H4 B1 B2 B3 B4 HA.
  destruct eta_facts as [He0 He1]. destruct huge_facts as (Hl & Hh & _).
  assert (HA0 : 0 <= A) by lra.
  pose proof (r64_err (t1 + t2) (3 * A + 2 * eta) ltac:(lra)) as R1.
  rewrite (add_Fin t1 t2) by lra.
  set (s1 := r64 (t1 + t2)) in *.
  pose proof (r64_err (s1 + t3) (4 * A + 5 * eta) ltac:(lra)) as R2.
  rewrite (add_Fin s1 t3) by lra.
  set (s2 := r64 (s1 + t3)) in *.
  pose proof (r64_err (s2 + t4) (6 * A + 8 * eta) ltac:(lra)) as R3.
  rewrite (add_Fin s2 t4) by lra.
  exists (r64 (s2 + t4)). split; [reflexivity|]. split; lra.
Qed.

End ErrorAnalysis.

Section Binary64Reads.
Import IEEE.

Lemma b64_array_index_int (q : Q) (z : Z) :
  q == inject_Z z ->
  Binary64.array_index (Fin q)
    = if (0 <=? z)%Z then Some (Z.to_nat z) else None.
Proof.
  intros E. unfold Binary64.array_index.
  rewrite (Qfloor_comp _ _ E), Qfloor_Z.
  replace (Qeq_bool q (inject_Z z)) with true
    by (symmetry; apply Qeq_bool_iff; exact E).
  reflexivity.
Qed.

Lemma b64_get_int {A : Type} (arr : list A) (q : Q) (z : Z) :
  q == inject_Z z ->
  Binary64.get arr (Fin q) = if (0 <=? z)%Z then arr !! Z.to_nat z else None.
Proof.
  intros E. unfold Binary64.get. rewrite (b64_array_index_int q z E).
  destruct (0 <=? z)%Z; reflexivity.
Qed.

(** A read inside the grid gives the binary64 number nearest to the
    stored decimal. *)
Lemma b64_get2_inside (grid : list (list Q)) (R C : nat)
    (qy qx : Q) (y x : Z) :
  rectangular grid R C -> bounded grid ->
  qy == inject_Z y -> qx == inject_Z x ->
  (0 <= y < Z.of_nat R)%Z -> (0 <= x < Z.of_nat C)%Z ->
  exists q : Q,
    stored grid y x = Some q /\
    Binary64.get2 grid (Fin qy) (Fin qx) = Normal (Binary64.Num (Fin (r64 q))) /\
    binary64 q = Fin (r64 q) /\
    - (2 * limit) <= r64 q <= 2 * limit.
Proof.
  intros [HR HC] Hb Ey Ex Hy Hx.
  destruct (lookup_lt_is_Some_2 grid (Z.to_nat y)) as [row Hrow]; [lia|].
  assert (Hlen : length row = C).
  { rewrite Forall_forall in HC. apply HC.
    eapply list_elem_of_lookup_2; eauto. }
  destruct (lookup_lt_is_Some_2 row (Z.to_nat x)) as [q Hq]; [lia|].
  assert (Hq' : - limit <= q <= limit).
  { unfold bounded in Hb. rewrite Forall_lookup in Hb.
    specialize (Hb _ _ Hrow). rewrite Forall_lookup in Hb.
    exact (Hb _ _ Hq). }
  destruct huge_facts as (Hl & Hh & _). destruct eta_facts as [He0 He1].
  assert (Hfin : binary64 q = Fin (r64 q)) by (apply binary64_Fin; lra).
  pose proof (r64_err q limit Hq'). pose proof limit_large.
  exists q. split; [|split; [|split; [exact Hfin | split; lra]]].
  - unfold stored.
    replace (0 <=? y)%Z with true by (symmetry; apply Z.leb_le; lia).
    replace (0 <=? x)%Z with true by (symmetry; apply Z.leb_le; lia).
    simpl. rewrite Hrow. simpl. exact Hq.
  - unfold Binary64.get2.
    rewrite (b64_get_int grid qy y Ey).
    replace (0 <=? y)%Z with true by (symmetry; apply Z.leb_le; lia).
    rewrite Hrow, (b64_get_int row qx x Ex).
    replace (0 <=? x)%Z with true by (symmetry; apply Z.leb_le; lia).
    rewrite Hq, Hfin. reflexivity.
Qed.

(** A row position that is no number of the index range: the read of
    the row gives [undefined]. *)
Lemma b64_get_outside {A : Type} (arr : list A) (n : nat) (y : value) :
  length arr = n ->
  (forall g, y = Fin g -> g < 0 \/ Qn n <= g) ->
  Binary64.get arr (Binary64.Math_floor y) = None.
Proof.
  intros Hn Hy.
  destruct y as [| s | g]; [reflexivity..|].
  cbn [Binary64.Math_floor].
  rewrite (b64_get_int arr _ (Qfloor g)) by reflexivity.
  destruct (0 <=? Qfloor g)%Z eqn:E0; [|reflexivity].
  apply Z.leb_le in E0. apply lookup_ge_None.
  destruct (Hy g eq_refl) as [Hneg | Hbig].
  - exfalso. pose proof (Qfloor_le g).
    assert (Hg0 : 0 <= inject_Z (Qfloor g))
      by (change 0 with (inject_Z 0); rewrite <- Zle_Qle; exact E0).
    lra.
  - apply (Qfloor_resp_le (Qn n) g) in Hbig. unfold Qn in Hbig.
    rewrite Qfloor_Z in Hbig. lia.
Qed.

End Binary64Reads.

Section Binary64Cell.
Import IEEE.

Local Abbreviation eps := (1 # 9007199254740992).

Lemma Qn_pred (n : nat) : Qn n - 1 == inject_Z (Z.of_nat n - 1).
Proof. unfold Qn, Qeq. simpl. lia. Qed.

Lemma Qn_le (n : nat) (k : Z) : (Z.of_nat n <= k)%Z -> Qn n <= inject_Z k.
Proof. intros H. unfold Qn. rewrite <- Zle_Qle. exact H. Qed.

(** [n - 1] for an array length [n] is exact. *)
Lemma sub_one (n : nat) :
  (1 <= n)%nat -> (Z.of_nat n <= 4294967295)%Z ->
  Binary64.sub (Fin (Qn n)) (Fin 1) = Fin (r64 (Qn n - 1)) /\
  r64 (Qn n - 1) == inject_Z (Z.of_nat n - 1).
Proof.
  intros H1 Hmax.
  pose proof (Qn_le n _ Hmax) as Hle. pose proof limit_large.
  destruct huge_facts as (Hl & Hh & _).
  assert (H0 : 1 <= Qn n).
  { unfold Qn. change 1 with (inject_Z 1). rewrite <- Zle_Qle. lia. }
  change (inject_Z 4294967295) with 4294967295 in Hle.
  split.
  - apply sub_Fin. lra.
  - rewrite (r64_int (Qn n - 1) (Z.of_nat n - 1)).
    + apply Qn_pred.
    + apply Qn_pred.
    + lra.
Qed.

(** The lower index [floor g], the upper index before clamping and
    the fractional part, for a position [g] inside the index range. *)
Lemma index_facts (g : Q) (n : nat) :
  (Z.of_nat n <= 4294967295)%Z -> 0 <= g -> g < Qn n ->
  (0 <= Qfloor g < Z.of_nat n)%Z /\
  (0 <= g - inject_Z (Qfloor g) /\ g - inject_Z (Qfloor g) < 1) /\
  Binary64.add (Fin (inject_Z (Qfloor g))) (Fin 1)
    = Fin (r64 (inject_Z (Qfloor g) + 1)) /\
  r64 (inject_Z (Qfloor g) + 1) == inject_Z (Qfloor g + 1) /\
  Binary64.sub (Fin g) (Fin (inject_Z (Qfloor g)))
    = Fin (r64 (g - inject_Z (Qfloor g))).
Proof.
  intros Hmax H0 H1.
  pose proof (Qn_le n _ Hmax) as Hle. pose proof limit_large.
  change (inject_Z 4294967295) with 4294967295 in Hle.
  destruct huge_facts as (Hl & Hh & _).
  pose proof (floor_frac g) as [F0 F1].
  pose proof (Qfloor_resp_le 0 g H0) as L. change (Qfloor 0) with 0%Z in L.
  assert (U : (Qfloor g < Z.of_nat n)%Z).
  { rewrite Zlt_Qlt. unfold Qn in H1. lra. }
  assert (L' : 0 <= inject_Z (Qfloor g))
    by (change 0 with (inject_Z 0); rewrite <- Zle_Qle; exact L).
  split; [lia|]. split; [split; assumption|].
  split; [apply add_Fin; lra|].
  split; [|apply sub_Fin; lra].
  assert (E : inject_Z (Qfloor g) + 1 == inject_Z (Qfloor g + 1))
    by (rewrite inject_Z_plus; reflexivity).
  rewrite (r64_int _ (Qfloor g + 1) E); [exact E | lra].
Qed.

Lemma Qmin_int (a b : Q) (x y : Z) :
  a == inject_Z x -> b == inject_Z y -> Qmin a b == inject_Z (Z.min x y).
Proof.
  intros Ea Eb.
  destruct (Z.min_spec x y) as [[Hlt ->] | [Hle ->]].
  - rewrite <- Ea. apply Q.min_l. rewrite Ea, Eb, <- Zle_Qle. lia.
  - rewrite <- Eb. apply Q.min_r. rewrite Ea, Eb, <- Zle_Qle. lia.
Qed.

Variables (grid : list (list Q)) (R C : nat) (u v : Q).
Hypotheses (HR : (2 <= R)%nat) (HC : (2 <= C)%nat).
Hypotheses (HRmax : (Z.of_nat R <= 4294967295)%Z).
Hypotheses (HCmax : (Z.of_nat C <= 4294967295)%Z).
Hypotheses (Hrect : rectangular grid R C) (Hb : bounded grid).

(** With both computed positions inside the index range, the four
    reads are inside the grid and the result is a number that misses
    the exact weighted mean of the four corner values by rounding
    errors only. *)
Lemma interpolateSigma_computed (gx gy : Q) :
  sample_position u C = Fin gx -> 0 <= gx -> gx < Qn C ->
  sample_position v R = Fin gy -> 0 <= gy -> gy < Qn R ->
  exists q00 q10 q01 q11 r : Q,
    let x0 := Qfloor gx in
    let y0 := Qfloor gy in
    let x1 := Z.min (x0 + 1) (Z.of_nat C - 1) in
    let y1 := Z.min (y0 + 1) (Z.of_nat R - 1) in
    stored grid y0 x0 = Some q00 /\
    stored grid y0 x1 = Some q10 /\
    stored grid y1 x0 = Some q01 /\
    stored grid y1 x1 = Some q11 /\
    binary64 q00 = Fin (r64 q00) /\
    binary64 q10 = Fin (r64 q10) /\
    binary64 q01 = Fin (r64 q01) /\
    binary64 q11 = Fin (r64 q11) /\
    Binary64.interpolateSigma (Fin u) (Fin v) grid (Fin (Qn R)) (Fin (Qn C))
      = Normal (Fin r) /\
    forall m M A : Q,
      m <= r64 q00 <= M -> m <= r64 q10 <= M ->
      m <= r64 q01 <= M -> m <= r64 q11 <= M ->
      - A <= m -> M <= A ->
      m - (128 * eps * A + 16 * eta) <= r <= M + (128 * eps * A + 16 * eta).
Proof.
  intros Px Hx0 Hx1 Py Hy0 Hy1.
  destruct (sub_one C ltac:(lia) HCmax) as [SC EC].
  destruct (sub_one R ltac:(lia) HRmax) as [SR ER].
  destruct (index_facts gx C HCmax Hx0 Hx1) as (Ix & Fx & Ax & Ex & Sx).
  destruct (index_facts gy R HRmax Hy0 Hy1) as (Iy & Fy & Ay & Ey & Sy).
  set (x0 := Qfloor gx) in *. set (y0 := Qfloor gy) in *.
  set (x1 := Z.min (x0 + 1) (Z.of_nat C - 1)).
  set (y1 := Z.min (y0 + 1) (Z.of_nat R - 1)).
  pose proof (Qmin_int _ _ _ _ Ex EC) as Mx. fold x1 in Mx.
  pose proof (Qmin_int _ _ _ _ Ey ER) as My. fold y1 in My.
  destruct (b64_get2_inside grid R C (inject_Z y0) (inject_Z x0) y0 x0
              Hrect Hb ltac:(reflexivity) ltac:(reflexivity))
    as (q00 & S00 & G00 & P00 & B00); [lia..|].
  destruct (b64_get2_inside grid R C (inject_Z y0) _ y0 x1
              Hrect Hb ltac:(reflexivity) Mx)
    as (q10 & S10 & G10 & P10 & B10); [lia..|].
  destruct (b64_get2_inside grid R C _ (inject_Z x0) y1 x0
              Hrect Hb My ltac:(reflexivity))
    as (q01 & S01 & G01 & P01 & B01); [lia..|].
  destruct (b64_get2_inside grid R C _ _ y1 x1 Hrect Hb My Mx)
    as (q11 & S11 & G11 & P11 & B11); [lia..|].
  set (dx := gx - inject_Z x0) in *. set (dy := gy - inject_Z y0) in *.
  destruct (frac_weight dx) as [Nfx Cfx]; [lra..|].
  destruct (frac_weight dy) as [Nfy Cfy]; [lra..|].
  set (fx := r64 dx) in *. set (fy := r64 dy) in *.
  pose proof (one_minus_weight dx fx ltac:(lra) ltac:(lra) Nfx Cfx) as Cox.
  pose proof (one_minus_weight dy fy ltac:(lra) ltac:(lra) Nfy Cfy) as Coy.
  destruct huge_facts as (Hl & Hh & _). pose proof limit_large as Hll.
  assert (Sox : Binary64.sub (Fin 1) (Fin fx) = Fin (r64 (1 - fx)))
    by (apply sub_Fin; lra).
  assert (Soy : Binary64.sub (Fin 1) (Fin fy) = Fin (r64 (1 - fy)))
    by (apply sub_Fin; lra).
  set (ox := r64 (1 - fx)) in *. set (oy := r64 (1 - fy)) in *.
  assert (Hgen : forall A : Q,
    - A <= r64 q00 <= A -> - A <= r64 q10 <= A ->
    - A <= r64 q01 <= A -> - A <= r64 q11 <= A -> A <= 2 * limit ->
    exists r : Q,
      Binary64.add
        (Binary64.add
           (Binary64.add
              (Binary64.mul (Binary64.mul (Fin ox) (Fin oy)) (Fin (r64 q00)))
              (Binary64.mul (Binary64.mul (Fin fx) (Fin oy)) (Fin (r64 q10))))
           (Binary64.mul (Binary64.mul (Fin ox) (Fin fy)) (Fin (r64 q01))))
        (Binary64.mul (Binary64.mul (Fin fx) (Fin fy)) (Fin (r64 q11)))
      = Fin r /\
      - (128 * eps * A + 16 * eta)
        <= r - ((1 - dx) * (1 - dy) * r64 q00 + dx * (1 - dy) * r64 q10 +
                (1 - dx) * dy * r64 q01 + dx * dy * r64 q11)
        <= 128 * eps * A + 16 * eta).
  { intros A A00 A10 A01 A11 HA.
    destruct (weighted_term ox oy (1 - dx) (1 - dy) (r64 q00) A)
      as (t1 & T1 & C1 & D1); [lra..|].
    destruct (weighted_term fx oy dx (1 - dy) (r64 q10) A)
      as (t2 & T2 & C2 & D2); [lra..|].
    destruct (weighted_term ox fy (1 - dx) dy (r64 q01) A)
      as (t3 & T3 & C3 & D3); [lra..|].
    destruct (weighted_term fx fy dx dy (r64 q11) A)
      as (t4 & T4 & C4 & D4); [lra..|].
    rewrite T1, T2, T3, T4.
    apply blend_sum; assumption. }
  destruct (Hgen (2 * limit)) as (r & Er & _); [lra..|].
  exists q00, q10, q01, q11, r. cbv zeta. fold x0 y0. fold x1 y1.
  do 8 (split; [assumption|]).
  split.
  - unfold Binary64.interpolateSigma. cbv zeta.
    change (Binary64.mul (Fin u) (Binary64.sub (Fin (Qn C)) (Fin 1)))
      with (sample_position u C).
    change (Binary64.mul (Fin v) (Binary64.sub (Fin (Qn R)) (Fin 1)))
      with (sample_position v R).
    rewrite Px, Py, SC, SR.
    cbn [Binary64.Math_floor]. fold x0 y0.
    rewrite Ax, Ay, Sx, Sy. fold dx dy. fold fx fy.
    cbn [Binary64.Math_min].
    rewrite G00, G10, G01, G11.
    cbv [mbind mret completion_bind completion_ret bind].
    cbn [Binary64.ToNumber].
    rewrite Sox, Soy, Er. reflexivity.
  - intros m M A H00 H10 H01 H11 Hm HM.
    pose proof (convex_combination (r64 q00) (r64 q10) (r64 q01) (r64 q11)
                  m M dx dy ltac:(lra) ltac:(lra) H00 H10 H01 H11) as Hc.
    destruct (Qlt_le_dec A (2 * limit)) as [Hlt | Hge].
    + destruct (Hgen A) as (r' & Er' & Hr'); [lra..|].
      rewrite Er in Er'. injection Er' as <-. lra.
    + destruct (Hgen (2 * limit)) as (r' & Er' & Hr'); [lra..|].
      rewrite Er in Er'. injection Er' as <-. lra.
Qed.

End Binary64Cell.

Section Binary64Range.
Import IEEE.

Local Abbreviation eps := (1 # 9007199254740992).

(** The position computed for a coordinate in [[0,1]] is inside the
    index range. *)
Lemma position_in_range (t : Q) (n : nat) :
  (1 <= n)%nat -> (Z.of_nat n <= 4294967295)%Z -> 0 <= t <= 1 ->
  in_range t n.
Proof.
  intros H1 Hmax [Ht0 Ht1].
  destruct (sub_one n H1 Hmax) as [Sn En].
  pose proof (Qn_le n _ Hmax) as Hle. pose proof (Qn_pred n) as Hp.
  change (inject_Z 4294967295) with 4294967295 in Hle.
  assert (H0 : 1 <= Qn n).
  { unfold Qn. change 1 with (inject_Z 1). rewrite <- Zle_Qle. lia. }
  destruct huge_facts as (Hl & Hh & _). pose proof limit_large as Hll.
  destruct eta_facts as [He0 He1].
  unfold in_range, sample_position. rewrite Sn.
  set (c := r64 (Qn n - 1)) in *.
  assert (Hc : c == Qn n - 1) by (rewrite En, Hp; reflexivity).
  assert (Hp0 : 0 <= t * c) by (apply Qmult_le_0_compat; lra).
  assert (Hp1 : 0 <= (1 - t) * c) by (apply Qmult_le_0_compat; lra).
  pose proof (r64_err (t * c) 4294967295 ltac:(lra)) as He.
  pose proof (r64_nonneg (t * c) Hp0) as Hn.
  exists (r64 (t * c)). split; [apply mul_Fin; lra|]. split; lra.
Qed.

Variables (grid : list (list Q)) (R C : nat) (u v : Q).
Hypotheses (HR : (2 <= R)%nat) (HC : (2 <= C)%nat).
Hypotheses (Hrect : rectangular grid R C).

(** A row position outside the index range: the first read throws. *)
Lemma interpolateSigma_row_outside :
  (forall g, sample_position v R = Fin g -> g < 0 \/ Qn R <= g) ->
  Binary64.interpolateSigma (Fin u) (Fin v) grid (Fin (Qn R)) (Fin (Qn C))
    = Throw TypeError.
Proof.
  intros Hout. unfold Binary64.interpolateSigma. cbv zeta.
  change (Binary64.mul (Fin v) (Binary64.sub (Fin (Qn R)) (Fin 1)))
    with (sample_position v R).
  unfold Binary64.get2.
  rewrite (b64_get_outside grid R (sample_position v R) (proj1 Hrect) Hout).
  reflexivity.
Qed.

(** A column read at a position outside the index range gives
    [undefined]. *)
Lemma b64_get2_column_outside (y x : value) (row : list Q) :
  Binary64.get grid y = Some row ->
  (forall g, x = Fin g -> g < 0 \/ Qn C <= g) ->
  Binary64.get2 grid y (Binary64.Math_floor x) = Normal Binary64.Undefined.
Proof.
  intros Hrow Hx. unfold Binary64.get2. rewrite Hrow.
  assert (E : Binary64.get row (Binary64.Math_floor x) = None);
    [|rewrite E; reflexivity].
  assert (Hlen : length row = C).
  { destruct Hrect as [_ HCs]. rewrite Forall_forall in HCs. apply HCs.
    unfold Binary64.get in Hrow.
    destruct (Binary64.array_index y); [|discriminate].
    eapply list_elem_of_lookup_2; eauto. }
  apply (b64_get_outside row C x Hlen Hx).
Qed.

(** A column position outside the index range: no finite result. *)
Lemma interpolateSigma_column_outside (r : Q) :
  (forall g, sample_position u C = Fin g -> g < 0 \/ Qn C <= g) ->
  Binary64.interpolateSigma (Fin u) (Fin v) grid (Fin (Qn R)) (Fin (Qn C))
    <> Normal (Fin r).
Proof.
  intros Hout Hr. unfold Binary64.interpolateSigma in Hr. cbv zeta in Hr.
  change (Binary64.mul (Fin u) (Binary64.sub (Fin (Qn C)) (Fin 1)))
    with (sample_position u C) in Hr.
  change (Binary64.mul (Fin v) (Binary64.sub (Fin (Qn R)) (Fin 1)))
    with (sample_position v R) in Hr.
  set (y0 := Binary64.Math_floor (sample_position v R)) in Hr.
  destruct (Binary64.get grid y0) as [row|] eqn:Hrow.
  - rewrite (b64_get2_column_outside y0 (sample_position u C) row Hrow Hout) in Hr.
    cbv [mbind mret completion_bind completion_ret bind] in Hr.
    repeat match type of Hr with
           | context [Binary64.get2 ?g ?y ?x] =>
               destruct (Binary64.get2 g y x); [|discriminate Hr]
           end.
    cbn [Binary64.ToNumber] in Hr.
    rewrite mul_NaN, !add_NaN_l in Hr. discriminate Hr.
  - unfold Binary64.get2 in Hr. rewrite Hrow in Hr. discriminate Hr.
Qed.

(** A finite result needs both computed positions inside the index
    range. *)
Lemma interpolateSigma_finite_positions (r : Q) :
  Binary64.interpolateSigma (Fin u) (Fin v) grid (Fin (Qn R)) (Fin (Qn C))
    = Normal (Fin r) ->
  in_range u C /\ in_range v R.
Proof.
  intros Hr.
  assert (Hdec : forall (p : value) (n : nat),
    (exists g, p = Fin g /\ 0 <= g /\ g < Qn n) \/
    (forall g, p = Fin g -> g < 0 \/ Qn n <= g)).
  { intros [| s | g] n; [right; discriminate.. |].
    destruct (Qlt_le_dec g 0) as [Hneg | Hpos].
    - right. intros g' [= <-]. left. exact Hneg.
    - destruct (Qlt_le_dec g (Qn n)) as [Hlt | Hge].
      + left. exists g. auto.
      + right. intros g' [= <-]. right. exact Hge. }
  split.
  - destruct (Hdec (sample_position u C) C) as [Hin | Hout]; [exact Hin|].
    exfalso. exact (interpolateSigma_column_outside r Hout Hr).
  - destruct (Hdec (sample_position v R) R) as [Hin | Hout]; [exact Hin|].
    exfalso. rewrite (interpolateSigma_row_outside Hout) in Hr.
    discriminate Hr.
Qed.

End Binary64Range.

(** C1, as the code has it.  On a grid of at least 2 rows and 2 columns
    whose rows have equal length (lengths below [2^32], stored values
    of magnitude at most [2^1000]), and for [u], [v] in [[0,1]],
    [interpolateSigma] in binary64 arithmetic reads the four corners of
    the grid cell that surrounds the computed sample position and
    returns a number that leaves the interval between the smallest and
    the largest corner value by rounding errors only: by at most
    [2^-46] times the largest corner magnitude, plus [2^-1071]. *)
Theorem interpolateSigma_near_corners
    (grid : list (list Q)) (R C : nat) (u v : Q) :
  (2 <= R)%nat -> (2 <= C)%nat ->
  (Z.of_nat R <= 4294967295)%Z -> (Z.of_nat C <= 4294967295)%Z ->
  rectangular grid R C -> bounded grid ->
  0 <= u <= 1 -> 0 <= v <= 1 ->
  exists (gx gy : Q) (q00 q10 q01 q11 v00 v10 v01 v11 r : Q),
    let x0 := Qfloor gx in
    let y0 := Qfloor gy in
    let x1 := Z.min (x0 + 1) (Z.of_nat C - 1) in
    let y1 := Z.min (y0 + 1) (Z.of_nat R - 1) in
    let m := Qmin (Qmin v00 v10) (Qmin v01 v11) in
    let M := Qmax (Qmax v00 v10) (Qmax v01 v11) in
    let slack :=
      Qmax (Qabs m) (Qabs M) * (1 # 70368744177664) + 2 ^ (-1071) in
    sample_position u C = IEEE.Fin gx /\
    sample_position v R = IEEE.Fin gy /\
    stored grid y0 x0 = Some q00 /\
    stored grid y0 x1 = Some q10 /\
    stored grid y1 x0 = Some q01 /\
    stored grid y1 x1 = Some q11 /\
    IEEE.binary64 q00 = IEEE.Fin v00 /\
    IEEE.binary64 q10 = IEEE.Fin v10 /\
    IEEE.binary64 q01 = IEEE.Fin v01 /\
    IEEE.binary64 q11 = IEEE.Fin v11 /\
    Binary64.interpolateSigma (IEEE.Fin u) (IEEE.Fin v) grid
      (IEEE.Fin (Qn R)) (IEEE.Fin (Qn C)) = Normal (IEEE.Fin r) /\
    m - slack <= r /\
    r <= M + slack.
Proof.
  intros HR HC HRmax HCmax Hrect Hb Hu Hv.
  destruct (position_in_range u C ltac:(lia) HCmax Hu) as (gx & Px & Hx0 & Hx1).
  destruct (position_in_range v R ltac:(lia) HRmax Hv) as (gy & Py & Hy0 & Hy1).
  destruct (interpolateSigma_computed grid R C u v HR HC HRmax HCmax Hrect Hb
              gx gy Px Hx0 Hx1 Py Hy0 Hy1)
    as (q00 & q10 & q01 & q11 & r & H).
  cbv zeta in H.
  destruct H as (S00 & S10 & S01 & S11 & P00 & P10 & P01 & P11 & Hr & Hbound).
  exists gx, gy, q00, q10, q01, q11, (r64 q00), (r64 q10), (r64 q01), (r64 q11), r.
  cbv zeta.
  do 11 (split; [assumption|]).
  set (m := Qmin (Qmin (r64 q00) (r64 q10)) (Qmin (r64 q01) (r64 q11))).
  set (M := Qmax (Qmax (r64 q00) (r64 q10)) (Qmax (r64 q01) (r64 q11))).
  destruct (corners_bounds (r64 q00) (r64 q10) (r64 q01) (r64 q11))
    as (Ba & Bb & Bc & Bd).
  fold m M in Ba, Bb, Bc, Bd.
  set (A := Qmax (Qabs m) (Qabs M)).
  assert (HAm : - A <= m).
  { pose proof (Q.le_max_l (Qabs m) (Qabs M)). fold A in H.
    pose proof (Qle_Qabs (- m)). rewrite Qabs_opp in H0. lra. }
  assert (HAM : M <= A).
  { pose proof (Q.le_max_r (Qabs m) (Qabs M)). fold A in H.
    pose proof (Qle_Qabs M). lra. }
  pose proof (Hbound m M A Ba Bb Bc Bd HAm HAM) as Hfin.
  assert (E16 : 16 * eta == 2 ^ (-1071)) by reflexivity.
  set (T := 2 ^ (-1071)) in *.
  split; lra.
Qed.


Section Bounds.

(** Inside the index range of the grid, all four reads succeed. *)
Lemma interpolateSigma_inside
    (grid : list (list Q)) (R C : nat) (u v : Q) :
  rectangular grid R C ->
  0 <= u * (Qn C - 1) -> u * (Qn C - 1) < Qn C ->
  0 <= v * (Qn R - 1) -> v * (Qn R - 1) < Qn R ->
  exists r : Q,
    interpolateSigma (Fin u) (Fin v) grid (of_nat R) (of_nat C)
      = Normal (Fin r).
Proof.
  intros Hrect. set (gx := u * (Qn C - 1)). set (gy := v * (Qn R - 1)).
  intros Hx0 Hx1 Hy0 Hy1.
  pose proof (Qfloor_resp_le 0 gx Hx0) as Lx.
  pose proof (Qfloor_resp_le 0 gy Hy0) as Ly.
  change (Qfloor 0) with 0%Z in Lx, Ly.
  assert (Ux : (Qfloor gx < Z.of_nat C)%Z).
  { rewrite Zlt_Qlt. pose proof (Qfloor_le gx). unfold Qn in Hx1. lra. }
  assert (Uy : (Qfloor gy < Z.of_nat R)%Z).
  { rewrite Zlt_Qlt. pose proof (Qfloor_le gy). unfold Qn in Hy1. lra. }
  set (x0 := Qfloor gx) in *. set (y0 := Qfloor gy) in *.
  set (x1 := Z.min (x0 + 1) (Z.of_nat C - 1)).
  set (y1 := Z.min (y0 + 1) (Z.of_nat R - 1)).
  destruct (cell_inside grid R C y0 x0 Hrect) as (a & _ & Ca); [lia..|].
  destruct (cell_inside grid R C y0 x1 Hrect) as (b & _ & Cb); [lia..|].
  destruct (cell_inside grid R C y1 x0 Hrect) as (c & _ & Cc); [lia..|].
  destruct (cell_inside grid R C y1 x1 Hrect) as (d & _ & Cd); [lia..|].
  eexists. rewrite interpolateSigma_cells. fold gx gy. fold x0 y0. fold x1 y1.
  rewrite Ca, Cb, Cc, Cd. reflexivity.
Qed.

(** In particular for every [u], [v] in [[0,1]]. *)
Lemma interpolateSigma_unit_square
    (grid : list (list Q)) (R C : nat) (u v : Q) :
  (1 <= R)%nat -> (1 <= C)%nat -> rectangular grid R C ->
  0 <= u <= 1 -> 0 <= v <= 1 ->
  exists r : Q,
    interpolateSigma (Fin u) (Fin v) grid (of_nat R) (of_nat C)
      = Normal (Fin r).
Proof.
  intros HR HC Hrect Hu Hv.
  destruct (position_range u C HC Hu) as [Hx0 Hx1].
  destruct (position_range v R HR Hv) as [Hy0 Hy1].
  assert (inject_Z (Z.of_nat C - 1) < Qn C)
    by (unfold Qn; rewrite <- Zlt_Qlt; lia).
  assert (inject_Z (Z.of_nat R - 1) < Qn R)
    by (unfold Qn; rewrite <- Zlt_Qlt; lia).
  apply interpolateSigma_inside; (assumption || lra).
Qed.

End Bounds.

(** C6, as the code has it.  On a grid of [R >= 2] rows and [C >= 2]
    columns (lengths below [2^32], stored values of magnitude at most
    [2^1000]), [interpolateSigma] in binary64 arithmetic returns a
    finite number exactly when the sample position it computes
    satisfies [0 <= u*(C-1) < C] and [0 <= v*(R-1) < R].  This covers
    every [u], [v] in [[0,1]].  Only the upper indices [x1], [y1] are
    clamped; the lower indices [x0], [y0] are not, so other positions
    leave the grid. *)
Theorem interpolateSigma_finite_in_range
    (grid : list (list Q)) (R C : nat) (u v : Q) :
  (2 <= R)%nat -> (2 <= C)%nat ->
  (Z.of_nat R <= 4294967295)%Z -> (Z.of_nat C <= 4294967295)%Z ->
  rectangular grid R C -> bounded grid ->
  ((exists r : Q,
      Binary64.interpolateSigma (IEEE.Fin u) (IEEE.Fin v) grid
        (IEEE.Fin (Qn R)) (IEEE.Fin (Qn C)) = Normal (IEEE.Fin r))
   <->
   in_range u C /\ in_range v R)
  /\
  (0 <= u <= 1 -> 0 <= v <= 1 ->
   exists r : Q,
     Binary64.interpolateSigma (IEEE.Fin u) (IEEE.Fin v) grid
       (IEEE.Fin (Qn R)) (IEEE.Fin (Qn C)) = Normal (IEEE.Fin r)).
Proof.
  intros HR HC HRmax HCmax Hrect Hb.
  assert (Hback : in_range u C /\ in_range v R ->
    exists r : Q,
      Binary64.interpolateSigma (IEEE.Fin u) (IEEE.Fin v) grid
        (IEEE.Fin (Qn R)) (IEEE.Fin (Qn C)) = Normal (IEEE.Fin r)).
  { intros [(gx & Px & Hx0 & Hx1) (gy & Py & Hy0 & Hy1)].
    destruct (interpolateSigma_computed grid R C u v HR HC HRmax HCmax
                Hrect Hb gx gy Px Hx0 Hx1 Py Hy0 Hy1)
      as (q00 & q10 & q01 & q11 & r & H).
    exists r. apply H. }
  split; [split|].
  - intros [r Hr].
    exact (interpolateSigma_finite_positions grid R C u v Hrect r Hr).
  - exact Hback.
  - intros Hu Hv. apply Hback. split.
    + apply position_in_range; (assumption || lia).
    + apply position_in_range; (assumption || lia).
Qed.

(** The centre of a 2 by 2 grid. *)
Lemma interpolateSigma_near_corners_witness :
  exists r : Q,
    Binary64.interpolateSigma (IEEE.Fin (1 # 2)) (IEEE.Fin (1 # 2))
      [[1; 2]; [3; 4]] (IEEE.Fin (Qn 2)) (IEEE.Fin (Qn 2))
      = Normal (IEEE.Fin r).
Proof.
  destruct (interpolateSigma_near_corners [[1; 2]; [3; 4]] 2 2 (1 # 2) (1 # 2))
    as (gx & gy & a & b & c & d & va & vb & vc & vd & r & H).
  - lia.
  - lia.
  - lia.
  - lia.
  - split; [reflexivity | repeat constructor].
  - repeat constructor; vm_compute; discriminate.
  - split; unfold Qle; simpl; lia.
  - split; unfold Qle; simpl; lia.
  - exists r. apply H.
Defined.


(** Just past the right edge: the computed [u*(C-1)] is [3/2 < 2], both
    columns read are the last one. *)
Lemma interpolateSigma_finite_in_range_witness :
  exists r : Q,
    Binary64.interpolateSigma (IEEE.Fin (3 # 2)) (IEEE.Fin (1 # 3))
      [[1; 2]; [3; 4]] (IEEE.Fin (Qn 2)) (IEEE.Fin (Qn 2))
      = Normal (IEEE.Fin r).
Proof.
  destruct (interpolateSigma_finite_in_range [[1; 2]; [3; 4]] 2 2 (3 # 2) (1 # 3))
    as [[_ Hback] _].
  - lia.
  - lia.
  - lia.
  - lia.
  - split; [reflexivity | repeat constructor].
  - repeat constructor; vm_compute; discriminate.
  - apply Hback. split.
    + eexists. split; [vm_compute; reflexivity|].
      split; vm_compute; first [reflexivity | discriminate].
    + eexists. split; [vm_compute; reflexivity|].
      split; vm_compute; first [reflexivity | discriminate].
Defined.

(** C1 fails as stated: with all four corners [0.1], the result at
    [u = v = 0.25] is the next binary64 number above the corner
    value. *)
Lemma interpolateSigma_rounding_counterexample :
  rectangular [[1 # 10; 1 # 10]; [1 # 10; 1 # 10]] 2 2 /\
  exists c r : Q,
    IEEE.binary64 (1 # 10) = IEEE.Fin c /\
    Binary64.interpolateSigma (IEEE.Fin (1 # 4)) (IEEE.Fin (1 # 4))
      [[1 # 10; 1 # 10]; [1 # 10; 1 # 10]] (IEEE.Fin (Qn 2)) (IEEE.Fin (Qn 2))
      = Normal (IEEE.Fin r) /\
    c == 3602879701896397 # 36028797018963968 /\
    r == (3602879701896397 # 36028797018963968) + (1 # 72057594037927936) /\
    ~ r <= Qmax (Qmax c c) (Qmax c c) /\
    ~ r <= 1 # 10.
Proof.
  split; [split; [reflexivity | repeat constructor]|].
  eexists. eexists.
  split; [vm_compute; reflexivity|].
  split; [vm_compute; reflexivity|].
  split; [reflexivity|]. split; [reflexivity|].
  split; vm_compute; intros H; apply H; reflexivity.
Qed.

(** C6 fails as stated: with both coordinates outside [[0,1]] a row index
    past the grid throws, and a column index past the row reads
    [undefined], which makes the result [NaN]. *)
Lemma interpolateSigma_outside_counterexample :
  rectangular [[1; 2]; [3; 4]] 2 2 /\
  interpolateSigma (Fin 2) (Fin 2) [[1; 2]; [3; 4]] (of_nat 2) (of_nat 2)
    = Throw TypeError /\
  interpolateSigma (Fin 2) (Fin (3 # 2)) [[1; 2]; [3; 4]] (of_nat 2) (of_nat 2)
    = Normal NaN /\
  interpolateSigma (Fin (-1 # 2)) (Fin (-1 # 2)) [[1; 2]; [3; 4]]
    (of_nat 2) (of_nat 2) = Throw TypeError.
Proof.
  split; [split; [reflexivity | repeat constructor]|].
  repeat split; vm_compute; reflexivity.
Qed.

(** The same three calls in binary64 arithmetic. *)
Lemma interpolateSigma_outside_binary64 :
  Binary64.interpolateSigma (IEEE.Fin 2) (IEEE.Fin 2) [[1; 2]; [3; 4]]
    (IEEE.Fin (Qn 2)) (IEEE.Fin (Qn 2)) = Throw TypeError /\
  Binary64.interpolateSigma (IEEE.Fin 2) (IEEE.Fin (3 # 2)) [[1; 2]; [3; 4]]
    (IEEE.Fin (Qn 2)) (IEEE.Fin (Qn 2)) = Normal IEEE.NaN /\
  Binary64.interpolateSigma (IEEE.Fin (-1 # 2)) (IEEE.Fin (-1 # 2))
    [[1; 2]; [3; 4]] (IEEE.Fin (Qn 2)) (IEEE.Fin (Qn 2)) = Throw TypeError.
Proof. repeat split; vm_compute; reflexivity. Qed.

(** The range is that of the computed position.  With 4 columns and
    [u] the binary64 number nearest to [4/3], the exact product
    [u * 3] is below 4, the computed one is 4: column 4 is read, and
    the result is [NaN]. *)
Lemma interpolateSigma_rounded_position :
  exists u : Q,
    IEEE.binary64 (4 # 3) = IEEE.Fin u /\
    u * (Qn 4 - 1) < Qn 4 /\
    sample_position u 4 = IEEE.Fin 4 /\
    Binary64.interpolateSigma (IEEE.Fin u) (IEEE.Fin 0)
      [[1; 2; 3; 4]; [5; 6; 7; 8]] (IEEE.Fin (Qn 2)) (IEEE.Fin (Qn 4))
      = Normal IEEE.NaN.
Proof.
  eexists. split; [vm_compute; reflexivity|].
  split; [vm_compute; reflexivity|].
  split; vm_compute; reflexivity.
Qed.

(** ** The mesh builder *)

Section MeshLoops.

Variables (cfg : Config) (grid : option (list (list Q))) (nRows nCols : num).

Let gridX := renderGrid_x cfg.
Let gridY := renderGrid_y cfg.

Lemma vertex_step_height (i j : nat) (acc : list num * list num) :
  vertex_step cfg grid nRows nCols i j acc =
  match height_at cfg grid nRows nCols i j with
  | Normal z =>
      Normal (acc.1 ++ [z],
              acc.2 ++ [((coord j gridX - 0.5) * scaleX cfg)%js; z;
                        ((coord i gridY - 0.5) * scaleY cfg)%js])
  | Throw e => Throw e
  end.
Proof. reflexivity. Qed.

Lemma vertex_row_loop (i : nat) (cols : list nat) (acc acc' : list num * list num) :
  for_each cols (vertex_step cfg grid nRows nCols i) acc = Normal acc' <->
  Forall (fun j => exists z, height_at cfg grid nRows nCols i j = Normal z) cols /\
  acc' = (acc.1 ++ map (height_or_NaN cfg grid nRows nCols i) cols,
          acc.2 ++ flat_map (vertex_triple cfg grid nRows nCols i) cols).
Proof.
  revert acc acc'. induction cols as [|j cols IH]; intros acc acc'.
  - simpl. rewrite !app_nil_r. destruct acc as [a b]. simpl.
    split.
    + intros [= <-]. split; [constructor | reflexivity].
    + intros [_ ->]. reflexivity.
  - cbn [for_each map flat_map]. rewrite vertex_step_height.
    destruct (height_at cfg grid nRows nCols i j) as [z|e] eqn:Hz.
    + assert (Hn : height_or_NaN cfg grid nRows nCols i j = z)
        by (unfold height_or_NaN; rewrite Hz; reflexivity).
      unfold vertex_triple at 1. rewrite Hn.
      cbv [mbind completion_bind bind].
      rewrite IH. cbn [fst snd]. rewrite <- !app_assoc. cbn [app].
      split.
      * intros [HF ->]. split; [constructor; eauto | reflexivity].
      * intros [HF ->]. inversion HF; subst. split; [assumption | reflexivity].
    + cbv [mbind completion_bind bind]. split; [discriminate|].
      intros [HF _]. inversion HF as [|? ? [z Hz'] ?]; subst. congruence.
Qed.

Lemma vertex_loops (rows cols : list nat) (acc acc' : list num * list num) :
  for_each rows
    (fun i => for_each cols (vertex_step cfg grid nRows nCols i)) acc
    = Normal acc' <->
  Forall (fun i =>
            Forall (fun j => exists z,
                      height_at cfg grid nRows nCols i j = Normal z) cols)
         rows /\
  acc' = (acc.1 ++ flat_map (fun i => map (height_or_NaN cfg grid nRows nCols i) cols) rows,
          acc.2 ++ flat_map (fun i => flat_map (vertex_triple cfg grid nRows nCols i) cols) rows).
Proof.
  revert acc acc'. induction rows as [|i rows IH]; intros acc acc'.
  - simpl. rewrite !app_nil_r. destruct acc as [a b]. simpl.
    split.
    + intros [= <-]. split; [constructor | reflexivity].
    + intros [_ ->]. reflexivity.
  - cbn [for_each flat_map].
    destruct (for_each cols (vertex_step cfg grid nRows nCols i) acc)
      as [acc1|e] eqn:Hrow.
    + apply vertex_row_loop in Hrow as [Hcols ->].
      cbv [mbind completion_bind bind]. rewrite IH. cbn [fst snd].
      rewrite <- !app_assoc.
      split.
      * intros [HF ->]. split; [constructor; assumption | reflexivity].
      * intros [HF ->]. inversion HF; subst. split; [assumption | reflexivity].
    + cbv [mbind completion_bind bind]. split; [discriminate|].
      intros [HF _]. inversion HF as [|? ? Hcols ?]; subst.
      assert (Hn : for_each cols (vertex_step cfg grid nRows nCols i) acc
                   = Normal (acc.1 ++ map (height_or_NaN cfg grid nRows nCols i) cols,
                             acc.2 ++ flat_map (vertex_triple cfg grid nRows nCols i) cols))
        by (apply vertex_row_loop; split; [assumption | reflexivity]).
      congruence.
Qed.

End MeshLoops.

Section FlatLists.

Context {A : Type}.

Lemma flat_rows_length (f : nat -> list A) (w : nat) (rows : list nat) :
  (forall i, length (f i) = w) ->
  length (flat_map f rows) = (length rows * w)%nat.
Proof.
  intros Hw. induction rows as [|i rows IH]; [reflexivity|].
  cbn [flat_map]. rewrite length_app, Hw, IH. simpl. lia.
Qed.

Lemma flat_rows_lookup (f : nat -> nat -> A) (m n i j : nat) :
  (i < n)%nat -> (j < m)%nat ->
  flat_map (fun i => map (f i) (seq 0 m)) (seq 0 n) !! (i * m + j)%nat
    = Some (f i j).
Proof.
  intros Hi Hj. induction n as [|n IH]; [lia|].
  rewrite seq_S, flat_map_app. cbn [flat_map]. rewrite app_nil_r.
  assert (Hlen : length (flat_map (fun i => map (f i) (seq 0 m)) (seq 0 n))
                 = (n * m)%nat).
  { rewrite (flat_rows_length _ m)
      by (intros; rewrite length_map, length_seq; reflexivity).
    rewrite length_seq. reflexivity. }
  destruct (decide (i < n)%nat) as [Hlt|Hge].
  - rewrite lookup_app_l by (rewrite Hlen; nia). apply IH. exact Hlt.
  - assert (i = n) by lia. subst i.
    rewrite lookup_app_r by (rewrite Hlen; lia).
    rewrite Hlen. replace (n * m + j - n * m)%nat with j by lia.
    rewrite list_lookup_fmap, lookup_seq_lt by exact Hj. reflexivity.
Qed.

End FlatLists.

Section Wireframe.

Lemma index_row_length (gridX i : nat) (cols : list nat) (acc : list nat) :
  length (foldl (fun acc j => index_step gridX i j acc) acc cols)
    = (length acc + 4 * length cols)%nat.
Proof.
  revert acc. induction cols as [|j cols IH]; intros acc; simpl; [lia|].
  rewrite IH. unfold index_step. rewrite !length_app. simpl. lia.
Qed.

Lemma index_rows_length (gridX : nat) (rows cols : list nat) (acc : list nat) :
  length (foldl (fun acc i => foldl (fun acc j => index_step gridX i j acc)
                                    acc cols) acc rows)
    = (length acc + 4 * (length rows * length cols))%nat.
Proof.
  revert acc. induction rows as [|i rows IH]; intros acc; simpl; [lia|].
  rewrite IH, index_row_length. lia.
Qed.

Lemma wireframe_length (gridX gridY : nat) :
  length (wireframe gridX gridY) = (4 * (gridX * gridY))%nat.
Proof.
  unfold wireframe. rewrite index_rows_length, !length_seq. simpl. lia.
Qed.

End Wireframe.

Section CreateSurface.

Variable s : t.

Let cfg := config s.
Let gridX := renderGrid_x cfg.
Let gridY := renderGrid_y cfg.

(** The mesh [createSurface] leaves behind, given the column count. *)
Let built (nCols : num) : t :=
  {| config := cfg;
     renderer := renderer s;
     surfaceData := surfaceData s;
     baseHeights :=
       Some (flat_map (fun i => map (height_or_NaN cfg (grid_of s) (nRows_of s) nCols i)
                                    (seq 0 (S gridX)))
                      (seq 0 (S gridY)));
     surface :=
       Some {| position :=
                 Float32 <$>
                   flat_map (fun i => flat_map (vertex_triple cfg (grid_of s) (nRows_of s) nCols i)
                                               (seq 0 (S gridX)))
                            (seq 0 (S gridY));
               index := wireframe gridX gridY |};
     surfaceGroup := Some (Fin 0, Fin 0);
     time := time s;
     console := console s |}.

Lemma createSurface_Normal (s' : t) :
  createSurface s = Normal s' <->
  exists nCols : num,
    nCols_of s = Normal nCols /\
    Forall (fun i =>
              Forall (fun j => exists z,
                        height_at cfg (grid_of s) (nRows_of s) nCols i j = Normal z)
                     (seq 0 (S gridX)))
           (seq 0 (S gridY)) /\
    s' = built nCols.
Proof.
  unfold createSurface. fold (grid_of s). fold (nRows_of s). fold (nCols_of s).
  fold cfg. fold gridX gridY. fold (wireframe gridX gridY).
  destruct (nCols_of s) as [nC|e].
  - cbv [mbind completion_bind bind].
    destruct (for_each (seq 0 (S gridY)) _ ([], [])) as [bv|e] eqn:Hloop.
    + apply vertex_loops in Hloop as [HF ->]. cbn [fst snd app].
      split.
      * intros [= <-]. exists nC. repeat split; assumption.
      * intros (nC' & [= <-] & _ & ->). reflexivity.
    + split; [discriminate|].
      intros (nC' & [= <-] & HF & _).
      assert (for_each (seq 0 (S gridY))
                (fun i => for_each (seq 0 (S gridX))
                            (vertex_step cfg (grid_of s) (nRows_of s) nC i))
                ([], []) = Normal
                  (([], []).1 ++ flat_map (fun i => map (height_or_NaN cfg (grid_of s) (nRows_of s) nC i) (seq 0 (S gridX))) (seq 0 (S gridY)),
                   ([], []).2 ++ flat_map (fun i => flat_map (vertex_triple cfg (grid_of s) (nRows_of s) nC i) (seq 0 (S gridX))) (seq 0 (S gridY))))
        by (apply vertex_loops; split; [assumption | reflexivity]).
      congruence.
  - cbv [mbind completion_bind bind]. split; [discriminate|].
    intros (nC' & [=] & _).
Qed.

End CreateSurface.

Section Coordinates.

Lemma Qn_pos (n : nat) : (1 <= n)%nat -> 0 < Qn n.
Proof.
  intros Hn. unfold Qn. change 0 with (inject_Z 0). rewrite <- Zlt_Qlt. lia.
Qed.

Lemma coord_fin (k n : nat) :
  (1 <= n)%nat -> coord k n = Fin (Qn k / Qn n).
Proof.
  intros Hn. unfold coord, of_nat, of_Z, div. fold (Qn k) (Qn n).
  destruct (Qeq_bool (Qn n) 0) eqn:E; [|reflexivity].
  apply Qeq_bool_iff in E. pose proof (Qn_pos n Hn). lra.
Qed.

Lemma coord_unit (k n : nat) :
  (1 <= n)%nat -> (k <= n)%nat -> 0 <= Qn k / Qn n <= 1.
Proof.
  intros Hn Hk. pose proof (Qn_pos n Hn) as Hp.
  assert (H0 : 0 <= Qn k)
    by (unfold Qn; change 0 with (inject_Z 0); rewrite <- Zle_Qle; lia).
  assert (H1 : Qn k <= Qn n) by (unfold Qn; rewrite <- Zle_Qle; lia).
  split.
  - apply Qle_shift_div_l; [exact Hp | lra].
  - apply Qle_shift_div_r; [exact Hp | lra].
Qed.

End Coordinates.

Section Totality.

Variable s : t.
Hypothesis Hwf : well_formed s.
Hypothesis HgridX : (1 <= renderGrid_x (config s))%nat.
Hypothesis HgridY : (1 <= renderGrid_y (config s))%nat.

Lemma heights_defined :
  exists nCols : num,
    nCols_of s = Normal nCols /\
    forall i j : nat,
      (i <= renderGrid_y (config s))%nat ->
      (j <= renderGrid_x (config s))%nat ->
      exists z, height_at (config s) (grid_of s) (nRows_of s) nCols i j
                = Normal z.
Proof.
  unfold nCols_of, nRows_of, grid_of.
  destruct (surfaceData s) as [d|] eqn:Hd; cbn [fmap option_fmap option_map].
  - destruct (Hwf d Hd) as (R & C & HR & HC & Hrect).
    pose proof Hrect as [HlenR Hrows].
    destruct (lookup_lt_is_Some_2 (surface_grid d) 0) as [row Hrow]; [lia|].
    assert (Hlen : length row = C).
    { rewrite Forall_forall in Hrows. apply Hrows.
      eapply list_elem_of_lookup_2; eauto. }
    rewrite Hrow, Hlen, HlenR. eexists. split; [reflexivity|].
    intros i j Hi Hj. unfold height_at, VolatilitySurface.height.
    rewrite !coord_fin by assumption.
    destruct (interpolateSigma_unit_square (surface_grid d) R C
                (Qn j / Qn (renderGrid_x (config s)))
                (Qn i / Qn (renderGrid_y (config s))))
      as [r Hr]; [lia | lia | exact Hrect | apply coord_unit; assumption..|].
    rewrite Hr. eexists. reflexivity.
  - eexists. split; [reflexivity|].
    intros i j _ _. eexists. reflexivity.
Qed.

Lemma createSurface_total :
  exists (s' : t) (nCols : num),
    createSurface s = Normal s' /\
    nCols_of s = Normal nCols /\
    baseHeights s' =
      Some (flat_map (fun i => map (height_or_NaN (config s) (grid_of s) (nRows_of s) nCols i)
                                   (seq 0 (S (renderGrid_x (config s)))))
                     (seq 0 (S (renderGrid_y (config s))))) /\
    (forall i j : nat,
       (i <= renderGrid_y (config s))%nat ->
       (j <= renderGrid_x (config s))%nat ->
       exists z, height_at (config s) (grid_of s) (nRows_of s) nCols i j
                 = Normal z).
Proof.
  destruct heights_defined as (nC & HnC & Hh).
  eexists. exists nC. split; [|split; [exact HnC | split; [|exact Hh]]].
  - apply createSurface_Normal. exists nC. split; [exact HnC|].
    split; [|reflexivity].
    apply Forall_forall. intros i Hi%elem_of_seq.
    apply Forall_forall. intros j Hj%elem_of_seq.
    apply Hh; lia.
  - reflexivity.
Qed.

End Totality.

(** C3, as the code has it.  For a render grid of [gx >= 1] by [gy >= 1]
    segments, [createSurface] emits [(gx+1)*(gy+1)] vertices (three
    position numbers each) and as many base heights, and [2*gx*gy]
    wireframe line segments; each segment takes two entries of the index
    list, which therefore has [4*gx*gy] entries. *)
Theorem createSurface_counts (s : t) :
  (1 <= renderGrid_x (config s))%nat ->
  (1 <= renderGrid_y (config s))%nat ->
  well_formed s ->
  exists (s' : t) (bh : list num) (geo : Geometry),
    createSurface s = Normal s' /\
    baseHeights s' = Some bh /\
    surface s' = Some geo /\
    length bh
      = ((renderGrid_x (config s) + 1) * (renderGrid_y (config s) + 1))%nat /\
    length (position geo)
      = (3 * ((renderGrid_x (config s) + 1) * (renderGrid_y (config s) + 1)))%nat /\
    length (index geo)
      = (2 * (2 * renderGrid_x (config s) * renderGrid_y (config s)))%nat.
Proof.
  intros Hx Hy Hwf.
  destruct (createSurface_total s Hwf Hx Hy) as (s' & nC & Hs' & _).
  pose proof Hs' as Hb. apply createSurface_Normal in Hb as (nC' & _ & _ & ->).
  eexists. eexists. eexists.
  split; [exact Hs'|]. split; [reflexivity|]. split; [reflexivity|].
  cbn [position index]. split; [|split].
  - rewrite (flat_rows_length _ (S (renderGrid_x (config s))))
      by (intros; rewrite length_map, length_seq; reflexivity).
    rewrite length_seq. lia.
  - rewrite length_fmap.
    rewrite (flat_rows_length _ (3 * S (renderGrid_x (config s))))
      by (intros; rewrite (flat_rows_length _ 3), length_seq by reflexivity; lia).
    rewrite length_seq. lia.
  - rewrite wireframe_length. lia.
Qed.

(** The mobile render grid (20 by 12) over the example dataset. *)
Lemma createSurface_counts_witness :
  exists (s' : t) (bh : list num) (geo : Geometry),
    createSurface (load (VolatilitySurface.new true) (Json (Some example_data)))
      = Normal s' /\
    baseHeights s' = Some bh /\
    surface s' = Some geo /\
    length bh = 273%nat /\
    length (position geo) = 819%nat /\
    length (index geo) = 960%nat.
Proof.
  apply (createSurface_counts
           (load (VolatilitySurface.new true) (Json (Some example_data)))).
  - simpl. lia.
  - simpl. lia.
  - intros d Hd. simpl in Hd. injection Hd as <-.
    exists 2%nat, 2%nat. split; [lia|]. split; [lia|].
    split; [reflexivity | repeat constructor].
Defined.

(** C3 fails as stated: a render grid of 1 by 1 has one cell, whose two
    segments take four index entries, not [2*1*1]. *)
Lemma createSurface_index_counterexample :
  exists (s' : t) (geo : Geometry),
    createSurface (with_renderGrid 1 1 (VolatilitySurface.new false)) = Normal s' /\
    surface s' = Some geo /\
    index geo = [0; 2; 0; 1]%nat /\
    length (index geo) <> (2 * 1 * 1)%nat.
Proof.
  eexists. eexists. split; [vm_compute; reflexivity|].
  split; [reflexivity|]. split; [reflexivity|]. simpl. lia.
Qed.

Section HeightSource.



Lemma built_height_lookup (cfg : Config) (grid : option (list (list Q)))
    (nRows nCols : num) (i j : nat) :
  (i <= renderGrid_y cfg)%nat -> (j <= renderGrid_x cfg)%nat ->
  flat_map (fun i => map (height_or_NaN cfg grid nRows nCols i)
                         (seq 0 (S (renderGrid_x cfg))))
           (seq 0 (S (renderGrid_y cfg))) !! vertex_index cfg i j
  = Some (height_or_NaN cfg grid nRows nCols i j).
Proof.
  intros Hi Hj. unfold vertex_index.
  replace (renderGrid_x cfg + 1)%nat with (S (renderGrid_x cfg)) by lia.
  apply (flat_rows_lookup (height_or_NaN cfg grid nRows nCols)); lia.
Qed.


End HeightSource.




(** ** The animation driver *)

Section Stores.

Context {A P : Type} (key : P -> nat) (val : P -> A).





End Stores.

Section NestedLoops.

Context {S : Type}.


End NestedLoops.

Section Frames.

Context `{Host}.





End Frames.

Section FrameInvariant.

Context `{Host}.


End FrameInvariant.




(** ** The hover charts *)

Import ProjectVisualizations.

(** C7.  For the matrix [[0.7,0.3],[0.4,0.6]] and the states "Up",
    "Down", whatever the distribution, the heat map group holds exactly
    four rectangles; each is filled with the colour of its matrix value
    and followed by a label that is the value printed with two decimals:
    "0.70", "0.30", "0.40", "0.60". *)
Theorem Markov_heatmap_cells `{Host} `{D3} (dist : list state_probability) :
  exists (hm bars : list node) (tr : list (string * attr)),
    Markov_children (example_markov dist)
      = [Element "g" [] None hm; Element "g" tr None bars] /\
    length (filter is_rect hm) = 4%nat /\
    map summary (take 8 hm)
      = [("rect", Some (AStr (colorScale 0.7)), None);
         ("text", Some (AStr "#fff"), Some "0.70");
         ("rect", Some (AStr (colorScale 0.3)), None);
         ("text", Some (AStr "#333"), Some "0.30");
         ("rect", Some (AStr (colorScale 0.4)), None);
         ("text", Some (AStr "#333"), Some "0.40");
         ("rect", Some (AStr (colorScale 0.6)), None);
         ("text", Some (AStr "#fff"), Some "0.60")] /\
    map (fun value : Q => toFixed value 2) [0.7; 0.3; 0.4; 0.6]
      = ["0.70"; "0.30"; "0.40"; "0.60"].
Proof.
  eexists. eexists. eexists.
  split; [reflexivity|].
  split; [vm_compute; reflexivity|].
  split; vm_compute; reflexivity.
Qed.

(** C9.  For the Kalman and the Markov chart, started from the state
    the constructor leaves: the container receives a drawing exactly
    when the fetch delivers a document; then the chart is the one
    [render] draws from that document and nothing is logged.  When the
    request is rejected or the body is not JSON, the error is logged,
    [render] is not run, the container stays empty and no data is
    kept. *)
Theorem charts_render_iff_data `{Host} `{D3} (containerId : string) :
  (forall f : fetched KalmanData,
     let s' := Kalman_init f (ProjectVisualizations.new containerId) in
     (container s' <> [] <-> exists d, f = Json (Some d)) /\
     (forall d, f = Json (Some d) ->
        s' = Kalman_render (loadData "data/kalman-data.json" f
                              (ProjectVisualizations.new containerId)) d /\
        container s' = [createSVG (Kalman_children d)] /\
        ProjectVisualizations.console s' = []) /\
     (f = FetchRejected \/ f = BodyNotJson ->
        s' = loadData "data/kalman-data.json" f
               (ProjectVisualizations.new containerId) /\
        container s' = [] /\
        data s' = None /\
        ProjectVisualizations.console s'
          = [console_error "Error loading data from data/kalman-data.json:"]))
  /\
  (forall f : fetched MarkovData,
     let s' := Markov_init f (ProjectVisualizations.new containerId) in
     (container s' <> [] <-> exists d, f = Json (Some d)) /\
     (forall d, f = Json (Some d) ->
        s' = Markov_render (loadData "data/markov-data.json" f
                              (ProjectVisualizations.new containerId)) d /\
        container s' = [createSVG (Markov_children d)] /\
        ProjectVisualizations.console s' = []) /\
     (f = FetchRejected \/ f = BodyNotJson ->
        s' = loadData "data/markov-data.json" f
               (ProjectVisualizations.new containerId) /\
        container s' = [] /\
        data s' = None /\
        ProjectVisualizations.console s'
          = [console_error "Error loading data from data/markov-data.json:"])).
Proof.
  split; intros f s'; subst s'.
  - destruct f as [| |[d|]]; cbn.
    all: split; [split; [intros Hc; try (contradiction Hc; reflexivity); eauto
                        | intros [d' Hd']; try discriminate Hd'; discriminate]|].
    all: split; [intros d' Hd'; try discriminate Hd';
                 injection Hd' as <-; repeat split
                | intros [Hf|Hf]; try discriminate Hf; repeat split].
  - destruct f as [| |[d|]]; cbn.
    all: split; [split; [intros Hc; try (contradiction Hc; reflexivity); eauto
                        | intros [d' Hd']; try discriminate Hd'; discriminate]|].
    all: split; [intros d' Hd'; try discriminate Hd';
                 injection Hd' as <-; repeat split
                | intros [Hf|Hf]; try discriminate Hf; repeat split].
Qed.

Section Bars.

Context `{Host} `{D3}.

Lemma Math_max_0 (a : num) (q : Q) :
  a = Fin q -> exists r : Q, Math_max (Fin 0) a = Fin r /\ 0 <= r.
Proof.
  intros ->. exists (Qmax 0 q). split; [reflexivity | apply Q.le_max_l].
Qed.

Lemma barChartHeight_fin : exists h : Q, barChartHeight = Fin h.
Proof. eexists. reflexivity. Qed.

Lemma bar_children (d : MarkovData) (n : node) :
  n ∈ barChartGroup d -> is_rect n = true ->
  exists (i : nat) (sp : state_probability),
    stateDistribution d !! i = Some sp /\
    (1 <= length (stateDistribution d))%nat /\
    n ∈ bar (length (stateDistribution d)) i sp.
Proof.
  unfold barChartGroup. intros Hn Hrect.
  apply elem_of_app in Hn as [Hn|Hn].
  - apply list_elem_of_In, in_concat in Hn as (l & Hl & Hin).
    apply list_elem_of_In, elem_of_lookup_imap in Hl as (i & sp & -> & Hsp).
    exists i, sp. split; [exact Hsp|]. split.
    + apply lookup_lt_Some in Hsp. lia.
    + apply list_elem_of_In. exact Hin.
  - apply list_elem_of_singleton in Hn. subst n. discriminate Hrect.
Qed.

End Bars.

(** C10.  Whatever the state distribution, with probabilities inside or
    outside [[0,1]], every bar of the Markov bar chart has a width, a
    height and a y position that are numbers not below 0, each being the
    larger of 0 and the computed value.  The linear scale of d3 is taken
    to map a finite probability to a finite number. *)
Theorem Markov_bars_nonnegative `{Host} `{D3} (d : MarkovData) (n : node) :
  (forall q : Q, exists r : Q,
      scaleLinear (Fin 0, Fin 1) (Fin 0, barChartHeight) (Fin q) = Fin r) ->
  n ∈ barChartGroup d -> is_rect n = true ->
  exists w h y : Q,
    attr_lookup "width" (node_attrs n) = Some (ANum (Fin w)) /\
    attr_lookup "height" (node_attrs n) = Some (ANum (Fin h)) /\
    attr_lookup "y" (node_attrs n) = Some (ANum (Fin y)) /\
    0 <= w /\ 0 <= h /\ 0 <= y.
Proof.
  intros Hscale Hn Hrect.
  destruct (bar_children d n Hn Hrect) as (i & sp & Hsp & Hlen & Hbar).
  set (len := length (stateDistribution d)) in *.
  unfold bar in Hbar.
  destruct (Hscale (sp_probability sp)) as [r Hr].
  destruct barChartHeight_fin as [bch Hbch].
  rewrite Hr, Hbch in Hbar.
  assert (Hw : exists bw : Q, (width / of_nat len - 10)%js = Fin bw).
  { unfold of_nat, of_Z, ProjectVisualizations.width, div, sub, lift2.
    cbn [margin_left margin_right].
    destruct (Qeq_bool (inject_Z (Z.of_nat len)) 0) eqn:E.
    - apply Qeq_bool_iff in E. pose proof (Qn_pos len Hlen) as Hp.
      unfold Qn in Hp. lra.
    - eexists. reflexivity. }
  destruct Hw as [bw Hbw]. rewrite Hbw in Hbar.
  cbn [Math_max lift2 sub add mul] in Hbar.
  apply elem_of_cons in Hbar as [->|Hbar].
  - exists (Qmax 0 bw), (Qmax 0 r), (Qmax 0 (bch - Qmax 0 r)).
    cbn. repeat split; apply Q.le_max_l.
  - apply elem_of_cons in Hbar as [->|Hbar]; [discriminate Hrect|].
    apply list_elem_of_singleton in Hbar. subst n. discriminate Hrect.
Qed.

(** The second bar of a distribution with probabilities 1.5 and -0.5. *)
Lemma Markov_bars_nonnegative_witness :
  exists (n : node) (w h y : Q),
    @barChartGroup example_host example_d3 (example_markov example_distribution)
      !! 3%nat = Some n /\
    attr_lookup "width" (node_attrs n) = Some (ANum (Fin w)) /\
    attr_lookup "height" (node_attrs n) = Some (ANum (Fin h)) /\
    attr_lookup "y" (node_attrs n) = Some (ANum (Fin y)) /\
    0 <= w /\ 0 <= h /\ 0 <= y.
Proof.
  assert (E : exists n : node,
             @barChartGroup example_host example_d3
               (example_markov example_distribution) !! 3%nat = Some n /\
             is_rect n = true)
    by (eexists; split; [vm_compute; reflexivity | reflexivity]).
  destruct E as (n & E & Hrect).
  destruct (@Markov_bars_nonnegative example_host example_d3
              (example_markov example_distribution) n)
    as (w & h & y & Hw & Hh & Hy & Hw0 & Hh0 & Hy0).
  - intros q. eexists. reflexivity.
  - eapply list_elem_of_lookup_2. exact E.
  - exact Hrect.
  - exists n, w, h, y. repeat split; assumption.
Defined.

(** ** Further properties: the interpolator *)

Section InterpolatorEdges.






End InterpolatorEdges.



Section InterpolatorValue.


End InterpolatorValue.



(** ** Further properties: the mesh *)

Section Blocks.

Context {A : Type}.

(** Looking up inside a list made of blocks of equal width. *)
Lemma flat_blocks_lookup (g : nat -> list A) (w m j k : nat) :
  (forall j, length (g j) = w) -> (j < m)%nat -> (k < w)%nat ->
  flat_map g (seq 0 m) !! (j * w + k)%nat = g j !! k.
Proof.
  intros Hw Hj Hk. induction m as [|m IH]; [lia|].
  rewrite seq_S, flat_map_app. cbn [flat_map]. rewrite app_nil_r.
  assert (Hlen : length (flat_map g (seq 0 m)) = (m * w)%nat)
    by (rewrite (flat_rows_length g w) by exact Hw; rewrite length_seq;
        reflexivity).
  destruct (decide (j < m)%nat) as [Hlt|Hge].
  - rewrite lookup_app_l by (rewrite Hlen; nia). apply IH. exact Hlt.
  - assert (j = m) by lia. subst j.
    rewrite lookup_app_r by (rewrite Hlen; lia).
    rewrite Hlen. f_equal. lia.
Qed.

Lemma flat_grid_lookup (g : nat -> nat -> list A) (w m n i j k : nat) :
  (forall i j, length (g i j) = w) ->
  (i < n)%nat -> (j < m)%nat -> (k < w)%nat ->
  flat_map (fun i => flat_map (g i) (seq 0 m)) (seq 0 n)
    !! ((i * m + j) * w + k)%nat = g i j !! k.
Proof.
  intros Hw Hi Hj Hk.
  replace ((i * m + j) * w + k)%nat with (i * (m * w) + (j * w + k))%nat
    by lia.
  rewrite (flat_blocks_lookup (fun i => flat_map (g i) (seq 0 m)) (m * w) n).
  - apply flat_blocks_lookup; [apply Hw | exact Hj | exact Hk].
  - intros i'. rewrite (flat_rows_length (g i') w) by apply Hw.
    rewrite length_seq. reflexivity.
  - exact Hi.
  - nia.
Qed.

Lemma foldl_append (B : Type) (g : B -> list A) (xs : list B) (acc : list A) :
  foldl (fun acc x => acc ++ g x) acc xs = acc ++ flat_map g xs.
Proof.
  revert acc. induction xs as [|x xs IH]; intros acc; cbn [foldl flat_map].
  - rewrite app_nil_r. reflexivity.
  - rewrite IH, app_assoc. reflexivity.
Qed.

Lemma foldl_pointwise (B : Type) (f g : A -> B -> A) (xs : list B) (acc : A) :
  (forall acc x, f acc x = g acc x) -> foldl f acc xs = foldl g acc xs.
Proof.
  intros Hfg. revert acc. induction xs as [|x xs IH]; intros acc;
    [reflexivity|].
  cbn [foldl]. rewrite Hfg. apply IH.
Qed.

End Blocks.

Section WireframeShape.

Lemma wireframe_cells (gridX gridY : nat) :
  wireframe gridX gridY
  = flat_map (fun i => flat_map (cell_segments gridX i) (seq 0 gridX))
             (seq 0 gridY).
Proof.
  unfold wireframe.
  rewrite <- (app_nil_l (flat_map _ (seq 0 gridY))).
  rewrite <- (foldl_append _
                (fun i => flat_map (cell_segments gridX i) (seq 0 gridX))).
  apply foldl_pointwise. intros acc i.
  rewrite <- foldl_append. apply foldl_pointwise. intros acc' j.
  unfold index_step, cell_segments. rewrite <- app_assoc. reflexivity.
Qed.

Lemma built_position_lookup (cfg : Config) (grid : option (list (list Q)))
    (nRows nCols : num) (i j k : nat) :
  (i <= renderGrid_y cfg)%nat -> (j <= renderGrid_x cfg)%nat -> (k < 3)%nat ->
  flat_map (fun i => flat_map (vertex_triple cfg grid nRows nCols i)
                              (seq 0 (S (renderGrid_x cfg))))
           (seq 0 (S (renderGrid_y cfg)))
    !! (vertex_index cfg i j * 3 + k)%nat
  = vertex_triple cfg grid nRows nCols i j !! k.
Proof.
  intros Hi Hj Hk. unfold vertex_index.
  replace (renderGrid_x cfg + 1)%nat with (S (renderGrid_x cfg)) by lia.
  apply (flat_grid_lookup (vertex_triple cfg grid nRows nCols) 3);
    [reflexivity | lia..].
Qed.

End WireframeShape.

(** X4.  The vertex in row [i], column [j] of the mesh [createSurface]
    builds occupies three consecutive position entries starting at
    [3*(i*(gridX+1)+j)].  They hold, rounded to binary32,
    [(u - 0.5) * scaleX], then the base height stored for that vertex,
    then [(v - 0.5) * scaleY], with [u = j/gridX] and [v = i/gridY]. *)
Theorem createSurface_positions (s s' : t) :
  createSurface s = Normal s' ->
  exists (bh : list num) (geo : Geometry),
    baseHeights s' = Some bh /\
    surface s' = Some geo /\
    forall i j : nat,
      (i <= renderGrid_y (config s))%nat ->
      (j <= renderGrid_x (config s))%nat ->
      exists z : num,
        bh !! vertex_index (config s) i j = Some z /\
        position geo !! (vertex_index (config s) i j * 3)%nat
          = Some (Float32 ((coord j (renderGrid_x (config s)) - 0.5)
                           * scaleX (config s))%js) /\
        position geo !! (vertex_index (config s) i j * 3 + 1)%nat
          = Some (Float32 z) /\
        position geo !! (vertex_index (config s) i j * 3 + 2)%nat
          = Some (Float32 ((coord i (renderGrid_y (config s)) - 0.5)
                           * scaleY (config s))%js).
Proof.
  intros Hs. apply createSurface_Normal in Hs as (nC & _ & _ & ->).
  eexists. eexists. split; [reflexivity|]. split; [reflexivity|].
  intros i j Hi Hj. cbn [position].
  exists (height_or_NaN (config s) (grid_of s) (nRows_of s) nC i j).
  split; [apply built_height_lookup; assumption|].
  pose proof (built_position_lookup (config s) (grid_of s) (nRows_of s) nC i j)
    as Hk.
  rewrite !list_lookup_fmap.
  split; [|split].
  - rewrite <- (Nat.add_0_r (vertex_index (config s) i j * 3)).
    rewrite (Hk 0%nat) by (assumption || lia). reflexivity.
  - rewrite (Hk 1%nat) by (assumption || lia). reflexivity.
  - rewrite (Hk 2%nat) by (assumption || lia). reflexivity.
Qed.

(** The fallback mesh of a 2 by 1 render grid: the vertex in row 1,
    column 1. *)
Lemma createSurface_positions_witness :
  exists (s' : t) (bh : list num) (geo : Geometry) (z : num),
    createSurface (with_renderGrid 2 1 (VolatilitySurface.new false))
      = Normal s' /\
    baseHeights s' = Some bh /\
    surface s' = Some geo /\
    bh !! 4%nat = Some z /\
    position geo !! 13%nat = Some (Float32 z).
Proof.
  assert (E : exists s',
             createSurface (with_renderGrid 2 1 (VolatilitySurface.new false))
             = Normal s') by (eexists; vm_compute; reflexivity).
  destruct E as [s' E].
  destruct (createSurface_positions _ s' E) as (bh & geo & Hbh & Hgeo & Hv).
  destruct (Hv 1%nat 1%nat) as (z & Hz & _ & Hp & _).
  - simpl. lia.
  - simpl. lia.
  - exists s', bh, geo, z. repeat split; assumption.
Defined.

Section IndexBounds.

Lemma cell_segments_elem (gridX gridY i j k : nat) :
  (i < gridY)%nat -> (j < gridX)%nat ->
  k ∈ cell_segments gridX i j ->
  (k < (gridX + 1) * (gridY + 1))%nat.
Proof.
  intros Hi Hj Hk. unfold cell_segments in Hk.
  repeat (apply elem_of_cons in Hk as [->|Hk]; [nia|]).
  apply elem_of_nil in Hk. contradiction.
Qed.

Lemma wireframe_elem (gridX gridY k : nat) :
  k ∈ wireframe gridX gridY ->
  exists i j : nat,
    (i < gridY)%nat /\ (j < gridX)%nat /\ k ∈ cell_segments gridX i j.
Proof.
  rewrite wireframe_cells, list_elem_of_In, in_flat_map.
  intros (i & Hi%in_seq & Hk). apply in_flat_map in Hk as (j & Hj%in_seq & Hk).
  exists i, j. split; [lia|]. split; [lia|]. apply list_elem_of_In. exact Hk.
Qed.

End IndexBounds.

(** X5.  Every entry of the wireframe index list [createSurface] builds
    names a vertex of the mesh: it is below the number of base
    heights. *)
Theorem createSurface_indices_in_bounds
    (s s' : t) (bh : list num) (geo : Geometry) (k : nat) :
  createSurface s = Normal s' ->
  baseHeights s' = Some bh -> surface s' = Some geo ->
  k ∈ index geo -> (k < length bh)%nat.
Proof.
  intros Hs Hbh Hgeo Hk.
  apply createSurface_Normal in Hs as (nC & _ & _ & ->).
  cbn [baseHeights surface] in Hbh, Hgeo.
  apply (inj Some) in Hbh. apply (inj Some) in Hgeo. subst bh geo.
  cbn [index] in Hk.
  rewrite (flat_rows_length _ (S (renderGrid_x (config s))))
    by (intros; rewrite length_map, length_seq; reflexivity).
  rewrite length_seq.
  apply wireframe_elem in Hk as (i & j & Hi & Hj & Hk).
  pose proof (cell_segments_elem _ _ i j k Hi Hj Hk). lia.
Qed.

(** The largest index of the fallback mesh of a 2 by 1 render grid. *)
Lemma createSurface_indices_in_bounds_witness :
  exists (s' : t) (bh : list num),
    createSurface (with_renderGrid 2 1 (VolatilitySurface.new false))
      = Normal s' /\
    baseHeights s' = Some bh /\ (4 < length bh)%nat.
Proof.
  assert (E : exists s' bh geo,
             createSurface (with_renderGrid 2 1 (VolatilitySurface.new false))
             = Normal s' /\
             baseHeights s' = Some bh /\ surface s' = Some geo /\
             4%nat ∈ index geo).
  { eexists. eexists. eexists. split; [vm_compute; reflexivity|].
    split; [reflexivity|]. split; [reflexivity|].
    apply list_elem_of_In. simpl. auto 10. }
  destruct E as (s' & bh & geo & E & Hbh & Hgeo & Hk).
  exists s', bh. split; [exact E|]. split; [exact Hbh|].
  exact (createSurface_indices_in_bounds _ s' bh geo 4 E Hbh Hgeo Hk).
Defined.

(** X6.  The index list is a list of segments, two entries each.
    Segment [n] starts at the vertex of a cell, in row [i < gridY] and
    column [j < gridX]; it ends at the vertex below when [n] is even and
    at the vertex to the right when [n] is odd.  No segment starts in
    the last row or the last column. *)
Theorem createSurface_segments (s s' : t) (geo : Geometry) (n a : nat) :
  createSurface s = Normal s' -> surface s' = Some geo ->
  index geo !! (2 * n)%nat = Some a ->
  exists i j : nat,
    (i < renderGrid_y (config s))%nat /\
    (j < renderGrid_x (config s))%nat /\
    a = vertex_index (config s) i j /\
    index geo !! (2 * n + 1)%nat
      = Some (if Nat.even n then vertex_index (config s) (S i) j
              else vertex_index (config s) i (S j)).
Proof.
  intros Hs Hgeo Ha.
  apply createSurface_Normal in Hs as (nC & _ & _ & ->).
  cbn [surface] in Hgeo. apply (inj Some) in Hgeo. subst geo.
  cbn [index] in Ha |- *.
  set (gx := renderGrid_x (config s)) in *.
  set (gy := renderGrid_y (config s)) in *.
  pose proof (lookup_lt_Some _ _ _ Ha) as Hlt.
  rewrite wireframe_length in Hlt.
  assert (Hgx : (0 < gx)%nat) by nia.
  set (c := (n / 2)%nat). set (r := (n mod 2)%nat).
  assert (Hn : n = (2 * c + r)%nat) by (apply Nat.div_mod_eq).
  assert (Hr : (r < 2)%nat) by (apply Nat.mod_upper_bound; lia).
  assert (Hc : (c < gx * gy)%nat) by nia.
  set (i := (c / gx)%nat). set (j := (c mod gx)%nat).
  assert (Hcij : c = (gx * i + j)%nat) by (apply Nat.div_mod_eq).
  assert (Hj : (j < gx)%nat) by (apply Nat.mod_upper_bound; lia).
  assert (Hi : (i < gy)%nat) by nia.
  assert (Hseg : forall k : nat, (k < 4)%nat ->
            wireframe gx gy !! ((i * gx + j) * 4 + k)%nat
            = cell_segments gx i j !! k).
  { intros k Hk. rewrite wireframe_cells.
    apply (flat_grid_lookup (cell_segments gx) 4); [reflexivity | lia..]. }
  exists i, j. split; [exact Hi|]. split; [exact Hj|].
  assert (Heven : Nat.even n = (r =? 0)%nat).
  { rewrite Hn, Nat.add_comm, Nat.even_add_mul_2.
    destruct r as [|[|r']]; [reflexivity | reflexivity | lia]. }
  rewrite Heven. unfold vertex_index. fold gx.
  destruct r as [|[|r']]; [| |lia].
  - replace (2 * n)%nat with ((i * gx + j) * 4 + 0)%nat in Ha by lia.
    replace (2 * n + 1)%nat with ((i * gx + j) * 4 + 1)%nat by lia.
    rewrite (Hseg 0%nat) in Ha by lia. rewrite (Hseg 1%nat) by lia.
    cbn in Ha |- *. injection Ha as <-. split; [reflexivity|].
    f_equal. lia.
  - replace (2 * n)%nat with ((i * gx + j) * 4 + 2)%nat in Ha by lia.
    replace (2 * n + 1)%nat with ((i * gx + j) * 4 + 3)%nat by lia.
    rewrite (Hseg 2%nat) in Ha by lia. rewrite (Hseg 3%nat) by lia.
    cbn in Ha |- *. injection Ha as <-. split; [reflexivity|].
    f_equal. lia.
Qed.

(** Segment 3 of the fallback mesh of a 2 by 1 render grid: from vertex
    1 to vertex 2. *)
Lemma createSurface_segments_witness :
  exists (s' : t) (geo : Geometry) (i j : nat),
    createSurface (with_renderGrid 2 1 (VolatilitySurface.new false))
      = Normal s' /\
    surface s' = Some geo /\
    (i < 1)%nat /\ (j < 2)%nat /\
    index geo !! 7%nat = Some (i * 3 + S j)%nat.
Proof.
  assert (E : exists s' geo,
             createSurface (with_renderGrid 2 1 (VolatilitySurface.new false))
             = Normal s' /\
             surface s' = Some geo /\ index geo !! (2 * 3)%nat = Some 1%nat).
  { eexists. eexists. split; [vm_compute; reflexivity|].
    split; reflexivity. }
  destruct E as (s' & geo & E & Hgeo & Ha).
  destruct (createSurface_segments _ s' geo 3 1 E Hgeo Ha)
    as (i & j & Hi & Hj & _ & Hb).
  exists s', geo, i, j. split; [exact E|]. split; [exact Hgeo|].
  split; [exact Hi|]. split; [exact Hj|]. exact Hb.
Defined.

Section Fallback.

Lemma synthetic_finite (u v : Q) :
  synthetic (Fin u) (Fin v) = Fin (synthetic_value u v).
Proof. reflexivity. Qed.

Lemma square_unit (a : Q) : -1 <= a <= 1 -> 0 <= a * a /\ a * a <= 1.
Proof.
  intros [Hl Hu]. split.
  - destruct (Qlt_le_dec a 0) as [Hneg|Hpos].
    + assert (0 <= (- a) * (- a)) by (apply Qmult_le_0_compat; lra). lra.
    + apply Qmult_le_0_compat; assumption.
  - assert (0 <= (1 - a) * (1 + a)) by (apply Qmult_le_0_compat; lra). lra.
Qed.

Lemma synthetic_value_range (u v : Q) :
  0 <= u <= 1 -> 0 <= v <= 1 ->
  0 <= synthetic_value u v /\ synthetic_value u v <= 4.
Proof.
  intros Hu Hv. unfold synthetic_value.
  set (a := (u - 0.5) * 2).
  assert (Ha : -1 <= a <= 1) by (unfold a; lra).
  destruct (square_unit a Ha) as [S0 S1].
  assert (E : a * (a * 1) == a * a) by ring.
  rewrite E. lra.
Qed.

(** The base heights of the fallback mesh. *)
Lemma fallback_heights (s : t) :
  surfaceData s = None ->
  (1 <= renderGrid_x (config s))%nat ->
  (1 <= renderGrid_y (config s))%nat ->
  exists (s' : t) (bh : list num),
    createSurface s = Normal s' /\
    baseHeights s' = Some bh /\
    forall i j : nat,
      (i <= renderGrid_y (config s))%nat ->
      (j <= renderGrid_x (config s))%nat ->
      bh !! vertex_index (config s) i j
        = Some (Fin (synthetic_value (Qn j / Qn (renderGrid_x (config s)))
                                     (Qn i / Qn (renderGrid_y (config s))))).
Proof.
  intros Hnone Hx Hy.
  assert (Hwf : well_formed s) by (intros d Hd; congruence).
  destruct (createSurface_total s Hwf Hx Hy) as (s' & nC & Hs' & _ & Hbh & _).
  eexists. eexists. split; [exact Hs'|]. split; [exact Hbh|].
  intros i j Hi Hj. rewrite built_height_lookup by assumption.
  unfold height_or_NaN, height_at, VolatilitySurface.height, grid_of.
  rewrite Hnone. cbn [fmap option_fmap option_map].
  rewrite !coord_fin by assumption. reflexivity.
Qed.

End Fallback.

(** X7.  Without a dataset, every base height [createSurface] computes
    on a render grid of at least 1 by 1 is a number between 0 and 4. *)
Theorem fallback_heights_range (s : t) (i j : nat) :
  surfaceData s = None ->
  (1 <= renderGrid_x (config s))%nat ->
  (1 <= renderGrid_y (config s))%nat ->
  (i <= renderGrid_y (config s))%nat ->
  (j <= renderGrid_x (config s))%nat ->
  exists (s' : t) (bh : list num) (z : Q),
    createSurface s = Normal s' /\
    baseHeights s' = Some bh /\
    bh !! vertex_index (config s) i j = Some (Fin z) /\
    0 <= z /\ z <= 4.
Proof.
  intros Hnone Hx Hy Hi Hj.
  destruct (fallback_heights s Hnone Hx Hy) as (s' & bh & Hs' & Hbh & Hz).
  eexists. eexists. eexists.
  split; [exact Hs'|]. split; [exact Hbh|]. split; [apply Hz; assumption|].
  apply synthetic_value_range; apply coord_unit; assumption.
Qed.

(** The corner vertex of the mobile render grid. *)
Lemma fallback_heights_range_witness :
  exists (s' : t) (bh : list num) (z : Q),
    createSurface (VolatilitySurface.new true) = Normal s' /\
    baseHeights s' = Some bh /\
    bh !! 272%nat = Some (Fin z) /\
    0 <= z /\ z <= 4.
Proof.
  apply (fallback_heights_range (VolatilitySurface.new true) 12 20).
  - reflexivity.
  - simpl. lia.
  - simpl. lia.
  - simpl. lia.
  - simpl. lia.
Defined.

(** ** Further properties: the animation *)

Section FrameFacts.

Context `{Host}.

Lemma animate_unbuilt (s : t) :
  surfaceGroup s = None \/ baseHeights s = None ->
  animate s = render (with_time (time s + waveSpeed (config s))%js s).
Proof.
  intros Hn. unfold animate, with_time.
  destruct (surfaceGroup s) as [rot|] eqn:E1;
    destruct (baseHeights s) as [bh|] eqn:E2; try reflexivity.
  destruct Hn; discriminate.
Qed.

End FrameFacts.

(** X9.  Before a mesh exists ([surfaceGroup] or [baseHeights] still
    null) a frame only advances the clock by [waveSpeed] and calls the
    renderer.  With a renderer set, any number of frames run to
    completion and change nothing but the clock; with [this.renderer]
    still [null], as the constructor leaves it, the first frame throws
    a [TypeError]. *)
Theorem frames_before_build `{Host} (s : t) (N : nat) :
  surfaceGroup s = None \/ baseHeights s = None ->
  (renderer s = true ->
   frames N s
   = Normal (with_time
               (Nat.iter N (fun a => (a + waveSpeed (config s))%js) (time s))
               s)) /\
  (renderer s = false -> (1 <= N)%nat -> frames N s = Throw TypeError).
Proof.
  intros Hn. split.
  - intros Hr. revert s Hn Hr. induction N as [|N IH]; intros s Hn Hr.
    + destruct s. reflexivity.
    + cbn [frames]. rewrite (animate_unbuilt s Hn). unfold render.
      cbn [with_time renderer]. rewrite Hr.
      cbv [mbind mret completion_ret completion_bind bind].
      rewrite IH by assumption.
      change (with_time ?a (with_time ?b s)) with (with_time a s).
      f_equal. f_equal. symmetry.
      exact (Nat.iter_succ_r N _ (time s)).
  - intros Hr HN. destruct N as [|N]; [lia|].
    cbn [frames]. rewrite (animate_unbuilt s Hn). unfold render.
    cbn [with_time renderer]. rewrite Hr. reflexivity.
Qed.

(** Five frames on a freshly constructed surface, after
    [setupRenderer()]. *)
Lemma frames_before_build_witness :
  exists sN : t,
    @frames example_host 5 (setupRenderer (VolatilitySurface.new false))
    = Normal sN /\
    baseHeights sN = None /\ surface sN = None /\
    @frames example_host 5 (VolatilitySurface.new false) = Throw TypeError.
Proof.
  assert (Hn : surfaceGroup (setupRenderer (VolatilitySurface.new false)) = None \/
               baseHeights (setupRenderer (VolatilitySurface.new false)) = None)
    by (left; reflexivity).
  assert (Hn' : surfaceGroup (VolatilitySurface.new false) = None \/
                baseHeights (VolatilitySurface.new false) = None)
    by (left; reflexivity).
  eexists. split.
  - exact (proj1 (@frames_before_build example_host _ 5 Hn) eq_refl).
  - split; [reflexivity|]. split; [reflexivity|].
    apply (proj2 (@frames_before_build example_host _ 5 Hn')); [reflexivity | lia].
Defined.

(** ** Further properties: the axes *)

Section AxisHeight.

Lemma Qmax_either (x y : Q) : Qmax x y = x \/ Qmax x y = y.
Proof.
  unfold Qmax, GenericMinMax.gmax. destruct (x ?= y); auto.
Qed.

Lemma positive_finite (h : num) :
  gt h (Fin 0) = true <-> exists q : Q, h = Fin q /\ 0 < q.
Proof.
  destruct h as [|q]; simpl.
  - split; [discriminate | intros (q & Hq & _); discriminate].
  - split.
    + intros Hq. exists q. split; [reflexivity|].
      apply negb_true_iff in Hq. apply Qnot_le_lt. intros Hle.
      apply Qle_bool_iff in Hle. congruence.
    + intros (q' & [= <-] & Hq). apply negb_true_iff.
      destruct (Qle_bool q 0) eqn:E; [|reflexivity].
      apply Qle_bool_iff in E. lra.
Qed.

(** The maximum of a non-empty list of finite numbers is one of them and
    bounds them all. *)
Lemma foldl_max_finite (rest : list num) :
  forall x : Q,
    (forall h, h ∈ rest -> exists q : Q, h = Fin q) ->
    exists m : Q,
      foldl Math_max (Fin x) rest = Fin m /\
      (m = x \/ Fin m ∈ rest) /\
      x <= m /\
      (forall q : Q, Fin q ∈ rest -> q <= m).
Proof.
  induction rest as [|h rest IH]; intros x Hfin.
  - exists x. split; [reflexivity|]. split; [left; reflexivity|].
    split; [lra|]. intros q Hq. apply elem_of_nil in Hq. contradiction.
  - destruct (Hfin h ltac:(left)) as [q ->].
    destruct (IH (Qmax x q)) as (m & Hm & Hin & Hle & Hall).
    { intros h' Hh'. apply Hfin. right. exact Hh'. }
    exists m. split; [exact Hm|].
    pose proof (Q.le_max_l x q). pose proof (Q.le_max_r x q).
    split; [|split; [lra|]].
    + destruct Hin as [->|Hin]; [|right; right; exact Hin].
      destruct (Qmax_either x q) as [->| ->]; [left; reflexivity|].
      right. left.
    + intros q' Hq'. apply elem_of_cons in Hq' as [[= ->]|Hq'];
        [lra | apply Hall; exact Hq'].
Qed.

End AxisHeight.

(** X12.  The vertical axis [createAxes] draws is the third object it
    adds.  When some base height is a positive number, the axis rises
    from 0 to [1.15 * m], where [m] is the largest base height, so no
    base height is above the top of the axis.  When no base height is
    positive (all are [NaN] or not above 0), the top of the axis is
    [-Infinity]. *)
Theorem createAxes_vertical_axis (cfg : Config) (bh : list num) :
  let halfX := (scaleX cfg / 2)%js in
  let halfZ := (scaleY cfg / 2)%js in
  ((exists q : Q, Fin q ∈ bh /\ 0 < q) ->
   exists m : Q,
     createAxes cfg bh !! 2%nat
       = Some (Line (Vector3 halfX 0 halfZ)
                    (Finite halfX, Finite (Fin (m * 1.15)), Finite halfZ)) /\
     Fin m ∈ bh /\ 0 < m /\
     forall q : Q, Fin q ∈ bh -> q <= m /\ q <= m * 1.15) /\
  ((forall h, h ∈ bh -> gt h (Fin 0) = false) ->
   createAxes cfg bh !! 2%nat
     = Some (Line (Vector3 halfX 0 halfZ)
                  (Finite halfX, NegInfinity, Finite halfZ))).
Proof.
  intros halfX halfZ. unfold createAxes. fold halfX halfZ.
  cbn [app lookup list_lookup].
  set (pos := filter (fun h => gt h (Fin 0)) bh).
  assert (Hpos : forall h, h ∈ pos <-> h ∈ bh /\ gt h (Fin 0) = true).
  { intros h. unfold pos. rewrite list_elem_of_filter.
    rewrite Is_true_true. tauto. }
  split.
  - intros (q & Hq & Hq0).
    assert (Hin : Fin q ∈ pos)
      by (apply Hpos; split; [exact Hq | apply positive_finite; eauto]).
    destruct pos as [|h rest] eqn:Epos;
      [apply elem_of_nil in Hin; contradiction|].
    assert (Hh : h ∈ h :: rest) by left.
    apply Hpos in Hh as [Hhb Hh0]. apply positive_finite in Hh0 as (x & -> & Hx).
    destruct (foldl_max_finite rest x) as (m & Hm & Hmin & Hle & Hall).
    { intros h' Hh'. assert (H' : h' ∈ Fin x :: rest) by (right; exact Hh').
      apply Hpos in H' as [_ H']. apply positive_finite in H' as (q' & -> & _).
      eauto. }
    exists m. cbn [Math_max_spread]. rewrite Hm. cbn [xmul mul lift2].
    split; [reflexivity|].
    split.
    { destruct Hmin as [->|Hmin]; [exact Hhb|].
      assert (H' : Fin m ∈ Fin x :: rest) by (right; exact Hmin).
      apply Hpos in H'. apply H'. }
    split; [lra|].
    intros q' Hq'.
    assert (q' <= m).
    { destruct (Qlt_le_dec 0 q') as [Hp|Hn]; [|lra].
      assert (H' : Fin q' ∈ Fin x :: rest)
        by (apply Hpos; split; [exact Hq' | apply positive_finite; eauto]).
      apply elem_of_cons in H' as [[= ->]|H']; [exact Hle | apply Hall; exact H']. }
    split; lra.
  - intros Hnone.
    assert (Epos : pos = []).
    { destruct pos as [|h rest] eqn:Epos; [reflexivity|].
      assert (Hh : h ∈ h :: rest) by left.
      apply Hpos in Hh as [Hhb Hh0]. rewrite (Hnone h Hhb) in Hh0.
      discriminate. }
    rewrite Epos. reflexivity.
Qed.

(** Base heights 0.5, NaN and 2 with the default scales. *)
Lemma createAxes_vertical_axis_witness :
  exists m : Q,
    createAxes (default_config false) [Fin 0.5; NaN; Fin 2] !! 2%nat
      = Some (Line (Vector3 (12 / 2)%js 0 (10 / 2)%js)
                   (Finite (12 / 2)%js, Finite (Fin (m * 1.15)),
                    Finite (10 / 2)%js)) /\
    0.5 <= m /\ 2 <= m.
Proof.
  destruct (createAxes_vertical_axis (default_config false) [Fin 0.5; NaN; Fin 2])
    as [Hsome _].
  destruct Hsome as (m & Hline & _ & _ & Hall).
  - exists 2. split; [right; right; left | vm_compute; reflexivity].
  - exists m. split; [exact Hline|].
    split; apply Hall; [left | right; right; left].
Defined.

(** ** Further properties: the hover charts *)

Section RectCount.

Lemma rects_concat_imap {A : Type} (f : nat -> A -> list node)
    (c : A -> nat) (l : list A) :
  (forall i x, length (filter is_rect (f i x)) = c x) ->
  length (filter is_rect (concat (imap f l))) = sum_list (c <$> l).
Proof.
  intros Hc. revert f Hc. induction l as [|y l IH]; intros f Hc;
    [reflexivity|].
  cbn [imap concat fmap list_fmap sum_list].
  rewrite filter_app, length_app, Hc, (IH (f ∘ S)).
  - reflexivity.
  - intros; apply Hc.
Qed.

Lemma sum_list_zero {A : Type} (l : list A) :
  sum_list ((fun _ => 0%nat) <$> l) = 0%nat.
Proof. induction l as [|y l IH]; [reflexivity | exact IH]. Qed.

Lemma sum_list_ones {A : Type} (l : list A) :
  sum_list ((fun _ => 1%nat) <$> l) = length l.
Proof.
  induction l as [|y l IH]; [reflexivity|]. cbn. rewrite IH. reflexivity.
Qed.

Lemma sum_list_lengths {A : Type} (m : list (list A)) :
  sum_list (length <$> m) = length (concat m).
Proof.
  induction m as [|row m IH]; [reflexivity|].
  cbn. rewrite length_app, IH. reflexivity.
Qed.

End RectCount.

(** X13.  For every transition matrix, also a ragged one, the heat map
    group holds exactly one rectangle per matrix entry. *)
Theorem Markov_heatmap_rect_count `{Host} `{D3} (d : MarkovData) :
  length (filter is_rect (heatmapGroup d))
  = length (concat (transitionMatrix d)).
Proof.
  unfold heatmapGroup. rewrite !filter_app, !length_app.
  rewrite (rects_concat_imap _ length).
  - rewrite (rects_concat_imap _ (fun _ => 0%nat)) by reflexivity.
    rewrite sum_list_zero, sum_list_lengths.
    match goal with
    | |- context [length (filter ?P [?x])] =>
        change (length (filter P [x])) with 0%nat
    end.
    lia.
  - intros i row.
    rewrite (rects_concat_imap _ (fun _ => 1%nat)) by reflexivity.
    apply sum_list_ones.
Qed.

Section BarGeometry.

Context `{Host} `{D3}.

Lemma barWidth_finite (n : nat) :
  (1 <= n)%nat ->
  (ProjectVisualizations.width / of_nat n - 10)%js
  = Fin ((300 - 40 - 15) / Qn n - 10).
Proof.
  intros Hn. unfold of_nat, of_Z, ProjectVisualizations.width, div, sub, lift2.
  cbn [margin_left margin_right]. fold (Qn n).
  destruct (Qeq_bool (Qn n) 0) eqn:E; [|reflexivity].
  apply Qeq_bool_iff in E. pose proof (Qn_pos n Hn). lra.
Qed.

End BarGeometry.

(** X15.  Every bar of the Markov bar chart stands on the baseline of
    the chart: its top [y] plus its height is [barChartHeight], unless
    the bar is taller than the chart, in which case it starts at
    [y = 0] and reaches below the baseline.  The linear scale of d3 is
    taken to map a finite probability to a finite number. *)
Theorem Markov_bar_baseline `{Host} `{D3} (d : MarkovData) (n : node) :
  (forall q : Q, exists r : Q,
      scaleLinear (Fin 0, Fin 1) (Fin 0, barChartHeight) (Fin q) = Fin r) ->
  n ∈ barChartGroup d -> is_rect n = true ->
  exists bch h y : Q,
    barChartHeight = Fin bch /\
    attr_lookup "height" (node_attrs n) = Some (ANum (Fin h)) /\
    attr_lookup "y" (node_attrs n) = Some (ANum (Fin y)) /\
    y + h == Qmax bch h.
Proof.
  intros Hscale Hn Hrect.
  destruct (bar_children d n Hn Hrect) as (i & sp & Hsp & Hlen & Hbar).
  set (len := length (stateDistribution d)) in *.
  unfold bar in Hbar.
  destruct (Hscale (sp_probability sp)) as [r Hr].
  destruct barChartHeight_fin as [bch Hbch].
  rewrite Hr, Hbch in Hbar. rewrite (barWidth_finite len Hlen) in Hbar.
  cbn [Math_max lift2 sub add mul] in Hbar.
  apply elem_of_cons in Hbar as [->|Hbar].
  - exists bch, (Qmax 0 r), (Qmax 0 (bch - Qmax 0 r)).
    split; [exact Hbch|]. split; [reflexivity|]. split; [reflexivity|].
    set (h := Qmax 0 r).
    destruct (Q.max_spec 0 (bch - h)) as [[Hlt ->]|[Hle ->]];
      destruct (Q.max_spec bch h) as [[Hlt' ->]|[Hle' ->]]; lra.
  - apply elem_of_cons in Hbar as [->|Hbar]; [discriminate Hrect|].
    apply list_elem_of_singleton in Hbar. subst n. discriminate Hrect.
Qed.

(** The bar of probability 1.5, which is taller than the chart. *)
Lemma Markov_bar_baseline_witness :
  exists (n : node) (bch h y : Q),
    @barChartGroup example_host example_d3 (example_markov example_distribution)
      !! 0%nat = Some n /\
    attr_lookup "height" (node_attrs n) = Some (ANum (Fin h)) /\
    attr_lookup "y" (node_attrs n) = Some (ANum (Fin y)) /\
    y + h == Qmax bch h.
Proof.
  assert (E : exists n : node,
             @barChartGroup example_host example_d3
               (example_markov example_distribution) !! 0%nat = Some n /\
             is_rect n = true)
    by (eexists; split; [vm_compute; reflexivity | reflexivity]).
  destruct E as (n & E & Hrect).
  destruct (@Markov_bar_baseline example_host example_d3
              (example_markov example_distribution) n)
    as (bch & h & y & _ & Hh & Hy & Hsum).
  - intros q. eexists. reflexivity.
  - eapply list_elem_of_lookup_2. exact E.
  - exact Hrect.
  - exists n, bch, h, y. repeat split; assumption.
Defined.

Section FirstWord.

Lemma first_word_split (s : string) :
  exists rest : string,
    s = first_word s +:+ rest /\
    (rest = "" \/ exists rest', rest = String " " rest').
Proof.
  induction s as [|c s IH].
  - exists "". split; [reflexivity | left; reflexivity].
  - cbn [first_word]. destruct (Ascii.eqb c " ") eqn:E.
    + apply Ascii.eqb_eq in E. subst c. exists (String " " s).
      split; [reflexivity | right; eexists; reflexivity].
    + destruct IH as (rest & Hs & Hrest). exists rest. split; [|exact Hrest].
      change (String c s = String c (first_word s +:+ rest)).
      f_equal. exact Hs.
Qed.

Lemma first_word_no_space (s : string) (k : nat) :
  String.get k (first_word s) <> Some " "%char.
Proof.
  revert k. induction s as [|c s IH]; intros k.
  - destruct k; discriminate.
  - cbn [first_word]. destruct (Ascii.eqb c " ") eqn:E.
    + destruct k; discriminate.
    + destruct k as [|k]; cbn [String.get].
      * intros Hc. injection Hc as ->. rewrite Ascii.eqb_refl in E.
        discriminate.
      * apply IH.
Qed.

End FirstWord.

(** X17.  The label cut from a state name, [state.split(' ')[0]], is
    the text before the first space: it is a prefix of the name, no
    character of it is a space, and what follows it in the name is
    either nothing (a name without a space is kept whole) or begins
    with a space.  A name that starts with a space gives the empty
    label. *)
Theorem first_word_is_leading_word (s : string) :
  (exists rest : string,
      s = first_word s +:+ rest /\
      (rest = "" \/ exists rest', rest = String " " rest')) /\
  (forall k : nat, String.get k (first_word s) <> Some " "%char) /\
  (forall s' : string, first_word (String " " s') = "").
Proof.
  split; [apply first_word_split|].
  split; [apply first_word_no_space|]. reflexivity.
Qed.

(** X18.  The signal markers of the Kalman chart sit between the four
    fixed shapes and the five closing nodes, one per signal and in the
    order of the data, so the group has [9 + |signals|] children.
    Glyph and colour go together and depend on the type alone: a red
    down triangle for [short], a green up triangle for [long], and a
    yellow cross for every other type, whatever it says. *)
Theorem Kalman_markers `{Host} `{D3} (d : KalmanData) :
  length (Kalman_children d) = (9 + length (signals d))%nat /\
  forall (k : nat) (g : signal),
    signals d !! k = Some g ->
    exists marker : node,
      Kalman_children d !! (4 + k)%nat = Some marker /\
      (summary marker = ("text", Some (AStr "#ff4c4c"), Some "▼") /\
         g_type g = "short" \/
       summary marker = ("text", Some (AStr "#4cff4c"), Some "▲") /\
         g_type g = "long" \/
       summary marker = ("text", Some (AStr "#ffcc00"), Some "×") /\
         g_type g <> "short" /\ g_type g <> "long").
Proof.
  unfold Kalman_children. split.
  - rewrite !length_app, length_map. cbn [length]. lia.
  - intros k g Hg.
    rewrite lookup_app_r by (cbn [length]; lia).
    replace (4 + k - length _)%nat with k by (cbn [length]; lia).
    rewrite lookup_app_l
      by (rewrite length_map; apply lookup_lt_Some in Hg; exact Hg).
    rewrite list_lookup_fmap, Hg. cbn [fmap option_fmap option_map].
    eexists. split; [reflexivity|].
    destruct (String.eqb (g_type g) "short") eqn:Es.
    + left. split; [reflexivity|]. apply String.eqb_eq. exact Es.
    + destruct (String.eqb (g_type g) "long") eqn:El.
      * right. left. split; [reflexivity|]. apply String.eqb_eq. exact El.
      * right. right. split; [reflexivity|].
        split; intros E; rewrite E in *; discriminate.
Qed.
(** ** Further properties: debounce *)

Section DebounceFacts.

Import Main.
Import Main.Debounced.

Context {Args U : Type}.
Variable func : Args -> U -> U.
Variable wait : nat.

Lemma run_snoc (events : list (event Args)) (e : event Args) (s : t Args U) :
  run func wait (events ++ [e]) s = run func wait events s ≫= step func wait e.
Proof. unfold run. rewrite foldl_app. reflexivity. Qed.

Lemma debounce_history_snoc (events : list (event Args)) (e : event Args) :
  debounce_history (events ++ [e])
  = match e with
    | Call a => ((debounce_history events).1,
                 Some ((debounce_history events).1, a))
    | Elapse ms => (((debounce_history events).1 + ms)%nat,
                    (debounce_history events).2)
    | Run _ => debounce_history events
    end.
Proof. unfold debounce_history. rewrite foldl_app. reflexivity. Qed.

Lemma calls_snoc (events : list (event Args)) (e : event Args) :
  calls (events ++ [e]) = (calls events + if is_call e then 1 else 0)%nat.
Proof.
  unfold calls. rewrite filter_app, length_app.
  destruct e; reflexivity.
Qed.

Lemma runs_snoc (events : list (event Args)) (e : event Args) :
  runs (events ++ [e]) = (runs events + if is_run e then 1 else 0)%nat.
Proof.
  unfold runs. rewrite filter_app, length_app.
  destruct e; reflexivity.
Qed.

Lemma clear_single {C : Type} (h due : nat) (c : C) :
  filter (fun e : nat * (nat * C) => e.1 <> h) [(h, (due, c))] = [].
Proof.
  rewrite filter_cons. destruct (decide ((h, (due, c)).1 <> h)) as [Hn|_].
  - contradiction Hn. reflexivity.
  - reflexivity.
Qed.

Lemma timer_elem {C : Type} (h due : nat) (c : C) (l : list (nat * (nat * C))) :
  timer h l = Some (due, c) -> (h, (due, c)) ∈ l.
Proof.
  induction l as [|[h' e] l IH]; [discriminate|].
  cbn [timer]. destruct (Nat.eqb_spec h' h) as [->|Hne].
  - intros [= ->]. apply list_elem_of_here.
  - intros Ht. apply list_elem_of_further, IH, Ht.
Qed.

Lemma take_elem {C : Type} (h : nat) (c : C) (w w' : window C) :
  take h w = Some (c, w') ->
  exists due : nat,
    (h, (due, c)) ∈ pending w /\ (due <= clock w)%nat /\
    w' = clearTimeout (Some h) w.
Proof.
  unfold take. destruct (timer h (pending w)) as [[due c']|] eqn:Ht;
    [|discriminate].
  destruct (Nat.leb_spec due (clock w)) as [Hle|]; [|discriminate].
  intros [= -> <-]. exists due.
  split; [apply timer_elem; exact Ht|]. split; [exact Hle | reflexivity].
Qed.

Lemma debounce_invariant_run (u : U) (events : list (event Args))
    (s : t Args U) :
  run func wait events (new u) = Some s -> debounce_invariant wait events s.
Proof.
  revert s. induction events as [|e events IH] using rev_ind; intros s.
  - intros [= <-]. split; [reflexivity|]. split; [left; reflexivity|].
    cbn. lia.
  - rewrite run_snoc. destruct (run func wait events (new u)) as [s0|];
      [|discriminate].
    specialize (IH s0 eq_refl). destruct IH as (Hclock & Hpend & Hcount).
    cbn [mbind option_bind].
    unfold debounce_invariant.
    rewrite debounce_history_snoc, calls_snoc, runs_snoc.
    destruct e as [a|ms|h]; cbn [step is_call is_run].
    + unfold executedFunction, setTimeout. intros [= <-]. cbn [win timeout].
      assert (Hclear : pending (clearTimeout (timeout s0) (win s0)) = []).
      { destruct Hpend as [He|(h & t0 & a0 & He & Ht & _)].
        - destruct (timeout s0); cbn; [rewrite He|]; [reflexivity | exact He].
        - rewrite Ht. cbn. rewrite He. apply clear_single. }
      assert (Hc : clock (clearTimeout (timeout s0) (win s0)) = clock (win s0))
        by (destruct (timeout s0); reflexivity).
      cbn [clock pending next_handle fst snd]. rewrite Hclear, Hc.
      split; [exact Hclock|]. split.
      * right. eexists _, _, _. split; [reflexivity|].
        split; [reflexivity|]. rewrite Hclock. reflexivity.
      * cbn. assert (runs events <= calls events)%nat by lia. lia.
    + intros [= <-]. cbn. split; [rewrite Hclock; reflexivity|].
      split; [exact Hpend | lia].
    + destruct (take h (win s0)) as [[a w]|] eqn:Htake; [|discriminate].
      apply take_elem in Htake as (due & Hin & Hdue & ->).
      destruct Hpend as [He|(h0 & t0 & a0 & He & Ht & Hlast)];
        [rewrite He in Hin; apply elem_of_nil in Hin; contradiction|].
      rewrite He in Hin. apply list_elem_of_singleton in Hin.
      injection Hin as -> -> ->.
      unfold later. cbn [fst snd]. intros [= <-]. cbn [win timeout].
      rewrite Ht. cbn. rewrite He, clear_single. cbn.
      split; [exact Hclock|]. split; [left; reflexivity|].
      rewrite He in Hcount. cbn in Hcount. lia.
Qed.

End DebounceFacts.

(** X19.  A debounced function runs [func] only after a quiet period.
    Whenever the window runs a timer of the debounced function, at
    least [wait] milliseconds have passed since the latest call, [func]
    gets the arguments of that call, whatever was passed before, and no
    timer is left: [func] does not run again before the next call. *)
Theorem debounce_quiet_period {Args U : Type}
    (func : Args -> U -> U) (wait : nat) (u : U)
    (events : list (Main.Debounced.event Args)) (handle : nat)
    (s s' : Main.Debounced.t Args U) :
  Main.Debounced.run func wait events (Main.Debounced.new u) = Some s ->
  Main.Debounced.step func wait (Main.Debounced.Run handle) s = Some s' ->
  exists (t0 : nat) (a : Args),
    (debounce_history events).2 = Some (t0, a) /\
    (t0 + wait <= Main.clock (Main.Debounced.win s))%nat /\
    Main.Debounced.user s' = func a (Main.Debounced.user s) /\
    Main.pending (Main.Debounced.win s') = [].
Proof.
  intros Hrun Hstep.
  destruct (debounce_invariant_run func wait u events s Hrun)
    as (Hclock & Hpend & _).
  cbn [Main.Debounced.step] in Hstep.
  destruct (Main.take handle (Main.Debounced.win s)) as [[a w]|] eqn:Htake;
    [|discriminate].
  apply take_elem in Htake as (due & Hin & Hdue & ->).
  destruct Hpend as [He|(h0 & t0 & a0 & He & Ht & Hlast)];
    [rewrite He in Hin; apply elem_of_nil in Hin; contradiction|].
  rewrite He in Hin. apply list_elem_of_singleton in Hin.
  injection Hin as -> -> ->.
  exists t0, a0. split; [exact Hlast|]. split; [exact Hdue|].
  unfold Main.later in Hstep. cbn [fst snd] in Hstep.
  injection Hstep as <-. cbn [Main.Debounced.user Main.Debounced.win].
  split; [reflexivity|].
  rewrite Ht. cbn. rewrite He, clear_single. reflexivity.
Qed.

(** Two calls 10 ms apart with a wait of 50 ms: the timer of the second
    call runs 50 ms after it and delivers the second argument. *)
Lemma debounce_quiet_period_witness :
  exists (s s' : Main.Debounced.t nat (list nat)) (t0 a : nat),
    Main.Debounced.run cons 50
      [Main.Debounced.Call 7%nat; Main.Debounced.Elapse 10;
       Main.Debounced.Call 8%nat; Main.Debounced.Elapse 50]
      (Main.Debounced.new []) = Some s /\
    Main.Debounced.step cons 50 (Main.Debounced.Run 2) s = Some s' /\
    (t0 + 50 <= Main.clock (Main.Debounced.win s))%nat /\
    Main.Debounced.user s' = a :: Main.Debounced.user s /\
    Main.Debounced.user s' = [8%nat].
Proof.
  assert (E : exists s s' : Main.Debounced.t nat (list nat),
             (Main.Debounced.run cons 50
                [Main.Debounced.Call 7%nat; Main.Debounced.Elapse 10;
                 Main.Debounced.Call 8%nat; Main.Debounced.Elapse 50]
                (Main.Debounced.new []) = Some s /\
              Main.Debounced.step cons 50 (Main.Debounced.Run 2) s = Some s') /\
             Main.Debounced.user s' = [8%nat])
    by (eexists; eexists; split; [split; vm_compute; reflexivity | reflexivity]).
  destruct E as (s & s' & [Hrun Hstep] & Hu).
  destruct (debounce_quiet_period cons 50 [] _ 2%nat s s' Hrun Hstep)
    as (t0 & a & _ & Ht & Hf & _).
  exists s, s', t0, a. repeat split; assumption.
Defined.

(** X20.  Each call of a debounced function replaces the timer of the
    call before it.  After every history at most one timer is pending;
    the timers that ran and the one pending are together no more than
    the calls made, so [func] runs at most once per call; and a call
    changes nothing but the timer, which it sets to fall due [wait]
    milliseconds from now. *)
Theorem debounce_one_timer {Args U : Type}
    (func : Args -> U -> U) (wait : nat) (u : U)
    (events : list (Main.Debounced.event Args))
    (s : Main.Debounced.t Args U) :
  Main.Debounced.run func wait events (Main.Debounced.new u) = Some s ->
  (length (Main.pending (Main.Debounced.win s)) <= 1)%nat /\
  (runs events + length (Main.pending (Main.Debounced.win s))
   <= calls events)%nat /\
  forall a : Args,
    exists (s' : Main.Debounced.t Args U) (h : nat),
      Main.Debounced.step func wait (Main.Debounced.Call a) s = Some s' /\
      Main.pending (Main.Debounced.win s')
        = [(h, ((Main.clock (Main.Debounced.win s) + wait)%nat, a))] /\
      Main.Debounced.user s' = Main.Debounced.user s.
Proof.
  intros Hrun.
  destruct (debounce_invariant_run func wait u events s Hrun)
    as (Hclock & Hpend & Hcount).
  split; [|split; [exact Hcount|]].
  - destruct Hpend as [->|(h & t0 & a & -> & _)]; cbn; lia.
  - intros a. eexists. eexists. cbn [Main.Debounced.step].
    unfold Main.executedFunction, Main.setTimeout.
    split; [reflexivity|]. cbn [Main.Debounced.win Main.Debounced.user
                                  Main.pending Main.clock fst snd].
    split; [|reflexivity].
    assert (Hclear : Main.pending
                       (Main.clearTimeout (Main.Debounced.timeout s)
                          (Main.Debounced.win s)) = []).
    { destruct Hpend as [He|(h & t0 & a0 & He & Ht & _)].
      - destruct (Main.Debounced.timeout s); cbn; [rewrite He|];
          [reflexivity | exact He].
      - rewrite Ht. cbn. rewrite He. apply clear_single. }
    rewrite Hclear. cbn [app]. f_equal. f_equal. f_equal. f_equal.
    destruct (Main.Debounced.timeout s); reflexivity.
Qed.

(** A burst of three calls leaves one timer. *)
Lemma debounce_one_timer_witness :
  exists s : Main.Debounced.t nat (list nat),
    Main.Debounced.run cons 50
      [Main.Debounced.Call 7%nat; Main.Debounced.Elapse 10;
       Main.Debounced.Call 8%nat; Main.Debounced.Call 9%nat]
      (Main.Debounced.new []) = Some s /\
    (length (Main.pending (Main.Debounced.win s)) <= 1)%nat.
Proof.
  assert (E : exists s : Main.Debounced.t nat (list nat),
             Main.Debounced.run cons 50
               [Main.Debounced.Call 7%nat; Main.Debounced.Elapse 10;
                Main.Debounced.Call 8%nat; Main.Debounced.Call 9%nat]
               (Main.Debounced.new []) = Some s)
    by (eexists; vm_compute; reflexivity).
  destruct E as (s & Hrun). exists s. split; [exact Hrun|].
  exact (proj1 (debounce_one_timer cons 50 [] _ s Hrun)).
Defined.
(** ** Further properties: the listeners of a card *)

Section CardFacts.

Import Main.

Lemma page_run_snoc (events : list event) (e : event) (s : page) :
  run (events ++ [e]) s = run events s ≫= step e.
Proof. unfold run. rewrite foldl_app. reflexivity. Qed.

Lemma page_run_cons (events : list event) (e : event) (s s1 : page) :
  step e s = Some s1 -> run (e :: events) s = run events s1.
Proof. intros Hs. unfold run. cbn [foldl mbind option_bind]. rewrite Hs. reflexivity. Qed.

Lemma time_after_snoc (events : list event) (e : event) (t : nat) :
  time_after t (events ++ [e])
  = match e with
    | Elapse ms => (time_after t events + ms)%nat
    | _ => time_after t events
    end.
Proof.
  revert t. induction events as [|e' events IH]; intros t.
  - destruct e; reflexivity.
  - destruct e'; cbn [app time_after]; apply IH.
Qed.

Lemma first_enter_snoc (events : list event) (e : event) (t : nat) :
  first_enter t (events ++ [e])
  = match first_enter t events with
    | Some t1 => Some t1
    | None =>
        match e with
        | MouseEnter => Some (time_after t events)
        | _ => None
        end
    end.
Proof.
  revert t. induction events as [|e' events IH]; intros t.
  - destruct e; reflexivity.
  - destruct e'; cbn [app first_enter time_after]; try apply IH. reflexivity.
Qed.

Lemma setups_snoc (events : list event) (e : event) :
  setups (events ++ [e])
  = setups events ++ match e with Setup w => [wide w] | _ => [] end.
Proof.
  induction events as [|e' events IH].
  - destruct e; reflexivity.
  - destruct e'; cbn [app setups]; rewrite IH; reflexivity.
Qed.

Lemma foldl_preserves {A B : Type} (P : A -> Prop) (f : A -> B -> A)
    (l : list B) (a : A) :
  (forall a b, P a -> P (f a b)) -> P a -> P (foldl f a l).
Proof.
  intros Hf. revert a. induction l as [|b l IH]; intros a Ha; [exact Ha|].
  cbn [foldl]. apply IH, Hf, Ha.
Qed.

Lemma clock_clearTimeout {C : Type} (t : option nat) (w : window C) :
  clock (clearTimeout t w) = clock w.
Proof. destruct t; reflexivity. Qed.

Lemma next_handle_clearTimeout {C : Type} (t : option nat) (w : window C) :
  next_handle (clearTimeout t w) = next_handle w.
Proof. destruct t; reflexivity. Qed.

Lemma pending_clearTimeout {C : Type} (t : option nat) (w : window C)
    (x : nat * (nat * C)) :
  x ∈ pending (clearTimeout t w) -> x ∈ pending w.
Proof.
  destruct t as [h|]; [|tauto]. cbn [clearTimeout pending].
  rewrite list_elem_of_filter. tauto.
Qed.

Lemma kinds_insert (l : list closure) (k : nat) (x y : closure) :
  l !! k = Some x -> is_hover y = is_hover x ->
  is_hover <$> <[k := y]> l = is_hover <$> l.
Proof.
  intros Hl Hk. rewrite list_fmap_insert, Hk. apply list_insert_id.
  rewrite list_lookup_fmap, Hl. reflexivity.
Qed.

(** **** The listeners only accumulate *)

Lemma kinds_on_mouseenter (K : list bool) (s : page) (k : nat) :
  kinds_are K (this s) -> kinds_are K (this (on_mouseenter s k)).
Proof.
  intros [HK Hv]. unfold on_mouseenter.
  destruct (listeners (this s) !! k) as [[b t|b]|] eqn:Hl;
    try (split; assumption).
  unfold executedFunction, setTimeout. cbn [this].
  split; [|exact Hv]. unfold set_listener. cbn [listeners]. rewrite (kinds_insert _ _ _ _ Hl); [exact HK | reflexivity].
Qed.

Lemma kinds_on_mouseleave (K : list bool) (s : page) (k : nat) :
  kinds_are K (this s) -> kinds_are K (this (on_mouseleave s k)).
Proof.
  intros [HK Hv]. unfold on_mouseleave.
  destruct (listeners (this s) !! k) as [[b t|b]|] eqn:Hl;
    try (split; assumption).
  cbn [this]. split; [|discriminate].
  unfold set_style, set_listener. cbn [listeners]. rewrite (kinds_insert _ _ _ _ Hl); [exact HK | reflexivity].
Qed.

Lemma kinds_on_click (K : list bool) (e : target) (s : card * bool) (k : nat) :
  kinds_are K s.1 -> kinds_are K (on_click e s k).1.
Proof.
  intros [HK Hv]. unfold on_click.
  destruct (listeners s.1 !! k) as [[b t|b]|] eqn:Hl;
    try (split; assumption).
  destruct (_ || _); [split; assumption|].
  cbn [fst]. split; [|discriminate].
  unfold set_style, set_listener. cbn [listeners]. rewrite (kinds_insert _ _ _ _ Hl); [exact HK | reflexivity].
Qed.

Lemma kinds_step (K : list bool) (e : event) (s s' : page) :
  kinds_are K (this s) -> step e s = Some s' ->
  kinds_are (K ++ match e with Setup w => [wide w] | _ => [] end) (this s').
Proof.
  intros HK. destruct e as [w| | |e|ms|h]; cbn [step].
  - intros [= <-]. destruct HK as [HK Hv]. cbn [this].
    unfold setupProjectInteractions.
    destruct (vizContainer (this s)) eqn:Hc; [|contradiction Hv; reflexivity].
    split; [|cbn; discriminate]. cbn [listeners].
    rewrite fmap_app, HK. unfold wide.
    destruct (Qlt_le_dec 768 w); reflexivity.
  - intros [= <-]. rewrite app_nil_r. unfold dispatch.
    apply (foldl_preserves (fun s => kinds_are K (this s))); [|exact HK].
    intros a b. apply kinds_on_mouseenter.
  - intros [= <-]. rewrite app_nil_r. unfold dispatch.
    apply (foldl_preserves (fun s => kinds_are K (this s))); [|exact HK].
    intros a b. apply kinds_on_mouseleave.
  - rewrite app_nil_r.
    assert (H1 : kinds_are K (dispatch (on_click e) (this s) (this s, false)).1).
    { unfold dispatch.
      apply (foldl_preserves (fun s => kinds_are K s.1)); [|exact HK].
      intros a b. apply kinds_on_click. }
    destruct (dispatch (on_click e) (this s) (this s, false)) as [c p].
    intros [= <-]. exact H1.
  - intros [= <-]. rewrite app_nil_r. exact HK.
  - rewrite app_nil_r.
    destruct (take h (win s)) as [[[k|k] w]|]; [| |discriminate].
    + unfold later, mouseenter, setTimeout. cbn [fst snd]. intros [= <-].
      cbn [this]. destruct HK as [HK Hv].
      destruct (listeners (this s) !! k) as [[b t|b]|] eqn:Hl;
        try (split; assumption).
      split; [|exact Hv]. unfold set_listener. cbn [listeners].
      rewrite (kinds_insert _ _ _ _ Hl); [exact HK | reflexivity].
    + intros [= <-]. cbn [this]. unfold reveal. destruct HK as [HK Hv].
      destruct (listeners (this s) !! k) as [[[|] t|b]|]; try (split; assumption).
      split; [exact HK | discriminate].
Qed.

Lemma kinds_run (K : list bool) (events : list event) (s s' : page) :
  kinds_are K (this s) -> run events s = Some s' ->
  kinds_are (K ++ setups events) (this s').
Proof.
  intros HK. revert s'.
  induction events as [|e events IH] using rev_ind; intros s'.
  - intros [= <-]. rewrite app_nil_r. exact HK.
  - rewrite page_run_snoc.
    destruct (run events s) as [s0|]; [|discriminate].
    cbn [mbind option_bind]. intros Hstep.
    rewrite setups_snoc, app_assoc.
    exact (kinds_step _ e s0 s' (IH s0 eq_refl) Hstep).
Qed.

End CardFacts.

(** X21.  [setupProjectInteractions] only adds listeners.  After any
    history a card with a chart container has the listeners it had
    before and, behind them, one pair of hover listeners or one click
    listener for every run of [setupProjectInteractions], by the width
    of the window at that run.  No event removes a listener or changes
    its kind, so a window resized across 768 leaves a card with both
    kinds. *)
Theorem listeners_accumulate (events : list Main.event) (s s' : Main.page) :
  Main.vizContainer (Main.this s) <> None ->
  Main.run events s = Some s' ->
  is_hover <$> Main.listeners (Main.this s')
  = (is_hover <$> Main.listeners (Main.this s)) ++ setups events.
Proof.
  intros Hv Hrun.
  exact (proj1 (kinds_run _ events s s' (conj eq_refl Hv) Hrun)).
Qed.

(** A card that has been set up on a wide window, with a chart that is
    hidden and a pointer that has crossed it once. *)
Lemma listeners_accumulate_witness :
  exists s' : Main.page,
    Main.run [Main.Setup 1024; Main.MouseEnter; Main.Setup 400;
              Main.Elapse 60; Main.Run 1]
      (Main.new (Some Main.hidden)) = Some s' /\
    is_hover <$> Main.listeners (Main.this s') = [true; false].
Proof.
  assert (E : exists s' : Main.page,
             Main.run [Main.Setup 1024; Main.MouseEnter; Main.Setup 400;
                       Main.Elapse 60; Main.Run 1]
               (Main.new (Some Main.hidden)) = Some s')
    by (eexists; vm_compute; reflexivity).
  destruct E as (s' & Hrun). exists s'. split; [exact Hrun|].
  assert (Hv : Main.vizContainer (Main.this (Main.new (Some Main.hidden)))
               <> None) by discriminate.
  rewrite (listeners_accumulate _ _ s' Hv Hrun). reflexivity.
Defined.

Section HoverFacts.

Import Main.

Lemma since_mono (T : option nat) (d d' t t' : nat) :
  (d' <= d)%nat -> (t <= t')%nat -> since T d t -> since T d' t'.
Proof. intros Hd Ht (t1 & HT & H). exists t1. split; [exact HT | lia]. Qed.

Lemma hover_invariant_first (T : option nat) (s : page) :
  hover_invariant None s -> hover_invariant T s.
Proof.
  intros (Ht & Hh & Hs & Hk). split; [|split; [|split]].
  - intros h due cb Hin. destruct (Ht h due cb Hin) as (? & [=] & _).
  - intros k t Hl. destruct (Hh k t Hl) as (? & [=] & _).
  - intros sty Hv Ho. destruct (Hs sty Hv Ho) as (? & [=] & _).
  - exact Hk.
Qed.

Lemma hover_on_mouseenter (T : option nat) (c : nat) (s : page) (k : nat) :
  since T 0 c ->
  hover_invariant T s /\ clock (win s) = c ->
  hover_invariant T (on_mouseenter s k) /\ clock (win (on_mouseenter s k)) = c.
Proof.
  intros Hnow [(Ht & Hh & Hs & Hk) Hc]. unfold on_mouseenter.
  destruct (listeners (this s) !! k) as [[b t|b]|] eqn:Hl;
    try (split; [repeat split|]; assumption).
  unfold executedFunction, setTimeout, set_listener, hover_invariant.
  cbn [win this pending clock listeners vizContainer].
  rewrite clock_clearTimeout. split; [|exact Hc].
  split; [|split; [|split]].
  - intros h due cb Hin. apply elem_of_app in Hin as [Hin|Hin].
    + apply pending_clearTimeout in Hin. exact (Ht h due cb Hin).
    + apply list_elem_of_singleton in Hin. injection Hin as -> -> ->.
      rewrite Hc. cbn [delay_of].
      destruct Hnow as (t1 & HT & H). exists t1. split; [exact HT | lia].
  - intros k' t' Hl'. destruct (decide (k = k')) as [<-|Hne].
    + rewrite list_lookup_insert_eq in Hl'
        by (apply lookup_lt_Some in Hl; exact Hl).
      injection Hl' as -> _. exact (Hh k t Hl).
    + rewrite list_lookup_insert_ne in Hl' by exact Hne. exact (Hh k' t' Hl').
  - exact Hs.
  - intros k' b' Hl'. destruct (decide (k = k')) as [<-|Hne].
    + rewrite list_lookup_insert_eq in Hl'
        by (apply lookup_lt_Some in Hl; exact Hl).
      discriminate Hl'.
    + rewrite list_lookup_insert_ne in Hl' by exact Hne. exact (Hk k' b' Hl').
Qed.

Lemma hover_on_mouseleave (T : option nat) (c : nat) (s : page) (k : nat) :
  hover_invariant T s /\ clock (win s) = c ->
  hover_invariant T (on_mouseleave s k) /\ clock (win (on_mouseleave s k)) = c.
Proof.
  intros [(Ht & Hh & Hs & Hk) Hc]. unfold on_mouseleave.
  destruct (listeners (this s) !! k) as [[b t|b]|] eqn:Hl;
    try (split; [repeat split|]; assumption).
  unfold set_style, set_listener, hover_invariant.
  cbn [win this pending clock listeners vizContainer]. split; [|exact Hc].
  split; [|split; [|split]].
  - exact Ht.
  - intros k' t' Hl'. destruct (decide (k = k')) as [<-|Hne].
    + rewrite list_lookup_insert_eq in Hl'
        by (apply lookup_lt_Some in Hl; exact Hl).
      discriminate Hl'.
    + rewrite list_lookup_insert_ne in Hl' by exact Hne. exact (Hh k' t' Hl').
  - intros sty [= <-]. discriminate.
  - intros k' b' Hl'. destruct (decide (k = k')) as [<-|Hne].
    + rewrite list_lookup_insert_eq in Hl'
        by (apply lookup_lt_Some in Hl; exact Hl).
      discriminate Hl'.
    + rewrite list_lookup_insert_ne in Hl' by exact Hne. exact (Hk k' b' Hl').
Qed.

Lemma click_without_taps (e : target) (c : card) (p : bool) (ks : list nat) :
  (forall k b, listeners c !! k <> Some (Tap b)) ->
  foldl (on_click e) (c, p) ks = (c, p).
Proof.
  intros Hk. apply (foldl_preserves (fun s => s = (c, p))); [|reflexivity].
  intros a k ->. unfold on_click. cbn [fst].
  destruct (listeners c !! k) as [[b t|b]|] eqn:Hl; try reflexivity.
  contradiction (Hk k b Hl).
Qed.

Lemma hover_step (T : option nat) (e : event) (s s' : page) :
  match e with
  | Setup w => wide w = true
  | MouseEnter => since T 0 (clock (win s))
  | _ => True
  end ->
  hover_invariant T s -> step e s = Some s' ->
  hover_invariant T s' /\
  clock (win s') = match e with
                   | Elapse ms => (clock (win s) + ms)%nat
                   | _ => clock (win s)
                   end.
Proof.
  intros He Hinv. destruct e as [w| | |e|ms|h]; cbn [step].
  - intros [= <-]. split; [|reflexivity].
    destruct Hinv as (Ht & Hh & Hs & Hk). unfold setupProjectInteractions.
    destruct (vizContainer (this s)) as [v|] eqn:Hv;
      [|unfold hover_invariant; cbn [win this]; rewrite Hv;
        repeat split; assumption].
    unfold wide in He. destruct (Qlt_le_dec 768 w); [|discriminate He].
    unfold hover_invariant.
    cbn [win this pending clock listeners vizContainer].
    split; [|split; [|split]].
    + exact Ht.
    + intros k t Hl. apply lookup_app_Some in Hl as [Hl|[_ Hl]].
      * exact (Hh k t Hl).
      * destruct (k - length (listeners (this s)))%nat as [|[|]];
          discriminate Hl.
    + exact Hs.
    + intros k b Hl. apply lookup_app_Some in Hl as [Hl|[_ Hl]].
      * exact (Hk k b Hl).
      * destruct (k - length (listeners (this s)))%nat as [|[|]];
          discriminate Hl.
  - intros [= <-]. unfold dispatch.
    apply (foldl_preserves
             (fun a => hover_invariant T a /\ clock (win a) = clock (win s)));
      [|split; [exact Hinv | reflexivity]].
    intros a k. apply hover_on_mouseenter. exact He.
  - intros [= <-]. unfold dispatch.
    apply (foldl_preserves
             (fun a => hover_invariant T a /\ clock (win a) = clock (win s)));
      [|split; [exact Hinv | reflexivity]].
    intros a k. apply hover_on_mouseleave.
  - unfold dispatch. rewrite click_without_taps by apply Hinv.
    intros [= <-]. split; [|reflexivity].
    destruct Hinv as (Ht & Hh & Hs & Hk). repeat split; assumption.
  - intros [= <-]. split; [|reflexivity].
    destruct Hinv as (Ht & Hh & Hs & Hk).
    unfold hover_invariant, elapse.
    cbn [win this pending clock listeners vizContainer].
    split; [|split; [|split]].
    + exact Ht.
    + intros k t Hl. apply (since_mono T 50 50 (clock (win s))); [lia|lia|].
      exact (Hh k t Hl).
    + intros sty Hv Ho.
      apply (since_mono T 150 150 (clock (win s))); [lia|lia|].
      exact (Hs sty Hv Ho).
    + exact Hk.
  - destruct (take h (win s)) as [[cb w]|] eqn:Htake; [|discriminate].
    apply take_elem in Htake as (due & Hin & Hdue & ->).
    destruct Hinv as (Ht & Hh & Hs & Hk).
    pose proof (Ht h due cb Hin) as Hcb.
    assert (Hsub : forall x,
               x ∈ pending (clearTimeout (Some h) (win s)) ->
               x ∈ pending (win s))
      by (intros x; apply pending_clearTimeout).
    destruct cb as [k|k]; cbn [delay_of] in Hcb.
    + unfold later, mouseenter, setTimeout. cbn [fst snd].
      intros [= <-]. unfold hover_invariant.
      cbn [win this pending clock listeners vizContainer].
      rewrite !clock_clearTimeout.
      split; [|reflexivity].
      split; [|split; [|split]].
      * intros h' due' cb' Hin'. apply elem_of_app in Hin' as [Hin'|Hin'].
        -- apply pending_clearTimeout, Hsub in Hin'. exact (Ht h' due' cb' Hin').
        -- apply list_elem_of_singleton in Hin'. injection Hin' as -> -> ->.
           cbn [delay_of].
           destruct Hcb as (t1 & HT & H). exists t1. split; [exact HT | lia].
      * intros k' t'.
        destruct (listeners (this s) !! k) as [[b t|b]|] eqn:Hl;
          try apply Hh.
        unfold set_listener. cbn [listeners]. intros Hl'.
        destruct (decide (k = k')) as [<-|Hne].
        -- apply (since_mono T 50 50 due); [lia | exact Hdue | exact Hcb].
        -- rewrite list_lookup_insert_ne in Hl' by exact Hne.
           exact (Hh k' t' Hl').
      * destruct (listeners (this s) !! k) as [[b t|b]|]; exact Hs.
      * intros k' b'.
        destruct (listeners (this s) !! k) as [[b t|b]|] eqn:Hl;
          try apply Hk.
        unfold set_listener. cbn [listeners]. intros Hl'.
        destruct (decide (k = k')) as [<-|Hne].
        -- rewrite list_lookup_insert_eq in Hl'
             by (apply lookup_lt_Some in Hl; exact Hl).
           discriminate Hl'.
        -- rewrite list_lookup_insert_ne in Hl' by exact Hne.
           exact (Hk k' b' Hl').
    + intros [= <-]. unfold hover_invariant.
      cbn [win this].
      split; [|apply (clock_clearTimeout (Some h))].
      split; [|split; [|split]].
      * intros h' due' cb' Hin'. apply Hsub in Hin'. exact (Ht h' due' cb' Hin').
      * unfold reveal.
        destruct (listeners (this s) !! k) as [[[|] t|b]|]; exact Hh.
      * unfold reveal.
        destruct (listeners (this s) !! k) as [[[|] t|b]|]; try exact Hs.
        intros sty _ _.
        apply (since_mono T 150 150 due); [lia | exact Hdue | exact Hcb].
      * unfold reveal.
        destruct (listeners (this s) !! k) as [[[|] t|b]|]; exact Hk.
Qed.

Lemma time_after_le (t : nat) (events : list event) :
  (t <= time_after t events)%nat.
Proof.
  revert t. induction events as [|e events IH]; intros t; [cbn; lia|].
  destruct e; cbn [time_after]; try apply IH.
  specialize (IH (t + ms)%nat). lia.
Qed.

Lemma first_enter_le (t t1 : nat) (events : list event) :
  first_enter t events = Some t1 -> (t1 <= time_after t events)%nat.
Proof.
  revert t. induction events as [|e events IH]; intros t; [discriminate|].
  destruct e; cbn [first_enter time_after]; try apply IH.
  intros [= <-]. apply time_after_le.
Qed.

Lemma hover_run (v : style) (events : list event) (s : page) :
  opacity v <> "1" ->
  Forall (fun wide => wide = true) (setups events) ->
  run events (new (Some v)) = Some s ->
  hover_invariant (first_enter 0 events) s /\
  clock (win s) = time_after 0 events.
Proof.
  intros Hv. revert s.
  induction events as [|e events IH] using rev_ind; intros s Hwide.
  - intros [= <-]. split; [|reflexivity].
    split; [|split; [|split]]; cbn.
    + intros h due cb Hin. apply elem_of_nil in Hin. contradiction.
    + intros k t Hl. discriminate Hl.
    + intros sty [= <-] Ho. contradiction.
    + intros k b Hl. discriminate Hl.
  - rewrite setups_snoc in Hwide. apply Forall_app in Hwide as [Hw He].
    rewrite page_run_snoc.
    destruct (run events (new (Some v))) as [s0|]; [|discriminate].
    cbn [mbind option_bind]. intros Hstep.
    destruct (IH s0 Hw eq_refl) as [Hinv Hclock].
    rewrite first_enter_snoc, time_after_snoc.
    set (T := match first_enter 0 events with
              | Some t1 => Some t1
              | None => match e with
                        | MouseEnter => Some (time_after 0 events)
                        | _ => None
                        end
              end).
    assert (HT : hover_invariant T s0).
    { subst T. destruct (first_enter 0 events);
        [exact Hinv | apply hover_invariant_first; exact Hinv]. }
    destruct (hover_step T e s0 s) as [Hinv' Hclock']; [| exact HT | exact Hstep |].
    + destruct e as [w| | |e|ms|h]; try exact I.
      * apply Forall_cons_1 in He as [He _]. exact He.
      * subst T. rewrite Hclock.
        destruct (first_enter 0 events) as [t1|] eqn:Hf.
        -- exists t1. split; [reflexivity|].
           apply first_enter_le in Hf. lia.
        -- eexists. split; [reflexivity | lia].
    + split; [exact Hinv'|]. rewrite Hclock', Hclock.
      destruct e; reflexivity.
Qed.

End HoverFacts.

(** X22.  On a card whose listeners were all added on a wide window,
    the chart is never shown sooner than 150 ms after the pointer first
    entered the card: 50 ms of debounce and 100 ms of the reveal timer.
    The chart starts hidden; the history is any sequence of set-ups on
    a wide window, pointer events, clicks, waits and timers run by the
    window. *)
Theorem hover_not_before_150ms (v sty : Main.style)
    (events : list Main.event) (s : Main.page) :
  Main.opacity v <> "1" ->
  Forall (fun wide => wide = true) (setups events) ->
  Main.run events (Main.new (Some v)) = Some s ->
  Main.vizContainer (Main.this s) = Some sty ->
  Main.opacity sty = "1" ->
  exists t1 : nat,
    first_enter 0 events = Some t1 /\
    (t1 + 150 <= time_after 0 events)%nat.
Proof.
  intros Hv Hwide Hrun Hsty Ho.
  destruct (hover_run v events s Hv Hwide Hrun) as [(_ & _ & Hs & _) Hclock].
  rewrite <- Hclock. exact (Hs sty Hsty Ho).
Qed.

(** The pointer enters 5 ms after the set-up and stays: the chart is
    shown 155 ms later at the earliest. *)
Lemma hover_not_before_150ms_witness :
  exists (s : Main.page) (t1 : nat),
    Main.run [Main.Setup 1024; Main.Elapse 5; Main.MouseEnter;
              Main.Elapse 50; Main.Run 1; Main.Elapse 100; Main.Run 2]
      (Main.new (Some Main.hidden)) = Some s /\
    Main.vizContainer (Main.this s) = Some Main.shown /\
    t1 = 5%nat.
Proof.
  assert (E : exists s : Main.page,
             Main.run [Main.Setup 1024; Main.Elapse 5; Main.MouseEnter;
                       Main.Elapse 50; Main.Run 1; Main.Elapse 100; Main.Run 2]
               (Main.new (Some Main.hidden)) = Some s /\
             Main.vizContainer (Main.this s) = Some Main.shown)
    by (eexists; split; vm_compute; reflexivity).
  destruct E as (s & Hrun & Hsty).
  assert (Hv : Main.opacity Main.hidden <> "1") by discriminate.
  assert (Hw : Forall (fun wide => wide = true)
                 (setups [Main.Setup 1024; Main.Elapse 5; Main.MouseEnter;
                          Main.Elapse 50; Main.Run 1; Main.Elapse 100;
                          Main.Run 2]))
    by (repeat constructor).
  destruct (hover_not_before_150ms Main.hidden Main.shown _ s Hv Hw Hrun Hsty
              eq_refl) as (t1 & Ht1 & _).
  exists s, t1. split; [exact Hrun|]. split; [exact Hsty|].
  injection Ht1 as <-. reflexivity.
Defined.

Section SingleHover.

Import Main.

Lemma take_single {C : Type} (h due c : nat) (cb : C) (nh : nat) :
  (due <= c)%nat ->
  take h {| clock := c; next_handle := nh; pending := [(h, (due, cb))] |}
  = Some (cb, {| clock := c; next_handle := nh; pending := [] |}).
Proof.
  intros Hdue. unfold take. cbn [pending timer clock].
  rewrite Nat.eqb_refl.
  destruct (Nat.leb_spec due c) as [_|Hlt]; [|lia].
  unfold clearTimeout. cbn [clock next_handle pending].
  rewrite clear_single. reflexivity.
Qed.

Lemma clear_none {C : Type} (t : option nat) (c nh : nat) :
  clearTimeout t {| clock := c; next_handle := nh; pending := @nil (nat * (nat * C)) |}
  = {| clock := c; next_handle := nh; pending := [] |}.
Proof. destruct t; reflexivity. Qed.

Lemma enter_single (c nh : nat) (v : style) (b : bool) (t : option nat)
    (p : list bool) :
  step MouseEnter
    (one_hover {| clock := c; next_handle := nh; pending := [] |} v b t p)
  = Some (one_hover
            {| clock := c; next_handle := S nh;
               pending := [(nh, ((c + 50)%nat, Later 0))] |}
            v b (Some nh) p).
Proof.
  cbn [step]. unfold dispatch, one_hover. cbn [this listeners length seq foldl].
  unfold on_mouseenter. cbn [this listeners lookup list_lookup win].
  unfold executedFunction. rewrite clear_none. reflexivity.
Qed.

Lemma leave_single (w : window callback) (v : style) (b : bool)
    (t : option nat) (p : list bool) :
  step MouseLeave (one_hover w v b t p) = Some (one_hover w hidden false t p).
Proof. reflexivity. Qed.

Lemma elapse_single (c nh : nat) (l : list (nat * (nat * callback)))
    (v : style) (b : bool) (t : option nat) (p : list bool) (ms : nat) :
  step (Elapse ms)
    (one_hover {| clock := c; next_handle := nh; pending := l |} v b t p)
  = Some (one_hover
            {| clock := (c + ms)%nat; next_handle := nh; pending := l |}
            v b t p).
Proof. reflexivity. Qed.

Lemma later_single (c nh h due : nat) (v : style) (b : bool)
    (t : option nat) (p : list bool) :
  (due <= c)%nat ->
  step (Run h)
    (one_hover {| clock := c; next_handle := nh;
                  pending := [(h, (due, Later 0))] |} v b t p)
  = Some (one_hover
            {| clock := c; next_handle := S nh;
               pending := [(nh, ((c + 100)%nat, Reveal 0))] |}
            v true t p).
Proof.
  intros Hdue. cbn [step]. unfold one_hover at 1. cbn [win].
  rewrite (take_single h due c (Later 0) nh Hdue).
  unfold one_hover. cbn [this listeners lookup list_lookup].
  unfold later. cbn [fst snd]. rewrite clear_none. reflexivity.
Qed.

Lemma reveal_single (c nh h due : nat) (v : style) (b : bool)
    (t : option nat) (p : list bool) :
  (due <= c)%nat ->
  step (Run h)
    (one_hover {| clock := c; next_handle := nh;
                  pending := [(h, (due, Reveal 0))] |} v b t p)
  = Some (one_hover {| clock := c; next_handle := nh; pending := [] |}
            (if b then shown else v) b t p).
Proof.
  intros Hdue. cbn [step]. unfold one_hover at 1. cbn [win].
  rewrite (take_single h due c (Reveal 0) nh Hdue).
  destruct b; reflexivity.
Qed.

End SingleHover.

(** X23.  [mouseleave] cancels the reveal only once the debounce timer
    has run.  On a card with one pair of hover listeners and no timer
    pending: when the pointer enters and leaves before the debounce
    timer runs, the chart is shown all the same once the two timers
    have run, with the pointer outside; when the pointer leaves after
    the debounce timer has run, the chart stays hidden.  [d1] and [d2]
    are any waits long enough for the timers to fall due. *)
Theorem hover_leave_during_debounce
    (c nh : nat) (v : Main.style) (b : bool) (t : option nat)
    (p : list bool) (d1 d2 : nat) :
  (50 <= d1)%nat -> (100 <= d2)%nat ->
  let s := one_hover {| Main.clock := c; Main.next_handle := nh;
                        Main.pending := [] |} v b t p in
  let idle := {| Main.clock := (c + d1 + d2)%nat;
                 Main.next_handle := S (S nh);
                 Main.pending := [] |} in
  Main.run [Main.MouseEnter; Main.MouseLeave; Main.Elapse d1; Main.Run nh;
            Main.Elapse d2; Main.Run (S nh)] s
  = Some (one_hover idle Main.shown true (Some nh) p) /\
  Main.run [Main.MouseEnter; Main.Elapse d1; Main.Run nh; Main.MouseLeave;
            Main.Elapse d2; Main.Run (S nh)] s
  = Some (one_hover idle Main.hidden false (Some nh) p).
Proof.
  intros H1 H2 s idle. subst s idle.
  assert (Hl : (c + 50 <= c + d1)%nat) by lia.
  assert (Hr : (c + d1 + 100 <= c + d1 + d2)%nat) by lia.
  split.
  - rewrite (page_run_cons _ _ _ _ (enter_single _ _ _ _ _ _)).
    rewrite (page_run_cons _ _ _ _ (leave_single _ _ _ _ _)).
    rewrite (page_run_cons _ _ _ _ (elapse_single _ _ _ _ _ _ _ _)).
    rewrite (page_run_cons _ _ _ _ (later_single _ _ _ _ _ _ _ _ Hl)).
    rewrite (page_run_cons _ _ _ _ (elapse_single _ _ _ _ _ _ _ _)).
    rewrite (page_run_cons _ _ _ _ (reveal_single _ _ _ _ _ _ _ _ Hr)).
    reflexivity.
  - rewrite (page_run_cons _ _ _ _ (enter_single _ _ _ _ _ _)).
    rewrite (page_run_cons _ _ _ _ (elapse_single _ _ _ _ _ _ _ _)).
    rewrite (page_run_cons _ _ _ _ (later_single _ _ _ _ _ _ _ _ Hl)).
    rewrite (page_run_cons _ _ _ _ (leave_single _ _ _ _ _)).
    rewrite (page_run_cons _ _ _ _ (elapse_single _ _ _ _ _ _ _ _)).
    rewrite (page_run_cons _ _ _ _ (reveal_single _ _ _ _ _ _ _ _ Hr)).
    reflexivity.
Qed.

(** The first card of a page, set up once on a wide window. *)
Lemma hover_leave_during_debounce_witness :
  Main.run [Main.Setup 1024; Main.MouseEnter; Main.MouseLeave;
            Main.Elapse 50; Main.Run 1; Main.Elapse 100; Main.Run 2]
    (Main.new (Some Main.hidden))
  = Some (one_hover {| Main.clock := 150; Main.next_handle := 3;
                       Main.pending := [] |}
            Main.shown true (Some 1%nat) []).
Proof.
  assert (H1 : (50 <= 50)%nat) by lia.
  assert (H2 : (100 <= 100)%nat) by lia.
  exact (proj1 (hover_leave_during_debounce 0 1 Main.hidden false None []
                  50 100 H1 H2)).
Defined.

Section TapFacts.

Import Main.






End TapFacts.



Section BootFacts.

Import Main.
Import Main.Boot.

Lemma boot_run_snoc (events : list event) (e : event) (s : app) :
  run (events ++ [e]) s = run events s ≫= step e.
Proof. unfold run. rewrite foldl_app. reflexivity. Qed.

Lemma repeat_snoc {A : Type} (x : A) (n : nat) :
  repeat x n ++ [x] = repeat x (S n).
Proof. induction n as [|n IH]; [reflexivity|]. cbn. f_equal. exact IH. Qed.

Lemma surface_spec (h : host) (s : app) :
  interactions (surface h s) = interactions s /\
  win (surface h s) = win s /\
  kalmanViz (vars (surface h s)) = kalmanViz (vars s) /\
  markovViz (vars (surface h s)) = markovViz (vars s) /\
  exists extra : list console_entry,
    console (surface h s) = console s ++ extra /\ waiting ∉ extra.
Proof.
  unfold surface. destruct (new_VolatilitySurface h).
  - repeat (split; [reflexivity|]). exists [].
    split; [cbn; rewrite app_nil_r; reflexivity | apply not_elem_of_nil].
  - repeat (split; [reflexivity|]). eexists. split; [reflexivity|].
    rewrite not_elem_of_cons. split; [discriminate | apply not_elem_of_nil].
Qed.

Lemma charts_spec (h : host) (s : app) :
  interactions (charts h s) = interactions s /\
  win (charts h s) = win s /\
  (markovViz (vars s) = false ->
   markovViz (vars (charts h s)) = true ->
   kalmanViz (vars (charts h s)) = true) /\
  exists extra : list console_entry,
    console (charts h s) = console s ++ extra /\ waiting ∉ extra.
Proof.
  unfold charts. destruct (new_KalmanViz h); [destruct (new_MarkovViz h)|].
  all: split; [reflexivity|]; split; [reflexivity|].
  all: split;
    [first [reflexivity | intros H0 H1; cbn in H1; rewrite H0 in H1;
                          discriminate H1]|].
  all: eexists; split; [reflexivity|].
  all: rewrite not_elem_of_cons; split; [discriminate | apply not_elem_of_nil].
Qed.

Lemma initializeWhenReady_first (h : host) (W : nat) (s : app) :
  interactions s = 0%nat -> awaited s = 0%nat -> vars s = vars new ->
  console s = repeat waiting W ->
  pending (win s) = [] -> (100 * W <= clock (win s))%nat ->
  polling (S W) (initializeWhenReady h s) \/
  initialized W (initializeWhenReady h s).
Proof.
  intros Hi Ha Hg Hc Hp Ht. unfold initializeWhenReady.
  destruct (negb (THREE h) || negb (d3 h)).
  - left. unfold setTimeout, say. cbn [win]. unfold polling.
    cbn [interactions awaited vars console win pending].
    rewrite Hc, Hp, repeat_snoc.
    split; [exact Hi|]. split; [exact Ha|]. split; [exact Hg|].
    split; [reflexivity|]. eexists _, _. split; [reflexivity|]. lia.
  - right.
    set (s1 := say (console_log "Initializing Quant Portfolio...") s).
    destruct (surface_spec h s1) as (Hi2 & Hw2 & Hk2 & Hm2 & e2 & Hc2 & He2).
    set (s2 := surface h s1) in *.
    destruct (charts_spec h s2) as (Hi3 & Hw3 & Hm3 & e3 & Hc3 & He3).
    set (s3 := charts h s2) in *.
    unfold initialized, say, interact.
    cbn [interactions win vars console].
    rewrite Hi3, Hi2, Hw3, Hw2, Hc3, Hc2. subst s1. unfold say.
    cbn [interactions win console]. rewrite Hi, Hc.
    split; [reflexivity|]. split; [exact Hp|]. split; [exact Ht|]. split.
    + apply Hm3. rewrite Hm2. cbn [say vars]. rewrite Hg. reflexivity.
    + exists (e2 ++ e3 ++ [console_log "✓ Portfolio initialization complete"]).
      split; [rewrite <- !app_assoc; reflexivity|].
      rewrite !not_elem_of_app. split; [exact He2|]. split; [exact He3|].
      rewrite not_elem_of_cons. split; [discriminate | apply not_elem_of_nil].
Qed.

Lemma boot_invariant (h0 : host) (events : list event) (s : app) :
  Forall (fun e => is_loaded e = false) events ->
  run (DOMContentLoaded h0 :: events) new = Some s ->
  exists W : nat, polling W s \/ initialized W s.
Proof.
  revert s. induction events as [|e events IH] using rev_ind; intros s Hev.
  - intros [= <-]. cbn [step].
    destruct (initializeWhenReady_first h0 0 new eq_refl eq_refl eq_refl
                eq_refl eq_refl (Nat.le_0_l _)) as [H|H];
      eexists; [left | right]; exact H.
  - apply Forall_app in Hev as [Hev He]. apply Forall_cons_1 in He as [He _].
    rewrite app_comm_cons, boot_run_snoc.
    destruct (run (DOMContentLoaded h0 :: events) new) as [s0|]; [|discriminate].
    cbn [mbind option_bind]. destruct (IH s0 Hev eq_refl) as [W HW].
    destruct e as [h|ms|handle h|]; [discriminate He| | |]; cbn [step].
    + intros [= <-]. exists W.
      destruct HW as [(Hi & Ha & Hg & Hc & hd & due & Hp & Hd)
                     |(Hi & Hp & Ht & Hm & rest & Hc & Hr)]; [left | right].
      * repeat split; try assumption. exists hd, due. split; assumption.
      * unfold initialized. cbn [interactions win elapse pending clock vars console].
        split; [exact Hi|]. split; [exact Hp|]. split; [lia|].
        split; [exact Hm|]. exists rest. split; assumption.
    + destruct (take handle (win s0)) as [[[] w]|] eqn:Htake; [|discriminate].
      apply take_elem in Htake as (due & Hin & Hdue & ->). intros [= <-].
      destruct HW as [(Hi & Ha & Hg & Hc & hd & due' & Hp & Hd)
                     |(Hi & Hp & Ht & Hm & rest & Hc & Hr)];
        [|rewrite Hp in Hin; apply elem_of_nil in Hin; contradiction].
      rewrite Hp in Hin. apply list_elem_of_singleton in Hin.
      injection Hin as -> ->.
      destruct (initializeWhenReady_first h W
                  {| vars := vars s0; console := console s0;
                     awaited := awaited s0; interactions := interactions s0;
                     win := clearTimeout (Some hd) (win s0) |})
        as [H|H]; try assumption.
      * cbn [win clearTimeout pending]. rewrite Hp. apply clear_single.
      * cbn [win clearTimeout clock]. lia.
      * exists (S W). left. exact H.
      * exists W. right. exact H.
    + destruct (awaited s0) as [|n] eqn:Ha; [discriminate|]. intros [= <-].
      exists W. right.
      destruct HW as [(Hi & Ha' & _)|(Hi & Hp & Ht & Hm & rest & Hc & Hr)];
        [rewrite Ha in Ha'; discriminate|].
      unfold initialized, say. cbn [interactions win pending clock vars console].
      split; [exact Hi|]. split; [exact Hp|]. split; [exact Ht|].
      split; [exact Hm|]. eexists. rewrite Hc, <- app_assoc. cbn [Datatypes.app].
      split; [reflexivity|]. rewrite not_elem_of_app. split; [exact Hr|].
      rewrite not_elem_of_cons. split; [discriminate | apply not_elem_of_nil].
Qed.

End BootFacts.

(** X25.  [initializeWhenReady] initialises the page once, at the first
    run that finds both libraries.  After [DOMContentLoaded] and any
    history of waits, timers and fulfilled promises, with [W] the
    number of runs that found a library missing: either the page is
    still waiting, nothing is constructed, the console shows [W]
    waiting messages and nothing else, and exactly one timer is
    pending, due at [100 * W] or later; or the page is initialised,
    [setupProjectInteractions] has run exactly once, no timer is
    pending, at least [100 * W] ms have passed, the console shows the
    [W] waiting messages, then the initialising message and no waiting
    message after it, and [markovViz] is set only if [kalmanViz] is. *)
Theorem initializeWhenReady_once (h0 : Main.Boot.host)
    (events : list Main.Boot.event) (s : Main.Boot.app) :
  Forall (fun e => is_loaded e = false) events ->
  Main.Boot.run (Main.Boot.DOMContentLoaded h0 :: events) Main.Boot.new
  = Some s ->
  exists W : nat,
    (Main.Boot.interactions s = 0%nat /\
     Main.Boot.vars s = Main.Boot.vars Main.Boot.new /\
     Main.Boot.console s = repeat waiting W /\
     exists handle due : nat,
       Main.pending (Main.Boot.win s) = [(handle, (due, tt))] /\
       (100 * W <= due)%nat)
    \/
    (Main.Boot.interactions s = 1%nat /\
     Main.pending (Main.Boot.win s) = [] /\
     (100 * W <= Main.clock (Main.Boot.win s))%nat /\
     (Main.Boot.markovViz (Main.Boot.vars s) = true ->
      Main.Boot.kalmanViz (Main.Boot.vars s) = true) /\
     exists rest : list Main.Boot.console_entry,
       Main.Boot.console s
       = repeat waiting W
         ++ Main.Boot.console_log "Initializing Quant Portfolio..." :: rest /\
       waiting ∉ rest).
Proof.
  intros Hev Hrun.
  destruct (boot_invariant h0 events s Hev Hrun) as [W [H|H]]; exists W.
  - left. destruct H as (Hi & _ & Hg & Hc & Hp). repeat split; assumption.
  - right. exact H.
Qed.

(** The libraries arrive between the second and the third run; the
    constructor of the Kalman chart throws. *)
Lemma initializeWhenReady_once_witness :
  exists (s : Main.Boot.app) (W : nat),
    Main.Boot.run
      (Main.Boot.DOMContentLoaded (example_libraries false false true)
       :: example_polls)
      Main.Boot.new = Some s /\
    Main.Boot.interactions s = 1%nat /\
    Main.Boot.vars s
    = {| Main.Boot.volatilitySurface := true;
         Main.Boot.kalmanViz := false;
         Main.Boot.markovViz := false |} /\
    (100 * W <= Main.clock (Main.Boot.win s))%nat.
Proof.
  assert (E : exists s : Main.Boot.app,
             Main.Boot.run
               (Main.Boot.DOMContentLoaded (example_libraries false false true)
                :: example_polls)
               Main.Boot.new = Some s /\
             Main.Boot.interactions s = 1%nat /\
             Main.Boot.vars s
             = {| Main.Boot.volatilitySurface := true;
                  Main.Boot.kalmanViz := false;
                  Main.Boot.markovViz := false |})
    by (eexists; split; [|split]; vm_compute; reflexivity).
  destruct E as (s & Hrun & Hi & Hg).
  assert (Hev : Forall (fun e => is_loaded e = false) example_polls)
    by (repeat constructor).
  destruct (initializeWhenReady_once _ example_polls s Hev Hrun)
    as [W [(Hi' & _)|(_ & _ & Ht & _)]].
  - rewrite Hi in Hi'. discriminate Hi'.
  - exists s, W. split; [exact Hrun|]. split; [exact Hi|].
    split; [exact Hg | exact Ht].
Defined.
